(** * go-puzzle-proxy: the cache-or-generate handler, embedded and verified

    The development follows the Go sources file by file:
    - [models.go]          the request and provider records,
    - [database.go]        [GetCachedPuzzle] and [SaveCachedPuzzle] over the
                           [cached_puzzles] table,
    - [gemini_service.go]  [GeneratePuzzle],
    - [main.go]            [generatePuzzleHandler].

    Go strings and byte slices are sequences of bytes; both are [string]
    here (a Rocq [string] is a list of 8-bit [ascii]).  A slice that the
    code tests against [nil] is an [option].

    The standard-library functions the handler calls ([crypto/sha256],
    [encoding/hex], [unicode/utf8], [encoding/json], [strings], [fmt]) are
    written out as executable definitions in modules named after the Go
    packages, following the Go 1.22 toolchain that the Dockerfile pins. *)

From Stdlib Require Import ZArith List String Ascii Bool Lia.
From stdpp Require Import gmap strings.
Import ListNotations.

Set Default Proof Using "Type".

(** ** Bytes *)

Definition code (c : ascii) : Z := Z.of_N (N_of_ascii c).
Definition chr (z : Z) : ascii := ascii_of_N (Z.to_N z).

Fixpoint bytes_of (s : string) : list Z :=
  match s with
  | EmptyString => []
  | String c r => code c :: bytes_of r
  end.

Fixpoint of_bytes (l : list Z) : string :=
  match l with
  | [] => EmptyString
  | b :: r => String (chr b) (of_bytes r)
  end.

(** The double quote, written by its code so that no literal needs one. *)
Definition dq : ascii := chr 34.
Definition nl : ascii := chr 10.
Definition tab : ascii := chr 9.

(** ** crypto/sha256 *)

Module sha256.
Local Open Scope Z_scope.

Definition _K : list Z :=
  [ 0x428A2F98; 0x71374491; 0xB5C0FBCF; 0xE9B5DBA5; 0x3956C25B; 0x59F111F1;
    0x923F82A4; 0xAB1C5ED5; 0xD807AA98; 0x12835B01; 0x243185BE; 0x550C7DC3;
    0x72BE5D74; 0x80DEB1FE; 0x9BDC06A7; 0xC19BF174; 0xE49B69C1; 0xEFBE4786;
    0x0FC19DC6; 0x240CA1CC; 0x2DE92C6F; 0x4A7484AA; 0x5CB0A9DC; 0x76F988DA;
    0x983E5152; 0xA831C66D; 0xB00327C8; 0xBF597FC7; 0xC6E00BF3; 0xD5A79147;
    0x06CA6351; 0x14292967; 0x27B70A85; 0x2E1B2138; 0x4D2C6DFC; 0x53380D13;
    0x650A7354; 0x766A0ABB; 0x81C2C92E; 0x92722C85; 0xA2BFE8A1; 0xA81A664B;
    0xC24B8B70; 0xC76C51A3; 0xD192E819; 0xD6990624; 0xF40E3585; 0x106AA070;
    0x19A4C116; 0x1E376C08; 0x2748774C; 0x34B0BCB5; 0x391C0CB3; 0x4ED8AA4A;
    0x5B9CCA4F; 0x682E6FF3; 0x748F82EE; 0x78A5636F; 0x84C87814; 0x8CC70208;
    0x90BEFFFA; 0xA4506CEB; 0xBEF9A3F7; 0xC67178F2 ].

(** The eight words [h0 .. h7] of a digest under construction. *)
Record digest := Digest {
  h0 : Z; h1 : Z; h2 : Z; h3 : Z; h4 : Z; h5 : Z; h6 : Z; h7 : Z
}.

Definition init : digest :=
  Digest 0x6a09e667 0xbb67ae85 0x3c6ef372 0xa54ff53a
         0x510e527f 0x9b05688c 0x1f83d9ab 0x5be0cd19.

(** [uint32] arithmetic wraps modulo [2^32]. *)
Definition u32 (x : Z) : Z := x mod 4294967296.
Definition add32 (x y : Z) : Z := u32 (x + y).
Definition not32 (x : Z) : Z := Z.lxor x 0xffffffff.

(** [bits.RotateLeft32 x (-n)]. *)
Definition rotr (x n : Z) : Z :=
  Z.lor (Z.shiftr x n) (u32 (Z.shiftl x (32 - n))).

Definition word_at (p : list Z) (j : nat) : Z :=
  Z.lor (Z.lor (Z.lor (Z.shiftl (nth j p 0) 24) (Z.shiftl (nth (j + 1) p 0) 16))
               (Z.shiftl (nth (j + 2) p 0) 8))
        (nth (j + 3) p 0).

(** [w[i]] for [i < 16]: the block read as big-endian words. *)
Definition load_words (p : list Z) : list Z :=
  map (fun i => word_at p (i * 4)) (seq 0 16).

(** [w[i]] for [16 <= i < 64], appended one at a time. *)
Fixpoint extend (n : nat) (w : list Z) : list Z :=
  match n with
  | O => w
  | S n' =>
      let i := List.length w in
      let v1 := nth (i - 2) w 0 in
      let t1 := Z.lxor (Z.lxor (rotr v1 17) (rotr v1 19)) (Z.shiftr v1 10) in
      let v2 := nth (i - 15) w 0 in
      let t2 := Z.lxor (Z.lxor (rotr v2 7) (rotr v2 18)) (Z.shiftr v2 3) in
      extend n' (w ++ [add32 (add32 (add32 t1 (nth (i - 7) w 0)) t2)
                             (nth (i - 16) w 0)])
  end.

(** One iteration of the 64-round loop, for round constant [k] and word [wi]. *)
Definition round (s : digest) (kw : Z * Z) : digest :=
  let '(Digest a b c d e f g h) := s in
  let t1 := add32 (add32 (add32 (add32 h
              (Z.lxor (Z.lxor (rotr e 6) (rotr e 11)) (rotr e 25)))
              (Z.lxor (Z.land e f) (Z.land (not32 e) g)))
              (fst kw)) (snd kw) in
  let t2 := add32
              (Z.lxor (Z.lxor (rotr a 2) (rotr a 13)) (rotr a 22))
              (Z.lxor (Z.lxor (Z.land a b) (Z.land a c)) (Z.land b c)) in
  Digest (add32 t1 t2) a b c (add32 d t1) e f g.

(** [blockGeneric] on one 64-byte chunk. *)
Definition block (dig : digest) (p : list Z) : digest :=
  let w := extend 48 (load_words p) in
  let '(Digest a b c d e f g h) := fold_left round (combine _K w) dig in
  Digest (add32 (h0 dig) a) (add32 (h1 dig) b) (add32 (h2 dig) c)
         (add32 (h3 dig) d) (add32 (h4 dig) e) (add32 (h5 dig) f)
         (add32 (h6 dig) g) (add32 (h7 dig) h).

(** [for len(p) >= chunk { ...; p = p[chunk:] }], [n] chunks. *)
Fixpoint blocks (n : nat) (dig : digest) (p : list Z) : digest :=
  match n with
  | O => dig
  | S n' => blocks n' (block dig (firstn 64 p)) (skipn 64 p)
  end.

Definition be_bytes (width : nat) (x : Z) : list Z :=
  map (fun i => Z.land (Z.shiftr x (8 * Z.of_nat i)) 255) (rev (seq 0 width)).

(** [checkSum]: a 1 bit, zero bits up to 56 bytes mod 64, then the length in
    bits as a big-endian [uint64]. *)
Definition padding (len : Z) : list Z :=
  let t := if len mod 64 <? 56 then 56 - len mod 64 else 64 + 56 - len mod 64 in
  0x80 :: repeat 0 (Z.to_nat (t - 1))
    ++ be_bytes 8 ((len * 8) mod 18446744073709551616).

Definition checkSum (data : list Z) : digest :=
  let p := data ++ padding (Z.of_nat (List.length data)) in
  blocks (Nat.div (List.length p) 64) init p.

Definition digest_bytes (d : digest) : list Z :=
  be_bytes 4 (h0 d) ++ be_bytes 4 (h1 d) ++ be_bytes 4 (h2 d) ++ be_bytes 4 (h3 d)
  ++ be_bytes 4 (h4 d) ++ be_bytes 4 (h5 d) ++ be_bytes 4 (h6 d) ++ be_bytes 4 (h7 d).

(** [h := sha256.New(); h.Write(data); h.Sum(nil)]. *)
Definition Sum (data : string) : string :=
  of_bytes (digest_bytes (checkSum (bytes_of data))).

End sha256.

(** ** encoding/hex *)

Module hex.
Local Open Scope Z_scope.

Definition hextable : string := "0123456789abcdef".

Definition digit (n : Z) : ascii :=
  match String.get (Z.to_nat n) hextable with
  | Some c => c
  | None => "0"%char
  end.

(** [dst[j] = hextable[v>>4]; dst[j+1] = hextable[v&0x0f]]. *)
Fixpoint EncodeToString (src : string) : string :=
  match src with
  | EmptyString => EmptyString
  | String v r =>
      String (digit (Z.shiftr (code v) 4))
        (String (digit (Z.land (code v) 15)) (EncodeToString r))
  end.

End hex.

(** ** unicode/utf8 *)

Module utf8.
Local Open Scope Z_scope.

Definition RuneError : Z := 0xFFFD.
Definition RuneSelf : Z := 0x80.
Definition MaxRune : Z := 0x10FFFF.

(** The [first] table with [acceptRanges] folded in: for a leading byte, the
    length of the sequence it starts and the range its second byte must lie
    in; [None] for a byte that starts no multi-byte sequence. *)
Definition first (p0 : Z) : option (nat * Z * Z) :=
  if p0 <? 0xC2 then None
  else if p0 <=? 0xDF then Some (2%nat, 0x80, 0xBF)
  else if p0 =? 0xE0 then Some (3%nat, 0xA0, 0xBF)
  else if p0 =? 0xED then Some (3%nat, 0x80, 0x9F)
  else if p0 <=? 0xEF then Some (3%nat, 0x80, 0xBF)
  else if p0 =? 0xF0 then Some (4%nat, 0x90, 0xBF)
  else if p0 <=? 0xF3 then Some (4%nat, 0x80, 0xBF)
  else if p0 =? 0xF4 then Some (4%nat, 0x80, 0x8F)
  else None.

Definition cont (b : Z) : bool := (0x80 <=? b) && (b <=? 0xBF).

(** [DecodeRune]: the rune at the head of [p] and its width in bytes. *)
Definition DecodeRune (p : string) : Z * nat :=
  match p with
  | EmptyString => (RuneError, 0%nat)
  | String c0 r0 =>
      let p0 := code c0 in
      if p0 <? RuneSelf then (p0, 1%nat)
      else
        match first p0 with
        | None => (RuneError, 1%nat)
        | Some (sz, lo, hi) =>
            match r0 with
            | EmptyString => (RuneError, 1%nat)
            | String c1 r1 =>
                let b1 := code c1 in
                if (b1 <? lo) || (hi <? b1) then (RuneError, 1%nat)
                else if (sz <=? 2)%nat then
                  (Z.lor (Z.shiftl (Z.land p0 0x1F) 6) (Z.land b1 0x3F), 2%nat)
                else
                  match r1 with
                  | EmptyString => (RuneError, 1%nat)
                  | String c2 r2 =>
                      let b2 := code c2 in
                      if negb (cont b2) then (RuneError, 1%nat)
                      else if (sz <=? 3)%nat then
                        (Z.lor (Z.lor (Z.shiftl (Z.land p0 0x0F) 12)
                                      (Z.shiftl (Z.land b1 0x3F) 6))
                               (Z.land b2 0x3F), 3%nat)
                      else
                        match r2 with
                        | EmptyString => (RuneError, 1%nat)
                        | String c3 _ =>
                            let b3 := code c3 in
                            if negb (cont b3) then (RuneError, 1%nat)
                            else
                              (Z.lor (Z.lor (Z.lor (Z.shiftl (Z.land p0 0x07) 18)
                                                   (Z.shiftl (Z.land b1 0x3F) 12))
                                            (Z.shiftl (Z.land b2 0x3F) 6))
                                     (Z.land b3 0x3F), 4%nat)
                        end
                  end
            end
        end
  end.

Definition enc3 (r : Z) : string :=
  of_bytes [Z.lor 0xE0 (Z.shiftr r 12);
            Z.lor 0x80 (Z.land (Z.shiftr r 6) 0x3F);
            Z.lor 0x80 (Z.land r 0x3F)].

(** [AppendRune(nil, r)]. *)
Definition EncodeRune (r : Z) : string :=
  if (0 <=? r) && (r <=? 0x7F) then of_bytes [r]
  else if (0 <=? r) && (r <=? 0x7FF) then
    of_bytes [Z.lor 0xC0 (Z.shiftr r 6); Z.lor 0x80 (Z.land r 0x3F)]
  else if (r <? 0) || (MaxRune <? r) || ((0xD800 <=? r) && (r <=? 0xDFFF)) then
    enc3 RuneError
  else if r <=? 0xFFFF then enc3 r
  else
    of_bytes [Z.lor 0xF0 (Z.shiftr r 18);
              Z.lor 0x80 (Z.land (Z.shiftr r 12) 0x3F);
              Z.lor 0x80 (Z.land (Z.shiftr r 6) 0x3F);
              Z.lor 0x80 (Z.land r 0x3F)].

End utf8.

(** [s[n:]] for [n <= len(s)]. *)
Fixpoint slice_from (n : nat) (s : string) : string :=
  match n, s with
  | O, _ => s
  | S n', String _ r => slice_from n' r
  | S _, EmptyString => EmptyString
  end.

(** [s[:n]] for [n <= len(s)]. *)
Fixpoint slice_to (n : nat) (s : string) : string :=
  match n, s with
  | S n', String c r => String c (slice_to n' r)
  | _, _ => EmptyString
  end.


(** ** encoding/json *)

Module json.
Local Open Scope Z_scope.

(** *** Encoding *)

(** [htmlSafeSet]: the ASCII bytes [Marshal] copies unescaped. *)
Definition htmlSafeSet (b : Z) : bool :=
  (0x20 <=? b) && (b <? 0x80)
  && negb ((b =? 34) || (b =? 92) || (b =? 60) || (b =? 62) || (b =? 38)).

Definition escape_ascii (b : Z) : string :=
  if (b =? 92) || (b =? 34) then String "\" (String (chr b) EmptyString)
  else if b =? 8 then "\b"
  else if b =? 12 then "\f"
  else if b =? 10 then "\n"
  else if b =? 13 then "\r"
  else if b =? 9 then "\t"
  else "\u00" +:+ String (hex.digit (Z.shiftr b 4)) (String (hex.digit (Z.land b 15)) EmptyString).

(** What the loop of [appendString] does with the bytes after the leading
    byte of a rune it has already decided on. *)
Inductive pending := Fresh | Copy (n : nat) | Discard (n : nat).

(** The loop of [appendString] with [escapeHTML] set, between the quotes. *)
Fixpoint appendString_loop (p : pending) (src : string) : string :=
  match src with
  | EmptyString => EmptyString
  | String c r =>
      match p with
      | Copy (S n) => String c (appendString_loop (Copy n) r)
      | Discard (S n) => appendString_loop (Discard n) r
      | _ =>
          let b := code c in
          if b <? utf8.RuneSelf then
            if htmlSafeSet b then String c (appendString_loop Fresh r)
            else escape_ascii b +:+ appendString_loop Fresh r
          else
            let '(rn, size) := utf8.DecodeRune src in
            if (rn =? utf8.RuneError) && (size =? 1)%nat then
              "\ufffd" +:+ appendString_loop Fresh r
            else if (rn =? 0x2028) || (rn =? 0x2029) then
              "\u202" +:+ String (hex.digit (Z.land rn 15))
                                 (appendString_loop (Discard (size - 1)) r)
            else String c (appendString_loop (Copy (size - 1)) r)
      end
  end.

Definition quote (s : string) : string := String dq (s +:+ String dq EmptyString).

Definition appendString (src : string) : string :=
  quote (appendString_loop Fresh src).

Fixpoint join (sep : string) (l : list string) : string :=
  match l with
  | [] => EmptyString
  | [x] => x
  | x :: r => x +:+ sep +:+ join sep r
  end.

(** A [[]string]: [null] for the nil slice, else the elements in brackets. *)
Definition encode_strings (l : option (list string)) : string :=
  match l with
  | None => "null"
  | Some l => "[" +:+ join "," (map appendString l) +:+ "]"
  end.

(** One struct field, [name] being its [json] tag. *)
Definition field (name encoded : string) : string :=
  quote name +:+ ":" +:+ encoded.

Definition encode_struct (fields : list string) : string :=
  "{" +:+ join "," fields +:+ "}".

(** *** Scanning and parsing *)

(** [SyntaxError] stands for every way in which a text is not one JSON
    value.  [Unmarshal] and [Valid] report all of them as a [*SyntaxError];
    a [Decoder] reports an empty, a blank and a cut-off body as [io.EOF] or
    [io.ErrUnexpectedEOF] instead, which the handler treats as it treats a
    [*SyntaxError]: only the text of the message differs. *)
Inductive error := SyntaxError | UnmarshalTypeError | OutOfFuel.

Inductive result (A : Type) :=
| Ok (a : A)
| Err (e : error).
Arguments Ok {A} a.
Arguments Err {A} e.

#[local] Unset Elimination Schemes.
Inductive value :=
| Null
| Bool (b : bool)
| Number (lit : string)
| Str (s : string)
| Array (l : list value)
| Object (m : list (string * value)).
#[local] Set Elimination Schemes.

Definition maxNestingDepth : Z := 10000.

Definition isSpace (c : ascii) : bool :=
  let b := code c in (b =? 32) || (b =? 9) || (b =? 13) || (b =? 10).

Fixpoint skip_space (s : string) : string :=
  match s with
  | String c r => if isSpace c then skip_space r else s
  | EmptyString => EmptyString
  end.

Definition isDigit (c : ascii) : bool := (48 <=? code c) && (code c <=? 57).

Definition isHex (c : ascii) : bool :=
  let b := code c in
  ((48 <=? b) && (b <=? 57)) || ((97 <=? b) && (b <=? 102))
  || ((65 <=? b) && (b <=? 70)).

(** The scanner inside a string literal: [stateInString], [stateInStringEsc]
    and the four [stateInStringEscU] states. *)
Inductive in_string := InString | InStringEsc | InStringEscU (n : nat).

(** From just after the opening quote: the literal's text between the quotes
    and the input after the closing quote. *)
Fixpoint scan_string (st : in_string) (s : string) : option (string * string) :=
  match s with
  | EmptyString => None
  | String c r =>
      let keep st' :=
        match scan_string st' r with
        | Some (lit, rest) => Some (String c lit, rest)
        | None => None
        end in
      match st with
      | InString =>
          if Ascii.eqb c dq then Some (EmptyString, r)
          else if Ascii.eqb c "\" then keep InStringEsc
          else if code c <? 0x20 then None
          else keep InString
      | InStringEsc =>
          let b := code c in
          if (b =? 98) || (b =? 102) || (b =? 110) || (b =? 114) || (b =? 116)
             || (b =? 92) || (b =? 47) || (b =? 34) then keep InString
          else if b =? 117 then keep (InStringEscU 4)
          else None
      | InStringEscU n =>
          if isHex c then
            keep (match n with
                  | S (S n') => InStringEscU (S n')
                  | _ => InString
                  end)
          else None
      end
  end.

Fixpoint digits (s : string) : string * string :=
  match s with
  | String c r =>
      if isDigit c then let '(ds, rest) := digits r in (String c ds, rest)
      else (EmptyString, s)
  | EmptyString => (EmptyString, EmptyString)
  end.

(** [stateNeg]: an optional minus sign. *)
Definition scan_sign (s : string) : string * string :=
  match s with
  | String c r => if Ascii.eqb c "-" then ("-"%string, r) else (EmptyString, s)
  | EmptyString => (EmptyString, s)
  end.

(** [state0] and [state1]: a zero, or a digit from 1 to 9 and more digits. *)
Definition scan_int (s : string) : option (string * string) :=
  match s with
  | String c r =>
      if Ascii.eqb c "0" then Some ("0"%string, r)
      else if isDigit c then
        let '(ds, rest) := digits r in Some (String c ds, rest)
      else None
  | EmptyString => None
  end.

(** [stateDot] and [stateDot0]: a point must be followed by a digit. *)
Definition scan_frac (s : string) : option (string * string) :=
  match s with
  | String c r =>
      if Ascii.eqb c "." then
        match digits r with
        | (EmptyString, _) => None
        | (ds, rest) => Some (String c ds, rest)
        end
      else Some (EmptyString, s)
  | EmptyString => Some (EmptyString, s)
  end.

(** [stateE], [stateESign] and [stateE0]: an exponent has a digit. *)
Definition scan_exp (s : string) : option (string * string) :=
  match s with
  | String c r =>
      if Ascii.eqb c "e" || Ascii.eqb c "E" then
        let '(sg, r1) :=
          match r with
          | String c' r' =>
              if Ascii.eqb c' "+" || Ascii.eqb c' "-"
              then (String c' EmptyString, r')
              else (EmptyString, r)
          | EmptyString => (EmptyString, r)
          end in
        match digits r1 with
        | (EmptyString, _) => None
        | (ds, rest) => Some (String c (sg +:+ ds), rest)
        end
      else Some (EmptyString, s)
  | EmptyString => Some (EmptyString, s)
  end.

(** The number literal at the head of [s] and the input after it. *)
Definition scan_number (s : string) : option (string * string) :=
  let '(sign, s1) := scan_sign s in
  match scan_int s1 with
  | None => None
  | Some (ip, s2) =>
      match scan_frac s2 with
      | None => None
      | Some (fp, s3) =>
          match scan_exp s3 with
          | None => None
          | Some (ep, s4) => Some (sign +:+ ip +:+ fp +:+ ep, s4)
          end
      end
  end.

Fixpoint strip_prefix (p s : string) : option string :=
  match p, s with
  | EmptyString, _ => Some s
  | String a p', String b s' => if Ascii.eqb a b then strip_prefix p' s' else None
  | _, EmptyString => None
  end.

(** *** Unquoting *)

Definition hexval (c : ascii) : Z :=
  let b := code c in
  if (48 <=? b) && (b <=? 57) then b - 48
  else if (97 <=? b) && (b <=? 102) then b - 97 + 10
  else if (65 <=? b) && (b <=? 70) then b - 65 + 10
  else -1.

(** [getu4]: the code unit of a [\uXXXX] at the head of [s], or [-1]. *)
Definition getu4 (s : string) : Z :=
  match s with
  | String "\"%char (String "u"%char (String a (String b (String c (String d _))))) =>
      if isHex a && isHex b && isHex c && isHex d then
        ((hexval a * 16 + hexval b) * 16 + hexval c) * 16 + hexval d
      else -1
  | _ => -1
  end.

(** [utf16.IsSurrogate] and [utf16.DecodeRune]. *)
Definition IsSurrogate (r : Z) : bool := (0xd800 <=? r) && (r <? 0xe000).

Definition utf16_DecodeRune (r1 r2 : Z) : Z :=
  if (0xd800 <=? r1) && (r1 <? 0xdc00) && (0xdc00 <=? r2) && (r2 <? 0xe000)
  then Z.lor (Z.shiftl (r1 - 0xd800) 10) (r2 - 0xdc00) + 0x10000
  else utf8.RuneError.

Definition unescape (c : ascii) : ascii :=
  let b := code c in
  if b =? 98 then chr 8
  else if b =? 102 then chr 12
  else if b =? 110 then chr 10
  else if b =? 114 then chr 13
  else if b =? 116 then chr 9
  else c.

(** [unquoteBytes] on the text between the quotes of a literal the scanner
    accepted: escapes are resolved and the rest is coerced to well-formed
    UTF-8.  [n] bounds the number of loop iterations. *)
Fixpoint unquote_loop (n : nat) (s : string) : string :=
  match n with
  | O => EmptyString
  | S n' =>
      match s with
      | EmptyString => EmptyString
      | String c r =>
          if Ascii.eqb c "\" then
            match r with
            | String "u"%char _ =>
                let rr := getu4 s in
                let s' := slice_from 6 s in
                if IsSurrogate rr then
                  let dec := utf16_DecodeRune rr (getu4 s') in
                  if negb (dec =? utf8.RuneError) then
                    utf8.EncodeRune dec +:+ unquote_loop n' (slice_from 6 s')
                  else utf8.EncodeRune utf8.RuneError +:+ unquote_loop n' s'
                else utf8.EncodeRune rr +:+ unquote_loop n' s'
            | String e r' => String (unescape e) (unquote_loop n' r')
            | EmptyString => EmptyString
            end
          else if code c <? utf8.RuneSelf then String c (unquote_loop n' r)
          else
            let '(rr, size) := utf8.DecodeRune s in
            utf8.EncodeRune rr +:+ unquote_loop n' (slice_from size s)
      end
  end.

Definition unquote (lit : string) : string :=
  unquote_loop (String.length lit) lit.

(** *** The value grammar

    The scanner is a push-down automaton over the bytes; here it is three
    mutually recursive readers that also build the value.  [depth] is
    [len(parseState)].  Each reader is given the readers it calls, which
    [parse], [members] and [elements] below instantiate with themselves on
    less fuel. *)

Section Grammar.

Variable parse' : Z -> string -> result (value * string).
Variable members' : Z -> string -> result (list (string * value) * string).
Variable elements' : Z -> string -> result (list value * string).

(** One value at the head of [s], after optional white space, and the input
    that follows it. *)
Definition parse_body (depth : Z) (s : string) : result (value * string) :=
  match skip_space s with
  | EmptyString => Err SyntaxError
  | String c r =>
      if Ascii.eqb c "{" then
        if maxNestingDepth <? depth + 1 then Err SyntaxError
        else
          match skip_space r with
          | String "}"%char r' => Ok (Object [], r')
          | _ =>
              match members' (depth + 1) r with
              | Ok (m, rest) => Ok (Object m, rest)
              | Err e => Err e
              end
          end
      else if Ascii.eqb c "[" then
        if maxNestingDepth <? depth + 1 then Err SyntaxError
        else
          match skip_space r with
          | String "]"%char r' => Ok (Array [], r')
          | _ =>
              match elements' (depth + 1) r with
              | Ok (l, rest) => Ok (Array l, rest)
              | Err e => Err e
              end
          end
      else if Ascii.eqb c dq then
        match scan_string InString r with
        | Some (lit, rest) => Ok (Str (unquote lit), rest)
        | None => Err SyntaxError
        end
      else if Ascii.eqb c "-" || isDigit c then
        match scan_number (String c r) with
        | Some (lit, rest) => Ok (Number lit, rest)
        | None => Err SyntaxError
        end
      else if Ascii.eqb c "t" then
        match strip_prefix "rue" r with
        | Some rest => Ok (Bool true, rest)
        | None => Err SyntaxError
        end
      else if Ascii.eqb c "f" then
        match strip_prefix "alse" r with
        | Some rest => Ok (Bool false, rest)
        | None => Err SyntaxError
        end
      else if Ascii.eqb c "n" then
        match strip_prefix "ull" r with
        | Some rest => Ok (Null, rest)
        | None => Err SyntaxError
        end
      else Err SyntaxError
  end.

(** The members of an object from a key on, up to the closing brace. *)
Definition members_body (depth : Z) (s : string)
  : result (list (string * value) * string) :=
  match skip_space s with
  | String c r =>
      if Ascii.eqb c dq then
        match scan_string InString r with
        | None => Err SyntaxError
        | Some (lit, r1) =>
            match skip_space r1 with
            | String ":"%char r2 =>
                match parse' depth r2 with
                | Err e => Err e
                | Ok (v, r3) =>
                    match skip_space r3 with
                    | String ","%char r4 =>
                        match members' depth r4 with
                        | Ok (m, rest) => Ok ((unquote lit, v) :: m, rest)
                        | Err e => Err e
                        end
                    | String "}"%char r4 => Ok ([(unquote lit, v)], r4)
                    | _ => Err SyntaxError
                    end
                end
            | _ => Err SyntaxError
            end
        end
      else Err SyntaxError
  | EmptyString => Err SyntaxError
  end.

(** The elements of an array from a value on, up to the closing bracket. *)
Definition elements_body (depth : Z) (s : string) : result (list value * string) :=
  match parse' depth s with
  | Err e => Err e
  | Ok (v, r1) =>
      match skip_space r1 with
      | String ","%char r2 =>
          match elements' depth r2 with
          | Ok (l, rest) => Ok (v :: l, rest)
          | Err e => Err e
          end
      | String "]"%char r2 => Ok ([v], r2)
      | _ => Err SyntaxError
      end
  end.

End Grammar.

(** Of two nested calls one consumes a byte, so [fuel] above twice the
    length of the input is never used up (see [parse_fuel]). *)
Fixpoint parse (fuel : nat) (depth : Z) (s : string) {struct fuel}
  : result (value * string) :=
  match fuel with
  | O => Err OutOfFuel
  | S fuel' => parse_body (members fuel') (elements fuel') depth s
  end
with members (fuel : nat) (depth : Z) (s : string) {struct fuel}
  : result (list (string * value) * string) :=
  match fuel with
  | O => Err OutOfFuel
  | S fuel' => members_body (parse fuel') (members fuel') depth s
  end
with elements (fuel : nat) (depth : Z) (s : string) {struct fuel}
  : result (list value * string) :=
  match fuel with
  | O => Err OutOfFuel
  | S fuel' => elements_body (parse fuel') (elements fuel') depth s
  end.

Definition enough_fuel (s : string) : nat := S (2 * String.length s).

(** [Decoder.readValue]: the first value of the stream; what follows it is
    left unread. *)
Definition readValue (body : string) : result value :=
  match parse (enough_fuel body) 0 body with
  | Ok (v, _) => Ok v
  | Err e => Err e
  end.

(** [checkValid] as [Unmarshal] applies it: one value and then only white
    space. *)
Definition checkValid (data : string) : result value :=
  match parse (enough_fuel data) 0 data with
  | Ok (v, rest) =>
      match skip_space rest with
      | EmptyString => Ok v
      | _ => Err SyntaxError
      end
  | Err e => Err e
  end.

(** *** Storing a parsed value into a Go value

    [Unmarshal] decodes in place: what a value holds before matters.  A
    store takes the JSON value and the old Go value and gives the new one,
    with a flag that is set when it saved an [UnmarshalTypeError]
    ([d.saveError]); decoding goes on after such an error and reports it at
    the end. *)

Definition store (A : Type) : Type := value -> A -> A * bool.

(** A slice as the decoder sees it: the elements in view ([None] for the
    nil slice) and the contents of its backing array past the length, which
    [SetLen] brings back into view when a later array is decoded into the
    same slice. *)
Record slice (A : Type) := Slice { elems : option (list A); spare : list A }.
Arguments Slice {A} elems spare.
Arguments elems {A} s.
Arguments spare {A} s.

Definition nil_slice {A : Type} : slice A := Slice None [].

Definition in_view {A : Type} (s : slice A) : list A :=
  match elems s with
  | Some l => l
  | None => []
  end.

Definition backing {A : Type} (s : slice A) : list A := in_view s ++ spare s.

(** [literalStore] into a [string]: a string is stored, [null] has no
    effect, anything else is a type error. *)
Definition store_string : store string :=
  fun v old =>
    match v with
    | Str s => (s, false)
    | Null => (old, false)
    | _ => (old, true)
    end.

(** The loop of [d.array]: element [i] is decoded into [v.Index(i)], which
    holds what the backing array held there, or the zero value past it. *)
Fixpoint store_elems {A : Type} (zero : A) (elem : store A)
    (l : list value) (back : list A) : list A * bool :=
  match l with
  | [] => ([], false)
  | v :: l' =>
      let old := match back with
                 | x :: _ => x
                 | [] => zero
                 end in
      let '(x, e1) := elem v old in
      let '(xs, e2) := store_elems zero elem l' (tl back) in
      (x :: xs, e1 || e2)
  end.

(** [d.array] and [literalStore] into a slice: [null] sets it to nil, an
    empty array to a fresh empty slice, an array to its elements (the slice
    is cut or grown to their number); anything else is a type error. *)
Definition store_slice {A : Type} (zero : A) (elem : store A) : store (slice A) :=
  fun v old =>
    match v with
    | Null => (nil_slice, false)
    | Array [] => (Slice (Some []) [], false)
    | Array l =>
        let '(xs, e) := store_elems zero elem l (backing old) in
        (Slice (Some xs) (skipn (List.length l) (backing old)), e)
    | _ => (old, true)
    end.

Definition upper (b : Z) : Z :=
  if (97 <=? b) && (b <=? 122) then b - 32 else b.

(** Whether [key] and the ASCII field name [name] are equal once folded
    ([foldName]).  Outside ASCII only U+017F (long s) folds to an ASCII
    letter, [S], and only U+212A (Kelvin sign) to [K]. *)
Fixpoint equalFold (name key : string) : bool :=
  match name, key with
  | EmptyString, EmptyString => true
  | String sb name', String tb key' =>
      if code tb <? utf8.RuneSelf then
        (upper (code sb) =? upper (code tb)) && equalFold name' key'
      else
        let '(tr, size) := utf8.DecodeRune key in
        if ((upper (code sb) =? 83) && (tr =? 0x17F))
           || ((upper (code sb) =? 75) && (tr =? 0x212A))
        then equalFold name' (slice_from size key)
        else false
  | _, _ => false
  end.

(** The fields of a struct type [T]: the name each is tagged with and how a
    value is stored into it. *)
Definition fields (T : Type) : Type := list (string * store T).

Fixpoint find_field {T : Type} (test : string -> bool) (fs : fields T)
  : option (store T) :=
  match fs with
  | [] => None
  | (name, st) :: fs' => if test name then Some st else find_field test fs'
  end.

(** [byExactName], then [byFoldedName]. *)
Definition lookup_field {T : Type} (fs : fields T) (key : string)
  : option (store T) :=
  match find_field (String.eqb key) fs with
  | Some st => Some st
  | None => find_field (fun name => equalFold name key) fs
  end.

(** The loop of [d.object] on a struct: each member in turn is stored into
    the field its key names, and skipped when it names none. *)
Fixpoint store_members {T : Type} (fs : fields T)
    (m : list (string * value)) (t : T) : T * bool :=
  match m with
  | [] => (t, false)
  | (k, v) :: m' =>
      let '(t1, e1) :=
        match lookup_field fs k with
        | Some st => st v t
        | None => (t, false)
        end in
      let '(t2, e2) := store_members fs m' t1 in
      (t2, e1 || e2)
  end.

Definition store_struct {T : Type} (fs : fields T) : store T :=
  fun v old =>
    match v with
    | Object m => store_members fs m old
    | Null => (old, false)
    | _ => (old, true)
    end.

(** [d.unmarshal] returns the saved error, if any. *)
Definition unmarshal {T : Type} (st : store T) (v : value) (zero : T) : result T :=
  let '(t, e) := st v zero in
  if e then Err UnmarshalTypeError else Ok t.

(** *** [map[string]interface{}]

    A document decoded into an [interface{}] keeps of an object only the
    last binding of each key, and [Marshal] writes a map in the order of its
    keys.  Both are a [value] whose objects are sorted and free of
    duplicates.  A number would become a [float64] and be printed as one;
    that conversion is not modelled (the literal is kept), and no document
    this program decodes that way contains a number
    (see [schemas_hold_no_number]). *)

Definition key_lt (a b : string) : bool :=
  match String.compare a b with
  | Lt => true
  | _ => false
  end.

Fixpoint insert_key (k : string) (v : value) (m : list (string * value))
  : list (string * value) :=
  match m with
  | [] => [(k, v)]
  | (k', v') :: m' =>
      if String.eqb k k' then (k, v) :: m'
      else if key_lt k k' then (k, v) :: m
      else (k', v') :: insert_key k v m'
  end.

Fixpoint to_interface (v : value) : value :=
  match v with
  | Array l =>
      Array ((fix each (l : list value) : list value :=
                match l with
                | [] => []
                | x :: r => to_interface x :: each r
                end) l)
  | Object m =>
      Object ((fix each (m acc : list (string * value)) : list (string * value) :=
                 match m with
                 | [] => acc
                 | (k, x) :: r => each r (insert_key k (to_interface x) acc)
                 end) m [])
  | _ => v
  end.

(** [Unmarshal(data, &m)] for a nil [m map[string]interface{}]: an object
    fills the map, [null] leaves it nil. *)
Definition Unmarshal_map (data : string) : result value :=
  match checkValid data with
  | Err e => Err e
  | Ok (Object m) => Ok (to_interface (Object m))
  | Ok Null => Ok Null
  | Ok _ => Err UnmarshalTypeError
  end.

(** [Marshal] of an [interface{}] holding such a value. *)
Fixpoint encode_interface (v : value) : string :=
  match v with
  | Null => "null"
  | Bool true => "true"
  | Bool false => "false"
  | Number lit => lit
  | Str s => appendString s
  | Array l =>
      "[" +:+ join "," ((fix each (l : list value) : list string :=
                           match l with
                           | [] => []
                           | x :: r => encode_interface x :: each r
                           end) l) +:+ "]"
  | Object m =>
      "{" +:+ join "," ((fix each (m : list (string * value)) : list string :=
                           match m with
                           | [] => []
                           | (k, x) :: r =>
                               (appendString k +:+ ":" +:+ encode_interface x)
                               :: each r
                           end) m) +:+ "}"
  end.

(** [Marshal(m)] for such a map; nothing a document decodes to makes it
    fail. *)
Definition Marshal_map (v : value) : result string := Ok (encode_interface v).

Fixpoint holds_number (v : value) : bool :=
  match v with
  | Number _ => true
  | Array l =>
      (fix any (l : list value) : bool :=
         match l with
         | [] => false
         | x :: r => holds_number x || any r
         end) l
  | Object m =>
      (fix any (m : list (string * value)) : bool :=
         match m with
         | [] => false
         | (_, x) :: r => holds_number x || any r
         end) m
  | _ => false
  end.

(** *** [RawMessage]

    A [RawMessage] field is written through [appendCompact]: the text must
    be one valid value; white space between its tokens is dropped, and
    inside its strings the bytes [<], [>], [&] and the runes U+2028 and
    U+2029 are escaped. *)

Inductive compacting := Outside | Inside | InsideEsc | Skip (n : nat).

Fixpoint compact_loop (st : compacting) (src : string) : string :=
  match src with
  | EmptyString => EmptyString
  | String c r =>
      let b := code c in
      match st with
      | Outside =>
          if isSpace c then compact_loop Outside r
          else String c (compact_loop (if Ascii.eqb c dq then Inside else Outside) r)
      | Inside =>
          if (b =? 60) || (b =? 62) || (b =? 38) then
            escape_ascii b +:+ compact_loop Inside r
          else if b =? 0xE2 then
            match r with
            | String c1 (String c2 _) =>
                if (code c1 =? 0x80) && ((code c2 =? 0xA8) || (code c2 =? 0xA9)) then
                  "\u202" +:+ String (hex.digit (Z.land (code c2) 15))
                                     (compact_loop (Skip 2) r)
                else String c (compact_loop Inside r)
            | _ => String c (compact_loop Inside r)
            end
          else if Ascii.eqb c "\" then String c (compact_loop InsideEsc r)
          else String c (compact_loop (if Ascii.eqb c dq then Outside else Inside) r)
      | InsideEsc => String c (compact_loop Inside r)
      | Skip (S (S n)) => compact_loop (Skip (S n)) r
      | Skip _ => compact_loop Inside r
      end
  end.

Definition appendCompact (src : string) : result string :=
  match checkValid src with
  | Err e => Err e
  | Ok _ => Ok (compact_loop Outside src)
  end.

End json.


(** ** strings and fmt *)

Module strings.
Local Open Scope Z_scope.

(** [Join(elems, sep)]. *)
Fixpoint Join (elems : list string) (sep : string) : string :=
  match elems with
  | [] => EmptyString
  | [x] => x
  | x :: r => x +:+ sep +:+ Join r sep
  end.

Fixpoint isASCII (s : string) : bool :=
  match s with
  | EmptyString => true
  | String c r => (code c <? utf8.RuneSelf) && isASCII r
  end.

(** The ASCII path of [ToLower]: [c += 'a' - 'A'] for ['A' <= c <= 'Z']. *)
Fixpoint lower_ascii (s : string) : string :=
  match s with
  | EmptyString => EmptyString
  | String c r =>
      String (if (65 <=? code c) && (code c <=? 90) then chr (code c + 32) else c)
             (lower_ascii r)
  end.

(** [Map(mapping, s)]: every rune of [s] (a byte that starts no valid
    encoding counts as U+FFFD) replaced by its image, and dropped when the
    image is negative.  [n] bounds the iterations of [range s]. *)
Fixpoint Map_loop (mapping : Z -> Z) (n : nat) (s : string) : string :=
  match n with
  | O => EmptyString
  | S n' =>
      match s with
      | EmptyString => EmptyString
      | String _ _ =>
          let '(c, width) := utf8.DecodeRune s in
          let r := mapping c in
          (if r <? 0 then EmptyString else utf8.EncodeRune r)
          +:+ Map_loop mapping n' (slice_from width s)
      end
  end.

Definition Map (mapping : Z -> Z) (s : string) : string :=
  Map_loop mapping (String.length s) s.

Section ToLower.

(** [unicode.To(unicode.LowerCase, r)]: the lower-case mapping of the
    [unicode.CaseRanges] table, which is not part of this development. *)
Variable To_LowerCase : Z -> Z.

(** [unicode.ToLower]. *)
Definition unicode_ToLower (r : Z) : Z :=
  if r <=? 0x7F then (if (65 <=? r) && (r <=? 90) then r + 32 else r)
  else To_LowerCase r.

Definition ToLower (s : string) : string :=
  if isASCII s then lower_ascii s else Map unicode_ToLower s.

End ToLower.

End strings.

Module fmt.

(** [Sprintf] for formats whose verbs are [%s] or [%v] and whose operands
    are strings, which is how this program builds its prompt and its URL:
    an operand is copied as it is.  [%%] is a percent sign; a verb without
    an operand prints [%!s(MISSING)]; operands left over are listed after
    [%!(EXTRA].  Flags, widths and the other verbs are not modelled. *)
Fixpoint Sprintf_loop (format : string) (a : list string) : string * list string :=
  match format with
  | EmptyString => (EmptyString, a)
  | String c r =>
      if Ascii.eqb c "%" then
        match r with
        | EmptyString => ("%!(NOVERB)"%string, a)
        | String v r' =>
            let '(out, a') :=
              if Ascii.eqb v "%" then ("%"%string, a)
              else
                match a with
                | x :: rest => (x, rest)
                | [] => ("%!" +:+ String v "(MISSING)", [])
                end in
            let '(more, extra) := Sprintf_loop r' a' in
            (out +:+ more, extra)
        end
      else
        let '(more, extra) := Sprintf_loop r a in
        (String c more, extra)
  end.

Definition Sprintf (format : string) (a : list string) : string :=
  match Sprintf_loop format a with
  | (out, []) => out
  | (out, extra) =>
      out +:+ "%!(EXTRA "
          +:+ strings.Join (map (fun x => "string=" +:+ x) extra) ", " +:+ ")"
  end.

End fmt.

(** * models.go *)

(** A [nil] [Topics] and an empty one are different values: [Marshal]
    writes [null] for the first and [[]] for the second. *)
Record PuzzleRequest := {
  GameType : string;
  Difficulty : string;
  Topics : option (list string);
  Language : string
}.

Record GeminiContentPart := { Text : string }.

Record GeminiContent := { Parts : json.slice GeminiContentPart }.

(** The [float64] fields hold constants only; they are carried as the
    decimal text [Marshal] prints for them. *)
Record GeminiGenerationConfig := {
  ResponseMimeType : string;
  ResponseSchema : string;
  Temperature : string;
  TopP : string;
  TopK : string
}.

Record GeminiRequest := {
  Contents : json.slice GeminiContent;
  GenerationConfig : GeminiGenerationConfig
}.

Record GeminiCandidate := { Content : GeminiContent }.

Record GeminiAPIResponse := { Candidates : json.slice GeminiCandidate }.

(** *** The [json] codecs the struct tags of models.go induce *)

Definition encode_PuzzleRequest (req : PuzzleRequest) : string :=
  json.encode_struct
    [ json.field "gameType" (json.appendString (GameType req));
      json.field "difficulty" (json.appendString (Difficulty req));
      json.field "topics" (json.encode_strings (Topics req));
      json.field "language" (json.appendString (Language req)) ].

(** [json.Marshal(req)]; no value of the type makes it fail. *)
Definition Marshal_PuzzleRequest (req : PuzzleRequest) : json.result string :=
  json.Ok (encode_PuzzleRequest req).

Definition zero_PuzzleRequest : PuzzleRequest :=
  {| GameType := EmptyString; Difficulty := EmptyString; Topics := None; Language := EmptyString |}.

(** While it is decoded a request goes with the spare capacity of its
    [Topics]. *)
Definition fields_PuzzleRequest : json.fields (PuzzleRequest * list string) :=
  [ ("gameType"%string,
     fun v '(req, sp) =>
       let '(s, e) := json.store_string v (GameType req) in
       (({| GameType := s; Difficulty := Difficulty req;
            Topics := Topics req; Language := Language req |}, sp), e));
    ("difficulty"%string,
     fun v '(req, sp) =>
       let '(s, e) := json.store_string v (Difficulty req) in
       (({| GameType := GameType req; Difficulty := s;
            Topics := Topics req; Language := Language req |}, sp), e));
    ("topics"%string,
     fun v '(req, sp) =>
       let '(sl, e) :=
         json.store_slice EmptyString json.store_string v
                          (json.Slice (Topics req) sp) in
       (({| GameType := GameType req; Difficulty := Difficulty req;
            Topics := json.elems sl; Language := Language req |},
         json.spare sl), e));
    ("language"%string,
     fun v '(req, sp) =>
       let '(s, e) := json.store_string v (Language req) in
       (({| GameType := GameType req; Difficulty := Difficulty req;
            Topics := Topics req; Language := s |}, sp), e)) ].

(** [var req PuzzleRequest; json.NewDecoder(body).Decode(&req)]. *)
Definition Decode_PuzzleRequest (body : string) : json.result PuzzleRequest :=
  match json.readValue body with
  | json.Err e => json.Err e
  | json.Ok v =>
      match json.unmarshal (json.store_struct fields_PuzzleRequest) v
                           (zero_PuzzleRequest, []) with
      | json.Ok (req, _) => json.Ok req
      | json.Err e => json.Err e
      end
  end.

Definition fields_GeminiContentPart : json.fields GeminiContentPart :=
  [ ("text"%string,
     fun v p => let '(s, e) := json.store_string v (Text p) in
                ({| Text := s |}, e)) ].

Definition fields_GeminiContent : json.fields GeminiContent :=
  [ ("parts"%string,
     fun v c =>
       let '(sl, e) :=
         json.store_slice {| Text := EmptyString |}
                          (json.store_struct fields_GeminiContentPart) v (Parts c) in
       ({| Parts := sl |}, e)) ].

Definition zero_GeminiContent : GeminiContent := {| Parts := json.nil_slice |}.

Definition fields_GeminiCandidate : json.fields GeminiCandidate :=
  [ ("content"%string,
     fun v c =>
       let '(ct, e) := json.store_struct fields_GeminiContent v (Content c) in
       ({| Content := ct |}, e)) ].

Definition fields_GeminiAPIResponse : json.fields GeminiAPIResponse :=
  [ ("candidates"%string,
     fun v r =>
       let '(sl, e) :=
         json.store_slice {| Content := zero_GeminiContent |}
                          (json.store_struct fields_GeminiCandidate) v (Candidates r) in
       ({| Candidates := sl |}, e)) ].

(** [var resp GeminiAPIResponse; json.Unmarshal(data, &resp)]. *)
Definition Unmarshal_GeminiAPIResponse (data : string) : json.result GeminiAPIResponse :=
  match json.checkValid data with
  | json.Err e => json.Err e
  | json.Ok v =>
      json.unmarshal (json.store_struct fields_GeminiAPIResponse) v
                     {| Candidates := json.nil_slice |}
  end.

Definition encode_slice {A : Type} (enc : A -> string) (s : json.slice A) : string :=
  match json.elems s with
  | None => "null"
  | Some l => "[" +:+ json.join "," (map enc l) +:+ "]"
  end.

Definition encode_GeminiContentPart (p : GeminiContentPart) : string :=
  json.encode_struct [ json.field "text" (json.appendString (Text p)) ].

Definition encode_GeminiContent (c : GeminiContent) : string :=
  json.encode_struct
    [ json.field "parts" (encode_slice encode_GeminiContentPart (Parts c)) ].

(** [json.Marshal(geminiReq)]; it fails when the [RawMessage] is not valid
    JSON. *)
Definition Marshal_GeminiRequest (r : GeminiRequest) : json.result string :=
  let g := GenerationConfig r in
  match json.appendCompact (ResponseSchema g) with
  | json.Err e => json.Err e
  | json.Ok schema =>
      json.Ok
        (json.encode_struct
           [ json.field "contents" (encode_slice encode_GeminiContent (Contents r));
             json.field "generationConfig"
               (json.encode_struct
                  [ json.field "responseMimeType" (json.appendString (ResponseMimeType g));
                    json.field "responseSchema" schema;
                    json.field "temperature" (Temperature g);
                    json.field "topP" (TopP g);
                    json.field "topK" (TopK g) ]) ])
  end.

(** * The world around the server

    The PostgreSQL table, the provider and the clock are outside the
    program.  The table is a finite map from [request_hash], its unique
    column, to the rest of the row (the serial [id], which the program never
    reads, is left out).  The columns [request_params] and [response_data]
    are [JSONB]: PostgreSQL parses the text a statement hands it and keeps
    the value, and a query gives back its own rendering of that value, not
    the bytes that were written.  A row holds the two columns as a query
    gives them back; the rendering is the environment's ([jsonb]).  Whether
    a statement fails is up to the environment: a lost connection and a
    payload the [JSONB] column refuses are both a fault of the statement. *)

Record Row := {
  request_params : string;
  response_data : string;
  created_at : Z
}.

(** The values of Go's [error] that the program makes. *)
Inductive error :=
| GetFailed (requestHash cause : string)
| SaveFailed (requestHash cause : string)
| ApiKeyUnset
| SchemaParseFailed (e : json.error)
| SchemaMarshalFailed (e : json.error)
| RequestMarshalFailed (e : json.error)
| NewRequestFailed (cause : string)
| DoFailed (cause : string)
| ReadBodyFailed (cause : string)
| StatusNotOK (StatusCode : Z) (body : string)
| EnvelopeUnmarshalFailed (e : json.error) (body : string)
| EnvelopeEmpty (body : string).

Inductive returned (A : Type) :=
| Value (a : A)
| Error (e : error).
Arguments Value {A} a.
Arguments Error {A} e.

(** The calls of [log.Printf] and [log.Println], by the place they stand at. *)
Inductive logline :=
| CacheHit (requestHash : string)
| CacheSaved (requestHash : string)
| CallingGemini (truncated : string)
| GeminiReceived
| MarshalError (e : json.error)
| CacheCheckError (requestHash : string) (err : error)
| ReturnedCached (requestHash : string)
| GenerateError (req : PuzzleRequest) (err : error)
| SaveError (requestHash : string) (err : error)
| NewResponse (requestHash : string).

(** What a run does to the world, in the order it does it.  [Query] and
    [Exec] are the two statements with their arguments, [Generate] is a call
    of [GeneratePuzzle], and [Post url body] is the call [client.Do(httpReq)]
    for the POST request built from [url] and [body]: what the client then
    sends over the network (it follows redirects) is the client's. *)
Inductive event :=
| Query (requestHash : string)
| Exec (requestHash requestParams responseData : string) (now : Z)
| Generate (req : PuzzleRequest)
| Post (url body : string)
| Log (l : logline).

(** What [client.Do] and [io.ReadAll] make of one request: the response
    that [client.Do] returns in the end. *)
Inductive round_trip :=
| DoError (cause : string)
| ReadError (cause : string)
| Answer (StatusCode : Z) (body : string).

(** The environment of one run of the handler, which makes at most one
    query, one provider call and one upsert.  [jsonb text] is the rendering
    that a query gives back of a [JSONB] column into which [text] was
    written. *)
Record Env := {
  query_fault : option string;
  exec_fault : option string;
  jsonb : string -> string;
  time_Now : Z;
  NewRequest_error : string -> option string;
  Do : string -> string -> round_trip
}.

Record World := {
  cached_puzzles : gmap string Row;
  trace : list event
}.

Definition emit (ev : event) (w : World) : World :=
  {| cached_puzzles := cached_puzzles w; trace := trace w ++ [ev] |}.

(** * database.go *)

(** [QueryRow(query, requestHash).Scan(&responseData)]: no row is
    [(nil, nil)]; a row gives its [response_data], a slice that is not
    [nil] since the column is [NOT NULL]. *)
Definition GetCachedPuzzle (env : Env) (requestHash : string) (w : World)
  : (option string * option error) * World :=
  let w1 := emit (Query requestHash) w in
  match query_fault env with
  | Some cause => ((None, Some (GetFailed requestHash cause)), w1)
  | None =>
      match cached_puzzles w !! requestHash with
      | None => ((None, None), w1)
      | Some row => ((Some (response_data row), None), emit (Log (CacheHit requestHash)) w1)
      end
  end.

(** [INSERT ... ON CONFLICT (request_hash) DO UPDATE SET ...]. *)
Definition SaveCachedPuzzle (env : Env) (requestHash requestParams responseData : string)
    (w : World) : option error * World :=
  let w1 := emit (Exec requestHash requestParams responseData (time_Now env)) w in
  match exec_fault env with
  | Some cause => (Some (SaveFailed requestHash cause), w1)
  | None =>
      (None,
       emit (Log (CacheSaved requestHash))
         {| cached_puzzles :=
              <[requestHash := {| request_params := jsonb env requestParams;
                                  response_data := jsonb env responseData;
                                  created_at := time_Now env |}]> (cached_puzzles w1);
            trace := trace w1 |})
  end.

(** * gemini_service.go *)

Definition geminiAPIURL : string :=
  "https://generativelanguage.googleapis.com/v1beta/models/gemini-2.0-flash:generateContent".

Record GeminiPuzzleService := { apiKey : string }.

Definition NewGeminiPuzzleService (apiKey : string) : GeminiPuzzleService :=
  {| apiKey := apiKey |}.

(** The raw string literals, line by line: [tabs n s] is the line [s] behind
    [n] tab characters, and the lines are joined by line feeds.  The schema
    documents are written with ['] standing for the double quote. *)
Fixpoint tabs (n : nat) (s : string) : string :=
  match n with
  | O => s
  | S n' => String tab (tabs n' s)
  end.

Definition lines (l : list string) : string := strings.Join l (String nl EmptyString).

Fixpoint double_quotes (s : string) : string :=
  match s with
  | EmptyString => EmptyString
  | String c r => String (if Ascii.eqb c "'" then dq else c) (double_quotes r)
  end.

Definition json_lines (l : list string) : string := double_quotes (lines l).

(** Both prompt templates open with the same three lines. *)
Definition opening : list string :=
  [
    tabs 0 EmptyString;
    tabs 3 "Generate a %s %s in %s.";
    tabs 3 "%s" ].

Definition crossword_instructions : list string :=
  [
    tabs 3 "Provide a grid of 8x8 to 10x10.";
    tabs 3 "Return the data as a JSON object with 'gameType' (crossword), 'difficulty', 'topics', and 'crosswordData'.";
    tabs 3 "'crosswordData' should contain 'gridSize' (rows, cols) and an array of 'words'.";
    tabs 3 "Each 'word' object should have 'word', 'clue', 'startRow', 'startCol' (0-indexed), and 'direction' ('across' or 'down').";
    tabs 3 "Ensure words fit the grid and intersect correctly without gaps. All cells in a word must be valid letters.";
    tabs 3 "Prioritize well-formed and solvable puzzles.";
    tabs 2 EmptyString ].

Definition crossword_format : string :=
  lines (opening ++ crossword_instructions).

Definition crossword_schema : string :=
  json_lines
  [
    tabs 0 "{";
    tabs 3 "'type': 'OBJECT',";
    tabs 3 "'properties': {";
    tabs 4 "'gameType': {";
    tabs 5 "'type': 'STRING',";
    tabs 5 "'enum': ['crossword']";
    tabs 4 "},";
    tabs 4 "'difficulty': {";
    tabs 5 "'type': 'STRING',";
    tabs 5 "'enum': ['easy', 'medium', 'hard']";
    tabs 4 "},";
    tabs 4 "'topics': {";
    tabs 5 "'type': 'ARRAY',";
    tabs 5 "'items': {'type': 'STRING'}";
    tabs 4 "},";
    tabs 4 "'crosswordData': {";
    tabs 5 "'type': 'OBJECT',";
    tabs 5 "'properties': {";
    tabs 6 "'gridSize': {";
    tabs 7 "'type': 'OBJECT',";
    tabs 7 "'properties': {";
    tabs 8 "'rows': {'type': 'INTEGER'},";
    tabs 8 "'cols': {'type': 'INTEGER'}";
    tabs 7 "},";
    tabs 7 "'required': ['rows', 'cols']";
    tabs 6 "},";
    tabs 6 "'words': {";
    tabs 7 "'type': 'ARRAY',";
    tabs 7 "'items': {";
    tabs 8 "'type': 'OBJECT',";
    tabs 8 "'properties': {";
    tabs 9 "'word': {'type': 'STRING'},";
    tabs 9 "'clue': {'type': 'STRING'},";
    tabs 9 "'startRow': {'type': 'INTEGER'},";
    tabs 9 "'startCol': {'type': 'INTEGER'},";
    tabs 9 "'direction': {";
    tabs 10 "'type': 'STRING',";
    tabs 10 "'enum': ['across', 'down']";
    tabs 9 "}";
    tabs 8 "},";
    tabs 8 "'required': ['word', 'clue', 'startRow', 'startCol', 'direction']";
    tabs 7 "}";
    tabs 6 "}";
    tabs 5 "},";
    tabs 5 "'required': ['gridSize', 'words']";
    tabs 4 "}";
    tabs 3 "},";
    tabs 3 "'required': ['gameType', 'difficulty', 'topics']";
    tabs 2 "}" ].

Definition wordsearch_instructions : list string :=
  [
    tabs 3 "Provide a grid size based on difficulty: Easy (10x10), Medium (12x12), Hard (15x15).";
    tabs 3 "Return the data as a JSON object with 'gameType' (wordsearch), 'difficulty', 'topics', and 'wordSearchData'.";
    tabs 3 "'wordSearchData' should contain 'gridSize' (rows, cols) and a list of 'wordsToFind'.";
    tabs 3 "**Crucially, do NOT generate the full grid of letters. ONLY provide gridSize and wordsToFind.**";
    tabs 3 "The 'wordsToFind' list should contain 10-15 unique words (depending on difficulty) that are relevant to the topics and suitable for a word search puzzle (e.g., no spaces, only letters, common vocabulary).";
    tabs 3 "Ensure these words are always in the uppercase.";
    tabs 3 "Prioritize well-formed words and a good mix for the chosen difficulty.";
    tabs 2 EmptyString ].

Definition wordsearch_format : string :=
  lines (opening ++ wordsearch_instructions).

Definition wordsearch_schema : string :=
  json_lines
  [
    tabs 0 "{";
    tabs 3 "'type': 'OBJECT',";
    tabs 3 "'properties': {";
    tabs 4 "'gameType': {";
    tabs 5 "'type': 'STRING',";
    tabs 5 "'enum': ['wordsearch']";
    tabs 4 "},";
    tabs 4 "'difficulty': {";
    tabs 5 "'type': 'STRING',";
    tabs 5 "'enum': ['easy', 'medium', 'hard']";
    tabs 4 "},";
    tabs 4 "'topics': {";
    tabs 5 "'type': 'ARRAY',";
    tabs 5 "'items': {'type': 'STRING'}";
    tabs 4 "},";
    tabs 4 "'wordSearchData': {";
    tabs 5 "'type': 'OBJECT',";
    tabs 5 "'properties': {";
    tabs 6 "'gridSize': {";
    tabs 7 "'type': 'OBJECT',";
    tabs 7 "'properties': {";
    tabs 8 "'rows': {'type': 'INTEGER'},";
    tabs 8 "'cols': {'type': 'INTEGER'}";
    tabs 7 "},";
    tabs 7 "'required': ['rows', 'cols']";
    tabs 6 "},";
    tabs 6 "'wordsToFind': {";
    tabs 7 "'type': 'ARRAY',";
    tabs 7 "'items': {'type': 'STRING'}";
    tabs 6 "}";
    tabs 5 "},";
    tabs 5 "'required': ['gridSize', 'wordsToFind']";
    tabs 4 "}";
    tabs 3 "},";
    tabs 3 "'required': ['gameType', 'difficulty', 'topics']";
    tabs 2 "}" ].

Section Program.

(** The lower-case mapping of the Unicode tables, which [strings.ToLower]
    consults for runes outside ASCII. *)
Variable To_LowerCase : Z -> Z.

Definition gameTypeString (req : PuzzleRequest) : string :=
  if String.eqb (GameType req) "crossword" then "crossword puzzle"
  else "word search puzzle".

Definition difficultyString (req : PuzzleRequest) : string :=
  strings.ToLower To_LowerCase (Difficulty req).

(** [len(req.Topics) > 0] is false for the nil slice and the empty one. *)
Definition topicsString (req : PuzzleRequest) : string :=
  match Topics req with
  | Some (t :: ts) => fmt.Sprintf "about %s" [strings.Join (t :: ts) ", "]
  | _ => "general knowledge"
  end.

Definition prompt (req : PuzzleRequest) : string :=
  fmt.Sprintf
    (if String.eqb (GameType req) "crossword" then crossword_format
     else wordsearch_format)
    [difficultyString req; gameTypeString req; Language req; topicsString req].

Definition schemaBytes (req : PuzzleRequest) : string :=
  if String.eqb (GameType req) "crossword" then crossword_schema
  else wordsearch_schema.

Definition geminiReq (req : PuzzleRequest) (responseSchema : string) : GeminiRequest :=
  {| Contents :=
       json.Slice (Some [ {| Parts := json.Slice (Some [ {| Text := prompt req |} ]) [] |} ]) [];
     GenerationConfig :=
       {| ResponseMimeType := "application/json";
          ResponseSchema := responseSchema;
          Temperature := "0.7";
          TopP := "0.9";
          TopK := "40" |} |}.

(** The text of the first part of the first candidate, when there is one:
    [len(Candidates) == 0 || len(Candidates[0].Content.Parts) == 0] holds
    for [None]. *)
Definition first_text (resp : GeminiAPIResponse) : option string :=
  match json.in_view (Candidates resp) with
  | [] => None
  | c :: _ =>
      match json.in_view (Parts (Content c)) with
      | [] => None
      | p :: _ => Some (Text p)
      end
  end.

Definition GeneratePuzzle (s : GeminiPuzzleService) (env : Env)
    (req : PuzzleRequest) (w : World) : returned string * World :=
  let w0 := emit (Generate req) w in
  if String.eqb (apiKey s) EmptyString || String.eqb (apiKey s) "YOUR_GEMINI_API_KEY_HERE"
  then (Error ApiKeyUnset, w0)
  else
    match json.Unmarshal_map (schemaBytes req) with
    | json.Err e => (Error (SchemaParseFailed e), w0)
    | json.Ok parsedSchema =>
      match json.Marshal_map parsedSchema with
      | json.Err e => (Error (SchemaMarshalFailed e), w0)
      | json.Ok responseSchema =>
        match Marshal_GeminiRequest (geminiReq req responseSchema) with
        | json.Err e => (Error (RequestMarshalFailed e), w0)
        | json.Ok jsonReqBody =>
            let p := prompt req in
            let w1 :=
              emit (Log (CallingGemini (slice_to (Nat.min (String.length p) 100) p))) w0 in
            let url := fmt.Sprintf "%s?key=%s" [geminiAPIURL; apiKey s] in
            match NewRequest_error env url with
            | Some cause => (Error (NewRequestFailed cause), w1)
            | None =>
                let w2 := emit (Post url jsonReqBody) w1 in
                match Do env url jsonReqBody with
                | DoError cause => (Error (DoFailed cause), w2)
                | ReadError cause => (Error (ReadBodyFailed cause), w2)
                | Answer StatusCode bodyBytes =>
                    if negb (StatusCode =? 200)%Z
                    then (Error (StatusNotOK StatusCode bodyBytes), w2)
                    else
                      match Unmarshal_GeminiAPIResponse bodyBytes with
                      | json.Err e => (Error (EnvelopeUnmarshalFailed e bodyBytes), w2)
                      | json.Ok geminiAPIResp =>
                          match first_text geminiAPIResp with
                          | None => (Error (EnvelopeEmpty bodyBytes), w2)
                          | Some jsonString =>
                              (Value jsonString, emit (Log GeminiReceived) w2)
                          end
                      end
                end
            end
        end
      end
    end.

(** * main.go *)

Record Server := { geminiPuzzleService : GeminiPuzzleService }.

Record Request := { Method : string; Body : string }.

Definition MethodPost : string := "POST".

(** The texts the handler passes to [http.Error]. *)
Inductive message :=
| OnlyPostAllowed
| InvalidPayload (err : json.error)
| InternalError
| GenerateFailed (err : error).

(** What the handler does to its [ResponseWriter]: it sets the content type
    and writes a body, or it calls [http.Error]. *)
Inductive Response :=
| Written (ContentType : string) (body : string)
| HttpError (msg : message) (code : Z).

Definition StatusOK : Z := 200.
Definition StatusBadRequest : Z := 400.
Definition StatusMethodNotAllowed : Z := 405.
Definition StatusInternalServerError : Z := 500.

Definition status (r : Response) : Z :=
  match r with
  | Written _ _ => StatusOK
  | HttpError _ code => code
  end.

Definition generatePuzzleHandler (s : Server) (env : Env) (r : Request) (w : World)
  : Response * World :=
  if negb (String.eqb (Method r) MethodPost)
  then (HttpError OnlyPostAllowed StatusMethodNotAllowed, w)
  else
    match Decode_PuzzleRequest (Body r) with
    | json.Err err => (HttpError (InvalidPayload err) StatusBadRequest, w)
    | json.Ok req =>
        match Marshal_PuzzleRequest req with
        | json.Err err =>
            (HttpError InternalError StatusInternalServerError,
             emit (Log (MarshalError err)) w)
        | json.Ok reqBytes =>
            let requestHash := hex.EncodeToString (sha256.Sum reqBytes) in
            let '((cachedResponse, err), w1) := GetCachedPuzzle env requestHash w in
            let w2 :=
              match err with
              | Some e => emit (Log (CacheCheckError requestHash e)) w1
              | None => w1
              end in
            match cachedResponse with
            | Some data =>
                (Written "application/json" data,
                 emit (Log (ReturnedCached requestHash)) w2)
            | None =>
                match GeneratePuzzle (geminiPuzzleService s) env req w2 with
                | (Error e, w3) =>
                    (HttpError (GenerateFailed e) StatusInternalServerError,
                     emit (Log (GenerateError req e)) w3)
                | (Value geminiResponse, w3) =>
                    let '(err', w4) :=
                      SaveCachedPuzzle env requestHash reqBytes geminiResponse w3 in
                    let w5 :=
                      match err' with
                      | Some e => emit (Log (SaveError requestHash e)) w4
                      | None => w4
                      end in
                    (Written "application/json" geminiResponse,
                     emit (Log (NewResponse requestHash)) w5)
                end
            end
        end
    end.

End Program.

(** * The vocabulary of the specification

    The statements below are phrased with these definitions, which follow
    the words of the specification and are related to the code by the
    theorems. *)

(** The lower-case hexadecimal rendering of a byte sequence: two digits per
    byte, the high one first, the digits being [0]-[9] and [a]-[f]. *)
Definition hex_digit (n : Z) : ascii :=
  if (n <? 10)%Z then chr (48 + n) else chr (97 + (n - 10)).

Fixpoint lowercase_hex (bytes : string) : string :=
  match bytes with
  | EmptyString => EmptyString
  | String b r =>
      String (hex_digit (code b / 16))
        (String (hex_digit (code b mod 16)) (lowercase_hex r))
  end.

Definition is_lowercase_hex_digit (c : ascii) : bool :=
  ((48 <=? code c) && (code c <=? 57))%Z || ((97 <=? code c) && (code c <=? 102))%Z.

Fixpoint every (p : ascii -> bool) (s : string) : bool :=
  match s with
  | EmptyString => true
  | String c r => p c && every p r
  end.

(** The value of a hexadecimal digit, and the bytes a rendering stands for. *)
Definition hex_digit_value (c : ascii) : Z :=
  if (code c <=? 57)%Z then code c - 48 else code c - 97 + 10.

Fixpoint bytes_of_hex (s : string) : string :=
  match s with
  | String hi (String lo r) =>
      String (chr (hex_digit_value hi * 16 + hex_digit_value lo)) (bytes_of_hex r)
  | _ => EmptyString
  end.

(** The Fingerprint Deriver: the request in its canonical serialization,
    hashed with SHA-256, rendered in lower-case hexadecimal. *)
Definition fingerprint (req : PuzzleRequest) : string :=
  lowercase_hex (sha256.Sum (encode_PuzzleRequest req)).

(** The events by which the generation client shows: a call of
    [GeneratePuzzle] and a request sent to the provider. *)
Definition is_generation (ev : event) : bool :=
  match ev with
  | Generate _ | Post _ _ => true
  | _ => false
  end.

(** An upper-case letter of ASCII. *)
Definition is_upper (c : ascii) : bool := ((65 <=? code c) && (code c <=? 90))%Z.

(** The topics clause of a prompt. *)
Fixpoint comma_joined (topics : list string) : string :=
  match topics with
  | [] => EmptyString
  | [t] => t
  | t :: ts => t +:+ ", " +:+ comma_joined ts
  end.

Definition topics_clause (topics : option (list string)) : string :=
  match topics with
  | Some (t :: ts) => "about " +:+ comma_joined (t :: ts)
  | _ => "general knowledge"
  end.

(** The body of a provider request that carries the prompt [text] and the
    schema [schema]: an object with the members [contents], a list of one
    content of one part, and [generationConfig]
    (see [provider_request_body_flat]). *)
Definition provider_request_body (text schema : string) : string :=
  json.encode_struct
    [ json.field "contents"
        ("[" +:+ json.encode_struct
                   [ json.field "parts"
                       ("[" +:+ json.encode_struct
                                  [ json.field "text" (json.appendString text) ]
                            +:+ "]") ]
             +:+ "]");
      json.field "generationConfig"
        (json.encode_struct
           [ json.field "responseMimeType" (json.appendString "application/json");
             json.field "responseSchema" schema;
             json.field "temperature" "0.7";
             json.field "topP" "0.9";
             json.field "topK" "40" ]) ].

Definition provider_url (svc : GeminiPuzzleService) : string :=
  geminiAPIURL +:+ "?key=" +:+ apiKey svc.

(** The scenario of the specification. *)
Definition scenario_request : PuzzleRequest :=
  {| GameType := "crossword"; Difficulty := "easy";
     Topics := Some ["animals"; "nature"]; Language := "pt" |}.

Definition scenario_canonical : string :=
  double_quotes
    "{'gameType':'crossword','difficulty':'easy','topics':['animals','nature'],'language':'pt'}".

(** The body of the [curl] call in README.md, which spells the scenario
    request over six indented lines. *)
Definition readme_body : string :=
  json_lines
    [ "{";
      "           'gameType': 'crossword',";
      "           'difficulty': 'easy',";
      "           'topics': ['animals', 'nature'],";
      "           'language': 'pt'";
      "         }" ].

(** What [Marshal] makes of the two schema documents once they are decoded
    into a map: the keys in order, no white space (['] for the double
    quote). *)
Definition crossword_schema_compact : string :=
  double_quotes
    ("{'properties':{'crosswordData':{'properties':{'gridSize':{'propertie" +:+
     "s':{'cols':{'type':'INTEGER'},'rows':{'type':'INTEGER'}},'required':" +:+
     "['rows','cols'],'type':'OBJECT'},'words':{'items':{'properties':{'cl" +:+
     "ue':{'type':'STRING'},'direction':{'enum':['across','down'],'type':'" +:+
     "STRING'},'startCol':{'type':'INTEGER'},'startRow':{'type':'INTEGER'}" +:+
     ",'word':{'type':'STRING'}},'required':['word','clue','startRow','sta" +:+
     "rtCol','direction'],'type':'OBJECT'},'type':'ARRAY'}},'required':['g" +:+
     "ridSize','words'],'type':'OBJECT'},'difficulty':{'enum':['easy','med" +:+
     "ium','hard'],'type':'STRING'},'gameType':{'enum':['crossword'],'type" +:+
     "':'STRING'},'topics':{'items':{'type':'STRING'},'type':'ARRAY'}},'re" +:+
     "quired':['gameType','difficulty','topics'],'type':'OBJECT'}").

Definition wordsearch_schema_compact : string :=
  double_quotes
    ("{'properties':{'difficulty':{'enum':['easy','medium','hard'],'type':" +:+
     "'STRING'},'gameType':{'enum':['wordsearch'],'type':'STRING'},'topics" +:+
     "':{'items':{'type':'STRING'},'type':'ARRAY'},'wordSearchData':{'prop" +:+
     "erties':{'gridSize':{'properties':{'cols':{'type':'INTEGER'},'rows':" +:+
     "{'type':'INTEGER'}},'required':['rows','cols'],'type':'OBJECT'},'wor" +:+
     "dsToFind':{'items':{'type':'STRING'},'type':'ARRAY'}},'required':['g" +:+
     "ridSize','wordsToFind'],'type':'OBJECT'}},'required':['gameType','di" +:+
     "fficulty','topics'],'type':'OBJECT'}").

(** ** Worlds and runs

    Definitions by which the lemmas on the handler describe a run: the world
    after some events, the events of a call, and the run that follows a
    lookup without a payload. *)

(** A world in which nothing is cached and nothing has happened yet. *)
Definition blank : World := {| cached_puzzles := ∅; trace := [] |}.

(** The world [w] after the events [added], the table being as it was. *)
Definition after (w : World) (added : list event) : World :=
  {| cached_puzzles := cached_puzzles w; trace := trace w ++ added |}.

(** The world [w] with the row of [requestHash], if any, taken away. *)
Definition forget (requestHash : string) (w : World) : World :=
  {| cached_puzzles := delete requestHash (cached_puzzles w); trace := trace w |}.

(** The environment [env] with a store that answers the query, and with a
    store that takes the upsert. *)
Definition no_query_fault (env : Env) : Env :=
  {| query_fault := None; exec_fault := exec_fault env; jsonb := jsonb env;
     time_Now := time_Now env;
     NewRequest_error := NewRequest_error env; Do := Do env |}.

Definition no_exec_fault (env : Env) : Env :=
  {| query_fault := query_fault env; exec_fault := None; jsonb := jsonb env;
     time_Now := time_Now env;
     NewRequest_error := NewRequest_error env; Do := Do env |}.

(** The events that touch the store. *)
Definition is_store (ev : event) : bool :=
  match ev with
  | Query _ | Exec _ _ _ _ => true
  | _ => false
  end.

(** What the generation client returns for a request, whatever the world. *)
Definition generated (To_LowerCase : Z -> Z) (svc : GeminiPuzzleService)
    (env : Env) (req : PuzzleRequest) : returned string :=
  fst (GeneratePuzzle To_LowerCase svc env req blank).

(** The events of a call of [GeneratePuzzle]. *)
Definition generation_events (To_LowerCase : Z -> Z) (svc : GeminiPuzzleService)
    (env : Env) (req : PuzzleRequest) : list event :=
  trace (snd (GeneratePuzzle To_LowerCase svc env req blank)).

(** What the lookup leaves in the trace when it gives no payload: the query
    and, after a fault, the log line of the handler. *)
Definition lookup_events (env : Env) (req : PuzzleRequest) : list event :=
  match query_fault env with
  | Some cause =>
      [ Query (fingerprint req);
        Log (CacheCheckError (fingerprint req) (GetFailed (fingerprint req) cause)) ]
  | None => [ Query (fingerprint req) ]
  end.

(** The run after a lookup that gave no payload. *)
Definition regenerate (To_LowerCase : Z -> Z) (s : Server) (env : Env)
    (req : PuzzleRequest) (w : World) : Response * World :=
  let h := fingerprint req in
  let before :=
    lookup_events env req
    ++ generation_events To_LowerCase (geminiPuzzleService s) env req in
  match generated To_LowerCase (geminiPuzzleService s) env req with
  | Error e =>
      (HttpError (GenerateFailed e) StatusInternalServerError,
       after w (before ++ [Log (GenerateError req e)]))
  | Value p =>
      let exec := Exec h (encode_PuzzleRequest req) p (time_Now env) in
      match exec_fault env with
      | Some cause =>
          (Written "application/json" p,
           after w (before ++ [exec; Log (SaveError h (SaveFailed h cause));
                               Log (NewResponse h)]))
      | None =>
          (Written "application/json" p,
           {| cached_puzzles :=
                <[h := {| request_params := jsonb env (encode_PuzzleRequest req);
                          response_data := jsonb env p;
                          created_at := time_Now env |}]> (cached_puzzles w);
              trace := trace w ++ before
                         ++ [exec; Log (CacheSaved h); Log (NewResponse h)] |})
      end
  end.

(** A reader of the parser that was given enough fuel: it did not stop for
    lack of fuel, and it left less than it got. *)
Definition served {A : Type} (s : string) (r : json.result (A * string)) : Prop :=
  match r with
  | json.Ok (_, rest) => String.length rest < String.length s
  | json.Err e => e <> json.OutOfFuel
  end.

(** ** Sample surroundings

    A server with a key, a provider that answers every request with one
    candidate, a store that may fault, and request bodies that spell the
    scenario request in other ways. *)

Definition sample_server : Server :=
  {| geminiPuzzleService := NewGeminiPuzzleService "sample-key" |}.

Definition sample_text : string := double_quotes "{'gameType':'crossword'}".

Definition sample_answer : round_trip :=
  Answer 200
    (double_quotes
       "{'candidates':[{'content':{'parts':[{'text':'{\'gameType\':\'crossword\'}'}],'role':'model'}}]}").

(** A rendering that, like PostgreSQL's, puts a blank after every colon and
    comma outside the string literals of a document.  (PostgreSQL's also
    puts the keys of an object in its own order; this one leaves them.) *)
Fixpoint respaced_loop (inside escaped : bool) (s : string) : string :=
  match s with
  | EmptyString => EmptyString
  | String c r =>
      if inside then
        String c (respaced_loop (escaped || negb (Ascii.eqb c dq))
                                (negb escaped && Ascii.eqb c "\") r)
      else if Ascii.eqb c ":" || Ascii.eqb c "," then
        String c (String " " (respaced_loop false false r))
      else String c (respaced_loop (Ascii.eqb c dq) false r)
  end.

Definition respaced (s : string) : string := respaced_loop false false s.

Definition sample_env (query_fault exec_fault : option string) : Env :=
  {| query_fault := query_fault;
     exec_fault := exec_fault;
     jsonb := respaced;
     time_Now := 1700000000;
     NewRequest_error := fun _ => None;
     Do := fun _ _ => sample_answer |}.

(** A table that holds the scenario request's row. *)
Definition sample_row : Row :=
  {| request_params := scenario_canonical;
     response_data := sample_text;
     created_at := 1600000000 |}.

Definition sample_cached : World :=
  {| cached_puzzles := {[ fingerprint scenario_request := sample_row ]}; trace := [] |}.

(** The scenario request with its members in another order, in other
    letter case, with white space and with a member the struct has not. *)
Definition reordered_body : string :=
  double_quotes
    "{ 'language' : 'pt', 'topics' : ['animals','nature'], 'extra' : {'n': [1, 2.5e3, true]}, 'Difficulty' : 'easy', 'GAMETYPE' : 'crossword' }".

(** The run of the handler on the body of README.md, from a world in which
    nothing is cached. *)
Definition readme_run : Response * World :=
  generatePuzzleHandler (fun r => r) sample_server (sample_env None None)
    {| Method := MethodPost; Body := readme_body |} blank.

(** A table without case ranges: [unicode.To] leaves every rune as it is. *)
Definition no_case_ranges : Z -> Z := fun r => r.

(** A request for a game type that is neither [crossword] nor [wordsearch]. *)
Definition sudoku_request : PuzzleRequest :=
  {| GameType := EmptyString; Difficulty := "Hard"; Topics := None; Language := "en" |}.

(** * The rest of the program

    The parts of the sources that the statements above do not need: how
    [main] brings the server up, [NewDBService] and [Close], the helper
    [min], and words for what a run of the handler does to the store and
    the provider. *)

(** ** gemini_service.go: [min] *)

Definition min (a b : nat) : nat := if (a <? b)%nat then a else b.

(** [responseSchema], the schema document once [GeneratePuzzle] has decoded
    it into a map and marshalled the map. *)
Definition responseSchema (req : PuzzleRequest) : string :=
  if String.eqb (GameType req) "crossword" then crossword_schema_compact
  else wordsearch_schema_compact.

(** The key with which [GeneratePuzzle] refuses to call the provider. *)
Definition unusable_key (key : string) : bool :=
  String.eqb key EmptyString || String.eqb key "YOUR_GEMINI_API_KEY_HERE".

(** ** database.go: [NewDBService] and [Close]; main.go: [main]

    What [main] meets outside the program: the environment variables as they
    are once [godotenv.Load] has run, the driver, and the listener.
    [http.ListenAndServe] serves until it fails, and returns the error. *)

Record Host := {
  dotenv_error : option string;
  Getenv : string -> string;
  sql_Open : string -> option string;
  db_Ping : string -> option string;
  ListenAndServe : string -> string
}.

(** A pool is known by the connection string it was opened with. *)
Record DBService := { db : string }.

Inductive db_error :=
| OpenFailed (cause : string)
| PingFailed (cause : string).

Inductive fatal :=
| DatabaseUrlUnset
| GeminiKeyUnset
| DBServiceFailed (err : db_error)
| ServeFailed (err : string).

Inductive startup_line :=
| NoDotenvFile
| Connected
| Closing
| Starting (port : string).

(** What bringing the server up does, in the order it does it.  [Fatal] is a
    call of [log.Fatal] or [log.Fatalf]. *)
Inductive startup_event :=
| Open (connStr : string)
| Ping (connStr : string)
| CloseDB (connStr : string)
| HandleFunc (pattern : string) (server : Server)
| Listen (addr : string)
| Println (l : startup_line)
| Fatal (f : fatal).

Definition NewDBService (host : Host) (connStr : string) (t : list startup_event)
  : (DBService + db_error) * list startup_event :=
  let t1 := t ++ [Open connStr] in
  match sql_Open host connStr with
  | Some cause => (inr (OpenFailed cause), t1)
  | None =>
      let t2 := t1 ++ [Ping connStr] in
      match db_Ping host connStr with
      | Some cause => (inr (PingFailed cause), t2)
      | None => (inl {| db := connStr |}, t2 ++ [Println Connected])
      end
  end.

Definition Close (s : DBService) (t : list startup_event) : list startup_event :=
  t ++ [Println Closing; CloseDB (db s)].

(** How a function ends: it returns, or the process exits under it. *)
Inductive ending := Returned | Exited (code : Z).

(** [log.Fatal]: the line is printed and [os.Exit(1)] is called. *)
Definition log_Fatal (f : fatal) (t : list startup_event)
  : ending * list startup_event :=
  (Exited 1, t ++ [Fatal f]).

(** [defer call] before [body]: the call runs when the function returns;
    [os.Exit] runs no deferred call. *)
Definition defer (call : list startup_event -> list startup_event)
    (body : ending * list startup_event) : ending * list startup_event :=
  match body with
  | (Returned, t) => (Returned, call t)
  | (Exited c, t) => (Exited c, t)
  end.

Definition main (host : Host) : ending * list startup_event :=
  let t0 :=
    match dotenv_error host with
    | Some _ => [Println NoDotenvFile]
    | None => []
    end in
  let dbConnStr := Getenv host "DATABASE_URL" in
  if String.eqb dbConnStr EmptyString then log_Fatal DatabaseUrlUnset t0
  else
    let geminiAPIKey := Getenv host "GEMINI_API_KEY" in
    if String.eqb geminiAPIKey EmptyString then log_Fatal GeminiKeyUnset t0
    else
      match NewDBService host dbConnStr t0 with
      | (inr err, t1) => log_Fatal (DBServiceFailed err) t1
      | (inl dbService, t1) =>
          defer (Close dbService)
            (let geminiPuzzleService := NewGeminiPuzzleService geminiAPIKey in
             let server := {| geminiPuzzleService := geminiPuzzleService |} in
             let t2 := t1 ++ [HandleFunc "/generate-puzzle" server] in
             let port := Getenv host "PORT" in
             let port := if String.eqb port EmptyString then "8080"%string else port in
             let t3 := t2 ++ [Println (Starting port)] in
             let addr := ":" +:+ port in
             log_Fatal (ServeFailed (ListenAndServe host addr)) (t3 ++ [Listen addr]))
      end.

(** ** Words for runs *)

(** The kinds of events: a lookup, an upsert, and a call of [client.Do]. *)
Definition is_query (ev : event) : bool :=
  match ev with
  | Query _ => true
  | _ => false
  end.

Definition is_exec (ev : event) : bool :=
  match ev with
  | Exec _ _ _ _ => true
  | _ => false
  end.

Definition is_post (ev : event) : bool :=
  match ev with
  | Post _ _ => true
  | _ => false
  end.

(** How many of the events [l] are of the kind [p]. *)
Definition count (p : event -> bool) (l : list event) : nat :=
  List.length (List.filter p l).

(** The events a run of the handler adds to the trace. *)
Definition events_of (w w' : World) : list event :=
  skipn (List.length (trace w)) (trace w').

(** The lookup of a run finds a payload: the store answers and holds a row
    for the request. *)
Definition hit (env : Env) (w : World) (req : PuzzleRequest) : Prop :=
  query_fault env = None /\ exists row, cached_puzzles w !! fingerprint req = Some row.

(** The world after a sequence of runs of the handler, each with its own
    server, environment and request. *)
Fixpoint handle_all (To_LowerCase : Z -> Z) (calls : list (Server * Env * Request))
    (w : World) : World :=
  match calls with
  | [] => w
  | (s, env, r) :: rest =>
      handle_all To_LowerCase rest (snd (generatePuzzleHandler To_LowerCase s env r w))
  end.

(** A host on which everything is set and works, and one without a key. *)
Definition sample_host (key port : string) : Host :=
  {| dotenv_error := Some "open .env: no such file or directory";
     Getenv := fun name =>
       if String.eqb name "DATABASE_URL" then "postgres://localhost/puzzles"
       else if String.eqb name "GEMINI_API_KEY" then key
       else if String.eqb name "PORT" then port
       else EmptyString;
     sql_Open := fun _ => None;
     db_Ping := fun _ => None;
     ListenAndServe := fun _ => "http: Server closed" |}.

(** The log line and the request of a call of [GeneratePuzzle]. *)
Definition calling_line (To_LowerCase : Z -> Z) (req : PuzzleRequest) : event :=
  let p := prompt To_LowerCase req in
  Log (CallingGemini (slice_to (Nat.min (String.length p) 100) p)).

Definition provider_post (To_LowerCase : Z -> Z) (svc : GeminiPuzzleService)
    (req : PuzzleRequest) : event :=
  Post (provider_url svc)
       (provider_request_body (prompt To_LowerCase req) (responseSchema req)).

(** What [GeneratePuzzle] makes of the provider's answer. *)
Definition read_answer (a : round_trip) : returned string :=
  match a with
  | DoError cause => Error (DoFailed cause)
  | ReadError cause => Error (ReadBodyFailed cause)
  | Answer StatusCode bodyBytes =>
      if negb (StatusCode =? 200)%Z then Error (StatusNotOK StatusCode bodyBytes)
      else
        match Unmarshal_GeminiAPIResponse bodyBytes with
        | json.Err e => Error (EnvelopeUnmarshalFailed e bodyBytes)
        | json.Ok resp =>
            match first_text resp with
            | None => Error (EnvelopeEmpty bodyBytes)
            | Some t => Value t
            end
        end
  end.

(** The answer of the provider to the request of a call. *)
Definition answer_to (To_LowerCase : Z -> Z) (svc : GeminiPuzzleService)
    (env : Env) (req : PuzzleRequest) : round_trip :=
  Do env (provider_url svc)
     (provider_request_body (prompt To_LowerCase req) (responseSchema req)).

(** ** Words for documents

    [Marshal] and the parser are related through the values of
    [json.value]: [json.encode_interface] writes one, the parser reads it
    back.  What comes back of a string is the string coerced to well-formed
    UTF-8, which for a string that [utf8.ValidString] accepts is the
    string. *)

(** What the decoder makes of the literal [Marshal] writes for a string. *)
Definition coerce_string (s : string) : string :=
  json.unquote (json.appendString_loop json.Fresh s).

Fixpoint coerce (v : json.value) : json.value :=
  match v with
  | json.Str s => json.Str (coerce_string s)
  | json.Array l =>
      json.Array ((fix each (l : list json.value) : list json.value :=
                     match l with
                     | [] => []
                     | x :: r => coerce x :: each r
                     end) l)
  | json.Object m =>
      json.Object ((fix each (m : list (string * json.value))
                      : list (string * json.value) :=
                      match m with
                      | [] => []
                      | (k, x) :: r => (coerce_string k, coerce x) :: each r
                      end) m)
  | _ => v
  end.

(** The fuel that reading a value back takes, and how deep it nests. *)
Fixpoint weight (v : json.value) : nat :=
  match v with
  | json.Array l =>
      S ((fix each (l : list json.value) : nat :=
            match l with
            | [] => 0
            | x :: r => S (weight x + each r)
            end) l)
  | json.Object m =>
      S ((fix each (m : list (string * json.value)) : nat :=
            match m with
            | [] => 0
            | (_, x) :: r => S (weight x + each r)
            end) m)
  | _ => 1
  end.

Fixpoint height (v : json.value) : Z :=
  match v with
  | json.Array l =>
      1 + (fix each (l : list json.value) : Z :=
             match l with
             | [] => 0
             | x :: r => Z.max (height x) (each r)
             end) l
  | json.Object m =>
      1 + (fix each (m : list (string * json.value)) : Z :=
             match m with
             | [] => 0
             | (_, x) :: r => Z.max (height x) (each r)
             end) m
  | _ => 0
  end%Z.

(** Input that ends a number: a comma or a closing bracket or brace. *)
Definition delimited (rest : string) : Prop :=
  match rest with
  | String c _ => c = ","%char \/ c = "]"%char \/ c = "}"%char
  | EmptyString => False
  end.

(** A literal that the scanner reads as the number it spells: it begins
    with a minus sign or a digit, and before a delimiter the scanner reads
    all of it and no more. *)
Definition number_ok (lit : string) : Prop :=
  (exists c t, lit = String c t /\ (Ascii.eqb c "-" || json.isDigit c) = true)
  /\ forall rest, delimited rest -> json.scan_number (lit +:+ rest) = Some (lit, rest).

(** The numbers of a value are literals of that kind. *)
Fixpoint numbers_ok (v : json.value) : Prop :=
  match v with
  | json.Number lit => number_ok lit
  | json.Array l =>
      (fix each (l : list json.value) : Prop :=
         match l with
         | [] => True
         | x :: r => numbers_ok x /\ each r
         end) l
  | json.Object m =>
      (fix each (m : list (string * json.value)) : Prop :=
         match m with
         | [] => True
         | (_, x) :: r => numbers_ok x /\ each r
         end) m
  | _ => True
  end.

(** The same functions on the elements of an array and on the members of
    an object. *)
Fixpoint coerce_list (l : list json.value) : list json.value :=
  match l with
  | [] => []
  | x :: r => coerce x :: coerce_list r
  end.

Fixpoint coerce_members (m : list (string * json.value)) : list (string * json.value) :=
  match m with
  | [] => []
  | (k, x) :: r => (coerce_string k, coerce x) :: coerce_members r
  end.

Fixpoint weight_list (l : list json.value) : nat :=
  match l with
  | [] => 0
  | x :: r => S (weight x + weight_list r)
  end.

Fixpoint weight_members (m : list (string * json.value)) : nat :=
  match m with
  | [] => 0
  | (_, x) :: r => S (weight x + weight_members r)
  end.

Fixpoint height_list (l : list json.value) : Z :=
  match l with
  | [] => 0
  | x :: r => Z.max (height x) (height_list r)
  end.

Fixpoint height_members (m : list (string * json.value)) : Z :=
  match m with
  | [] => 0
  | (_, x) :: r => Z.max (height x) (height_members r)
  end.

Fixpoint numbers_ok_list (l : list json.value) : Prop :=
  match l with
  | [] => True
  | x :: r => numbers_ok x /\ numbers_ok_list r
  end.

Fixpoint numbers_ok_members (m : list (string * json.value)) : Prop :=
  match m with
  | [] => True
  | (_, x) :: r => numbers_ok x /\ numbers_ok_members r
  end.

Fixpoint encode_list (l : list json.value) : list string :=
  match l with
  | [] => []
  | x :: r => json.encode_interface x :: encode_list r
  end.

Fixpoint encode_members (m : list (string * json.value)) : list string :=
  match m with
  | [] => []
  | (k, x) :: r =>
      (json.appendString k +:+ ":" +:+ json.encode_interface x) :: encode_members r
  end.

(** What may follow the text of a value. *)
Definition follows (v : json.value) (rest : string) : Prop :=
  match v with
  | json.Number _ => delimited rest
  | _ => True
  end.

(** [utf8.ValidString]: every byte is ASCII or belongs to a well-formed
    sequence.  [n] bounds the iterations. *)
Fixpoint ValidString_loop (n : nat) (s : string) : bool :=
  match n with
  | O => true
  | S n' =>
      match s with
      | EmptyString => true
      | String c r =>
          if (code c <? utf8.RuneSelf)%Z then ValidString_loop n' r
          else
            match utf8.first (code c) with
            | None => false
            | Some (size, lo, hi) =>
                if (String.length s <? size)%nat then false
                else
                  match r with
                  | String c1 r1 =>
                      if ((code c1 <? lo) || (hi <? code c1))%Z then false
                      else if (size =? 2)%nat then ValidString_loop n' r1
                      else
                        match r1 with
                        | String c2 r2 =>
                            if negb (utf8.cont (code c2)) then false
                            else if (size =? 3)%nat then ValidString_loop n' r2
                            else
                              match r2 with
                              | String c3 r3 =>
                                  if negb (utf8.cont (code c3)) then false
                                  else ValidString_loop n' r3
                              | EmptyString => false
                              end
                        | EmptyString => false
                        end
                  | EmptyString => false
                  end
            end
      end
  end.

Definition ValidString (s : string) : bool := ValidString_loop (String.length s) s.

(** A request all of whose texts are well-formed UTF-8. *)
Definition valid_request (req : PuzzleRequest) : Prop :=
  ValidString (GameType req) = true
  /\ ValidString (Difficulty req) = true
  /\ ValidString (Language req) = true
  /\ match Topics req with
     | Some l => Forall (fun t => ValidString t = true) l
     | None => True
     end.

(** The value [Marshal] writes for a request. *)
Definition request_value (req : PuzzleRequest) : json.value :=
  json.Object
    [ ("gameType"%string, json.Str (GameType req));
      ("difficulty"%string, json.Str (Difficulty req));
      ("topics"%string,
       match Topics req with
       | None => json.Null
       | Some l => json.Array (map json.Str l)
       end);
      ("language"%string, json.Str (Language req)) ].

(** The request that comes back when the canonical serialization of [req]
    is decoded. *)
Definition coerce_request (req : PuzzleRequest) : PuzzleRequest :=
  {| GameType := coerce_string (GameType req);
     Difficulty := coerce_string (Difficulty req);
     Topics := option_map (map coerce_string) (Topics req);
     Language := coerce_string (Language req) |}.

(** Well-formed sequences of two, three and four bytes (the Unicode
    Standard, table 3-7), as [utf8.first] and [utf8.DecodeRune] test them. *)
Definition two_bytes (c0 c1 : ascii) : Prop :=
  (0xC2 <= code c0 <= 0xDF /\ 0x80 <= code c1 <= 0xBF)%Z.

Definition three_bytes (c0 c1 c2 : ascii) : Prop :=
  (0xE0 <= code c0 <= 0xEF
   /\ 0x80 <= code c1 <= 0xBF
   /\ (code c0 = 0xE0 -> 0xA0 <= code c1)
   /\ (code c0 = 0xED -> code c1 <= 0x9F)
   /\ 0x80 <= code c2 <= 0xBF)%Z.

Definition four_bytes (c0 c1 c2 c3 : ascii) : Prop :=
  (0xF0 <= code c0 <= 0xF4
   /\ 0x80 <= code c1 <= 0xBF
   /\ (code c0 = 0xF0 -> 0x90 <= code c1)
   /\ (code c0 = 0xF4 -> code c1 <= 0x8F)
   /\ 0x80 <= code c2 <= 0xBF
   /\ 0x80 <= code c3 <= 0xBF)%Z.

(** A prefix the scanner steps over inside a string literal. *)
Definition stepped_over (e : string) : Prop :=
  forall tail,
    json.scan_string json.InString (e +:+ tail)
    = match json.scan_string json.InString tail with
      | Some (lit, rest) => Some (e +:+ lit, rest)
      | None => None
      end.

(** A byte that is neither white space nor a closing bracket or brace: the
    text of a value begins with one. *)
Definition opens (c : ascii) : Prop :=
  json.isSpace c = false /\ Ascii.eqb c "]" = false /\ Ascii.eqb c "}" = false.

(** The value [Marshal] writes for the request of [GeneratePuzzle] that
    carries the prompt [text] and the schema [schema]. *)
Definition provider_request_value (text : string) (schema : json.value) : json.value :=
  json.Object
    [ ("contents"%string,
       json.Array
         [ json.Object
             [ ("parts"%string,
                json.Array [ json.Object [ ("text"%string, json.Str text) ] ]) ] ]);
      ("generationConfig"%string,
       json.Object
         [ ("responseMimeType"%string, json.Str "application/json");
           ("responseSchema"%string, schema);
           ("temperature"%string, json.Number "0.7");
           ("topP"%string, json.Number "0.9");
           ("topK"%string, json.Number "40") ]) ].

(** An answer of the provider with one candidate, whose content has one
    part with the text [text]. *)
Definition envelope (text : string) : json.value :=
  json.Object
    [ ("candidates"%string,
       json.Array
         [ json.Object
             [ ("content"%string,
                json.Object
                  [ ("parts"%string,
                     json.Array [ json.Object [ ("text"%string, json.Str text) ] ]);
                    ("role"%string, json.Str "model") ]);
               ("finishReason"%string, json.Str "STOP") ] ]) ].

(** The members [m] of an object hold [x] under the name [name], and beside
    it only members that the struct with the fields [fs] has no field for. *)
Definition unknown {T : Type} (fs : json.fields T) (m : list (string * json.value)) : Prop :=
  forall k x, In (k, x) m -> json.lookup_field fs k = None.

Definition only_member {T : Type} (fs : json.fields T) (name : string)
    (x : json.value) (m : list (string * json.value)) : Prop :=
  exists pre post, m = pre ++ (name, x) :: post /\ unknown fs pre /\ unknown fs post.

(** A value that is stored without an [UnmarshalTypeError]. *)
Definition well_typed {T : Type} (st : json.store T) (v : json.value) : Prop :=
  forall old, snd (st v old) = false.

(** An answer of the provider whose first candidate has a content whose
    first part has the text [text]: other members may stand beside
    [candidates], [content], [parts] and [text], and other candidates and
    parts may follow the first. *)
Definition envelope_of (text : string) (v : json.value) : Prop :=
  exists top cand candidates content part parts,
    v = json.Object top
    /\ only_member fields_GeminiAPIResponse "candidates"
         (json.Array (json.Object cand :: candidates)) top
    /\ only_member fields_GeminiCandidate "content" (json.Object content) cand
    /\ only_member fields_GeminiContent "parts"
         (json.Array (json.Object part :: parts)) content
    /\ only_member fields_GeminiContentPart "text" (json.Str text) part
    /\ Forall (well_typed (json.store_struct fields_GeminiCandidate)) candidates
    /\ Forall (well_typed (json.store_struct fields_GeminiContentPart)) parts.

(** A value whose text could go on: a number. *)
Definition is_number (v : json.value) : bool :=
  match v with
  | json.Number _ => true
  | _ => false
  end.

(** ** More sample surroundings *)

(** A provider that is overloaded. *)
Definition overloaded_env : Env :=
  {| query_fault := None;
     exec_fault := None;
     jsonb := respaced;
     time_Now := 1700000000;
     NewRequest_error := fun _ => None;
     Do := fun _ _ => Answer 503 "overloaded" |}.

(** A request with texts outside ASCII: two-, three- and four-byte
    sequences, a line separator, a quote, a line feed and HTML bytes. *)
Definition accented_request : PuzzleRequest :=
  {| GameType := "wordsearch";
     Difficulty := "M" +:+ of_bytes [0xC3; 0xA9]%Z +:+ "dio <1&2>" +:+ String nl EmptyString;
     Topics := Some [ "ci" +:+ of_bytes [0xC3; 0xAA]%Z +:+ "ncia";
                      String dq "x\y";
                      of_bytes [0xE2; 0x80; 0xA8; 0xE2; 0x82; 0xAC]%Z;
                      of_bytes [0xF0; 0x9F; 0x98; 0x80]%Z;
                      EmptyString ];
     Language := "pt" |}.

(** An answer laid out over several lines, with members and a candidate
    that the program does not read, and with escapes in its text. *)
Definition verbose_answer : string :=
  json_lines
    [ "{";
      "  'candidates': [";
      "    {";
      "      'avgLogprobs': -0.25,";
      "      'content': {";
      "        'parts': [ { 'text': '{\'words\':[\'caf\u00e9\']}\n' }, { 'text': null } ],";
      "        'role': 'model'";
      "      },";
      "      'finishReason': 'STOP'";
      "    },";
      "    { 'finishReason': 'OTHER' }";
      "  ],";
      "  'usageMetadata': { 'promptTokenCount': 120, 'totalTokenCount': 3.0e2 },";
      "  'modelVersion': 'gemini-2.0-flash'";
      "}" ].

Definition verbose_text : string :=
  double_quotes "{'words':['caf" +:+ of_bytes [0xC3; 0xA9]%Z +:+ double_quotes "']}"
  +:+ String nl EmptyString.

Definition verbose_env : Env :=
  {| query_fault := None;
     exec_fault := None;
     jsonb := respaced;
     time_Now := 1700000000;
     NewRequest_error := fun _ => None;
     Do := fun _ _ => Answer 200 verbose_answer |}.

(** Two requests that the provider cannot tell apart. *)
Definition easy_request : PuzzleRequest :=
  {| GameType := "wordsearch"; Difficulty := "easy"; Topics := None; Language := "en" |}.

Definition Easy_request : PuzzleRequest :=
  {| GameType := "sudoku"; Difficulty := "EASY"; Topics := Some []; Language := "en" |}.

(** * Known answers

    The library models are run on inputs whose answers are known: the
    FIPS 180-4 test vectors, the digests of the literals of the sources, and
    small texts that show the rules of the packages at work. *)

Example sha256_abc :
  hex.EncodeToString (sha256.Sum "abc")
  = "ba7816bf8f01cfea414140de5dae2223b00361a396177a9cb410ff61f20015ad".
Proof. vm_compute. reflexivity. Qed.

Example sha256_empty :
  hex.EncodeToString (sha256.Sum EmptyString)
  = "e3b0c44298fc1c149afbf4c8996fb92427ae41e4649b934ca495991b7852b855".
Proof. vm_compute. reflexivity. Qed.

Example utf8_two_bytes :
  utf8.DecodeRune (of_bytes [0xC3; 0xA9; 0x41]%Z) = (0xE9%Z, 2).
Proof. reflexivity. Qed.

Example utf8_overlong :
  utf8.DecodeRune (of_bytes [0xC0; 0x80]%Z) = (0xFFFD%Z, 1).
Proof. reflexivity. Qed.

Example utf8_surrogate :
  utf8.DecodeRune (of_bytes [0xED; 0xA0; 0x80]%Z) = (0xFFFD%Z, 1).
Proof. reflexivity. Qed.

Example utf8_encode_euro : bytes_of (utf8.EncodeRune 0x20AC) = [0xE2; 0x82; 0xAC]%Z.
Proof. reflexivity. Qed.

Example utf8_encode_astral :
  utf8.DecodeRune (utf8.EncodeRune 0x1F600) = (0x1F600%Z, 4).
Proof. reflexivity. Qed.

Example json_escape :
  json.appendString (of_bytes [60; 97; 34; 10; 1; 0xE2; 0x80; 0xA8; 0xFF; 0xC3; 0xA9]%Z)
  = String dq ("\u003ca\" +:+ String dq ("\n\u0001\u2028\ufffd"
      +:+ of_bytes [0xC3; 0xA9]%Z +:+ String dq EmptyString)).
Proof. vm_compute. reflexivity. Qed.

Example sprintf_about : fmt.Sprintf "about %s" ["animals, nature"] = "about animals, nature".
Proof. reflexivity. Qed.

Example join_topics : strings.Join ["animals"; "nature"] ", " = "animals, nature".
Proof. reflexivity. Qed.

Example tolower_ascii (table : Z -> Z) : strings.ToLower table "EaSy-1" = "easy-1".
Proof. reflexivity. Qed.

Example sha256_two_blocks :
  hex.EncodeToString (sha256.Sum scenario_canonical)
  = "a0881fba48bc1179108379f9e0a8e3bebf065eaebb0737a5751943d92c75e4d8".
Proof. vm_compute. reflexivity. Qed.

(** The raw string literals of gemini_service.go, by length and digest. *)
Example literals_by_digest :
  map (fun s => (String.length s, hex.EncodeToString (sha256.Sum s)))
      [crossword_format; crossword_schema; wordsearch_format; wordsearch_schema]
  = [ (546, "4a3ffecf53add3b7311538625197837ffadd4ba721e43301a1d66b1856dbbe12");
      (1131, "f1079b6cad367cfd787fd7ebb7f1b33fd3fc538ec5d43b6bd893a3e60f024071");
      (756, "044577e0903f7ed8307c2b729b1d0c5be3a5bd77b1546f4b4a601d9e8d1720b2");
      (760, "cd2a9fa93b38eeb47f67dfe25ce5c92735a109471cc272cc0540709e74d55721") ].
Proof. vm_compute. reflexivity. Qed.

Example decode_readme_body : Decode_PuzzleRequest readme_body = json.Ok scenario_request.
Proof. vm_compute. reflexivity. Qed.

Example encode_scenario : encode_PuzzleRequest scenario_request = scenario_canonical.
Proof. vm_compute. reflexivity. Qed.

(** A nil [Topics] is written [null] and an empty one [[]]: the two requests
    are different values with different serializations. *)
Example encode_nil_topics :
  encode_PuzzleRequest zero_PuzzleRequest
  = double_quotes "{'gameType':'','difficulty':'','topics':null,'language':''}".
Proof. vm_compute. reflexivity. Qed.

Example encode_empty_topics :
  encode_PuzzleRequest
    {| GameType := EmptyString; Difficulty := EmptyString;
       Topics := Some []; Language := EmptyString |}
  = double_quotes "{'gameType':'','difficulty':'','topics':[],'language':''}".
Proof. vm_compute. reflexivity. Qed.

Example decode_empty_topics :
  Decode_PuzzleRequest (double_quotes "{'topics':[]}")
  = json.Ok {| GameType := EmptyString; Difficulty := EmptyString;
               Topics := Some []; Language := EmptyString |}.
Proof. vm_compute. reflexivity. Qed.

(** Keys are matched without regard to case, unknown members are skipped,
    and what follows the first value is not read. *)
Example decode_lenient :
  Decode_PuzzleRequest
    (double_quotes "{'LANGUAGE':'pt','x':[1,{'y':null}],'gameType':'crossword'} trailing")
  = json.Ok {| GameType := "crossword"; Difficulty := EmptyString;
               Topics := None; Language := "pt" |}.
Proof. vm_compute. reflexivity. Qed.

Example decode_null : Decode_PuzzleRequest "null" = json.Ok zero_PuzzleRequest.
Proof. vm_compute. reflexivity. Qed.

Example decode_type_error :
  Decode_PuzzleRequest (double_quotes "{'gameType':1}") = json.Err json.UnmarshalTypeError.
Proof. vm_compute. reflexivity. Qed.

Example decode_empty_body : Decode_PuzzleRequest EmptyString = json.Err json.SyntaxError.
Proof. vm_compute. reflexivity. Qed.

Example decode_trailing_comma :
  Decode_PuzzleRequest (double_quotes "{'gameType':'crossword',}") = json.Err json.SyntaxError.
Proof. vm_compute. reflexivity. Qed.

(** * Facts about the library models *)

Lemma of_bytes_length (l : list Z) : String.length (of_bytes l) = List.length l.
Proof. induction l as [|b l IH]; simpl; congruence. Qed.

Lemma be_bytes_length (n : nat) (x : Z) : List.length (sha256.be_bytes n x) = n.
Proof.
  unfold sha256.be_bytes. rewrite length_map, length_rev, length_seq. reflexivity.
Qed.

(** A digest is 32 bytes, that is 256 bits, whatever was hashed. *)
Lemma sha256_Sum_length (data : string) : String.length (sha256.Sum data) = 32.
Proof.
  unfold sha256.Sum, sha256.digest_bytes.
  rewrite of_bytes_length, !length_app, !be_bytes_length. reflexivity.
Qed.

Lemma hex_byte (c : ascii) :
  hex.digit (Z.shiftr (code c) 4) = hex_digit (code c / 16)
  /\ hex.digit (Z.land (code c) 15) = hex_digit (code c mod 16).
Proof. destruct c as [[] [] [] [] [] [] [] []]; split; reflexivity. Qed.

(** The table lookup of [encoding/hex] is the lower-case hexadecimal
    rendering. *)
Lemma EncodeToString_lowercase_hex (s : string) :
  hex.EncodeToString s = lowercase_hex s.
Proof.
  induction s as [|c r IH]; simpl; [reflexivity|].
  destruct (hex_byte c) as [-> ->]. rewrite IH. reflexivity.
Qed.

Lemma lowercase_hex_length (s : string) :
  String.length (lowercase_hex s) = 2 * String.length s.
Proof. induction s as [|c r IH]; simpl; [reflexivity|]. rewrite IH. lia. Qed.

Lemma hex_digits_of_byte (c : ascii) :
  is_lowercase_hex_digit (hex_digit (code c / 16)) = true
  /\ is_lowercase_hex_digit (hex_digit (code c mod 16)) = true
  /\ chr (hex_digit_value (hex_digit (code c / 16)) * 16
          + hex_digit_value (hex_digit (code c mod 16))) = c.
Proof. destruct c as [[] [] [] [] [] [] [] []]; repeat split; reflexivity. Qed.

Lemma lowercase_hex_digits (s : string) :
  every is_lowercase_hex_digit (lowercase_hex s) = true.
Proof.
  induction s as [|c r IH]; [reflexivity|].
  destruct (hex_digits_of_byte c) as (Hhi & Hlo & _).
  cbn [lowercase_hex every]. rewrite Hhi, Hlo, IH. reflexivity.
Qed.

Lemma bytes_of_lowercase_hex (s : string) : bytes_of_hex (lowercase_hex s) = s.
Proof.
  induction s as [|c r IH]; [reflexivity|].
  destruct (hex_digits_of_byte c) as (_ & _ & Hc).
  cbn [lowercase_hex bytes_of_hex]. rewrite Hc, IH. reflexivity.
Qed.

Lemma lowercase_hex_injective (a b : string) :
  lowercase_hex a = lowercase_hex b -> a = b.
Proof.
  intros H. rewrite <- (bytes_of_lowercase_hex a), <- (bytes_of_lowercase_hex b), H.
  reflexivity.
Qed.

(** ** Loops bounded by the length of their input

    Every iteration of the loops of [unquoteBytes] and [strings.Map] consumes
    a byte, so a bound of the length of the input is never reached before the
    input is used up: a larger bound gives the same result. *)

Lemma slice_from_length (k : nat) (s : string) :
  String.length (slice_from k s) = String.length s - k.
Proof.
  revert s. induction k as [|k IH]; intros s; [simpl; lia|].
  destruct s as [|c r]; simpl; [reflexivity|]. apply IH.
Qed.

Lemma DecodeRune_size (c : ascii) (r : string) :
  1 <= snd (utf8.DecodeRune (String c r)).
Proof.
  unfold utf8.DecodeRune.
  repeat match goal with
  | |- context [if ?b then _ else _] => destruct b
  | |- context [match ?x with _ => _ end] => destruct x
  end; simpl; lia.
Qed.

Lemma unquote_loop_fuel (n m : nat) (s : string) :
  String.length s <= n -> String.length s <= m ->
  json.unquote_loop n s = json.unquote_loop m s.
Proof.
  revert m s. induction n as [|n IH]; intros m s Hn Hm.
  - destruct s; [|simpl in Hn; lia]. destruct m; reflexivity.
  - destruct m as [|m]; [destruct s; [reflexivity|simpl in Hm; lia]|].
    destruct s as [|c r]; [reflexivity|].
    cbn [json.unquote_loop]. simpl in Hn, Hm.
    pose proof (DecodeRune_size c r) as Hsz.
    destruct (utf8.DecodeRune (String c r)) as [rn width]. simpl in Hsz.
    assert (L1 : String.length (slice_from 6 (String c r)) <= String.length r)
      by (rewrite slice_from_length; simpl; lia).
    assert (L2 : String.length (slice_from 6 (slice_from 6 (String c r)))
                 <= String.length r)
      by (rewrite !slice_from_length; simpl; lia).
    assert (L3 : String.length (slice_from width (String c r)) <= String.length r)
      by (rewrite slice_from_length; simpl; lia).
    generalize dependent (slice_from 6 (slice_from 6 (String c r))).
    generalize dependent (slice_from 6 (String c r)).
    generalize dependent (slice_from width (String c r)).
    generalize (json.getu4 (String c r)).
    intros u s3 L3 s1 L1. generalize (json.getu4 s1). intros u1 s2 L2.
    repeat match goal with
    | |- context [if ?b then _ else _] => destruct b
    | |- context [match ?x with _ => _ end] => destruct x eqn:?
    end; try reflexivity; f_equal; apply IH; simpl in *; lia.
Qed.

Lemma Map_loop_fuel (mapping : Z -> Z) (n m : nat) (s : string) :
  String.length s <= n -> String.length s <= m ->
  strings.Map_loop mapping n s = strings.Map_loop mapping m s.
Proof.
  revert m s. induction n as [|n IH]; intros m s Hn Hm.
  - destruct s; [|simpl in Hn; lia]. destruct m; reflexivity.
  - destruct m as [|m]; [destruct s; [reflexivity|simpl in Hm; lia]|].
    destruct s as [|c r]; [reflexivity|].
    cbn [strings.Map_loop]. simpl in Hn, Hm.
    pose proof (DecodeRune_size c r) as Hsz.
    destruct (utf8.DecodeRune (String c r)) as [rn width]. simpl in Hsz.
    f_equal. apply IH; rewrite slice_from_length; simpl; lia.
Qed.

(** ** The parser never runs out of fuel *)

Module json_facts.
Import json.

Lemma skip_space_length (s : string) :
  String.length (skip_space s) <= String.length s.
Proof.
  induction s as [|c r IH]; simpl; [lia|]. destruct (isSpace c); simpl; lia.
Qed.

Lemma skip_space_cons (s : string) (c : ascii) (r : string) :
  skip_space s = String c r -> String.length r < String.length s.
Proof.
  intros H. pose proof (skip_space_length s) as L. rewrite H in L. simpl in L. lia.
Qed.

Lemma scan_string_length st s lit rest :
  scan_string st s = Some (lit, rest) -> String.length rest < String.length s.
Proof.
  revert st lit rest.
  induction s as [|c r IH]; intros st lit rest; simpl; [discriminate|].
  assert (K : forall st',
             match scan_string st' r with
             | Some (lit0, rest0) => Some (String c lit0, rest0)
             | None => None
             end = Some (lit, rest) ->
             String.length rest < S (String.length r)).
  { intros st'. destruct (scan_string st' r) as [[l0 r0]|] eqn:E; [|discriminate].
    intros [= <- <-]. apply IH in E. lia. }
  destruct st.
  - destruct (Ascii.eqb c dq); [intros [= <- <-]; lia|].
    destruct (Ascii.eqb c "\"); [apply K|].
    destruct (code c <? 32)%Z; [discriminate|apply K].
  - destruct (_ || _)%bool; [apply K|].
    destruct (_ =? _)%Z; [apply K|discriminate].
  - destruct (isHex c); [apply K|discriminate].
Qed.

Lemma digits_length s ds rest :
  digits s = (ds, rest) -> String.length rest <= String.length s.
Proof.
  revert ds rest. induction s as [|c r IH]; intros ds rest; simpl.
  - intros [= <- <-]. simpl. lia.
  - destruct (isDigit c).
    + destruct (digits r) as [d0 r0] eqn:E. intros [= <- <-].
      specialize (IH _ _ eq_refl). lia.
    + intros [= <- <-]. simpl. lia.
Qed.

Lemma strip_prefix_length p s rest :
  strip_prefix p s = Some rest -> String.length rest <= String.length s.
Proof.
  revert s rest. induction p as [|a p IH]; intros s rest; simpl.
  - intros [= <-]. lia.
  - destruct s as [|b s]; [discriminate|].
    destruct (Ascii.eqb a b); [|discriminate].
    intros H. apply IH in H. simpl. lia.
Qed.

Lemma scan_int_length s lit rest :
  scan_int s = Some (lit, rest) -> String.length rest < String.length s.
Proof.
  destruct s as [|c r]; simpl; [discriminate|].
  destruct (Ascii.eqb c "0"); [intros [= <- <-]; lia|].
  destruct (isDigit c); [|discriminate].
  destruct (digits r) as [ds r0] eqn:E. apply digits_length in E.
  intros [= <- <-]. lia.
Qed.

Lemma scan_frac_length s lit rest :
  scan_frac s = Some (lit, rest) -> String.length rest <= String.length s.
Proof.
  destruct s as [|c r]; simpl; [intros [= <- <-]; simpl; lia|].
  destruct (Ascii.eqb c "."); [|intros [= <- <-]; simpl; lia].
  destruct (digits r) as [ds r0] eqn:E. apply digits_length in E.
  destruct ds; [discriminate|]. intros [= <- <-]. lia.
Qed.

Lemma scan_exp_length s lit rest :
  scan_exp s = Some (lit, rest) -> String.length rest <= String.length s.
Proof.
  destruct s as [|c r]; simpl; [intros [= <- <-]; simpl; lia|].
  destruct (_ || _)%bool; [|intros [= <- <-]; simpl; lia].
  assert (K : forall sg r1,
             String.length r1 <= String.length r ->
             match digits r1 with
             | (EmptyString, _) => None
             | (ds, rest0) => Some (String c (sg +:+ ds), rest0)
             end = Some (lit, rest) ->
             String.length rest <= S (String.length r)).
  { intros sg r1 L. destruct (digits r1) as [ds r0] eqn:E.
    apply digits_length in E. destruct ds; [discriminate|].
    intros [= <- <-]. lia. }
  destruct r as [|c' r']; [apply K; lia|].
  destruct (_ || _)%bool; apply K; simpl; lia.
Qed.

Lemma scan_number_length s lit rest :
  scan_number s = Some (lit, rest) -> String.length rest < String.length s.
Proof.
  unfold scan_number. destruct (scan_sign s) as [sign s1] eqn:Es.
  assert (L1 : String.length s1 <= String.length s).
  { destruct s as [|c r]; simpl in Es; [injection Es as <- <-; lia|].
    destruct (Ascii.eqb c "-"); injection Es as <- <-; simpl; lia. }
  destruct (scan_int s1) as [[ip s2]|] eqn:Ei; [|discriminate].
  apply scan_int_length in Ei.
  destruct (scan_frac s2) as [[fp s3]|] eqn:Ef; [|discriminate].
  apply scan_frac_length in Ef.
  destruct (scan_exp s3) as [[ep s4]|] eqn:Ee; [|discriminate].
  apply scan_exp_length in Ee.
  intros [= <- <-]. lia.
Qed.

Ltac length_facts :=
  repeat match goal with
  | H : skip_space _ = String _ _ |- _ => apply skip_space_cons in H
  | H : scan_string _ _ = Some _ |- _ => apply scan_string_length in H
  | H : scan_number _ = Some _ |- _ => apply scan_number_length in H
  | H : strip_prefix _ _ = Some _ |- _ => apply strip_prefix_length in H
  end.

Ltac split_match :=
  match goal with
  | |- context [match ?x with _ => _ end] =>
      lazymatch x with
      | parse _ _ _ => fail
      | members _ _ _ => fail
      | elements _ _ _ => fail
      | _ => destruct x eqn:?
      end
  end.

Ltac crunch :=
  repeat split_match; simpl; try discriminate; length_facts; simpl in *; try lia.

Ltac by_IH IH :=
  match goal with
  | |- context [members ?f ?d ?r] =>
      let H := fresh in
      assert (H : served r (members f d r)) by (apply IH; simpl in *; lia);
      destruct (members f d r) as [[? ?]|?]; simpl in *; [try lia|try assumption]
  | |- context [elements ?f ?d ?r] =>
      let H := fresh in
      assert (H : served r (elements f d r)) by (apply IH; simpl in *; lia);
      destruct (elements f d r) as [[? ?]|?]; simpl in *; [try lia|try assumption]
  | |- context [parse ?f ?d ?r] =>
      let H := fresh in
      assert (H : served r (parse f d r)) by (apply IH; simpl in *; lia);
      destruct (parse f d r) as [[? ?]|?]; simpl in *; [try lia|try assumption]
  end.

Lemma parse_fuel (fuel : nat) :
  (forall depth s, 2 * String.length s < fuel -> served s (parse fuel depth s))
  /\ (forall depth s, 2 * String.length s < fuel -> served s (members fuel depth s))
  /\ (forall depth s, 2 * String.length s + 1 < fuel -> served s (elements fuel depth s)).
Proof.
  induction fuel as [|fuel (IHp & IHm & IHe)]; [repeat split; intros; lia|].
  repeat split; intros depth s L.
  - change (served s (parse_body (members fuel) (elements fuel) depth s)).
    unfold parse_body. crunch.
    all: first [by_IH IHm | by_IH IHe].
  - change (served s (members_body (parse fuel) (members fuel) depth s)).
    unfold members_body. crunch.
    all: by_IH IHp. all: crunch. all: by_IH IHm.
  - change (served s (elements_body (parse fuel) (elements fuel) depth s)).
    unfold elements_body. by_IH IHp. crunch. by_IH IHe.
Qed.

Lemma readValue_fuel (body : string) : readValue body <> Err OutOfFuel.
Proof.
  unfold readValue.
  pose proof (proj1 (parse_fuel (enough_fuel body)) 0%Z body) as H.
  unfold enough_fuel in *. specialize (H ltac:(lia)).
  destruct (parse _ _ _) as [[? ?]|?]; simpl in *; congruence.
Qed.

Lemma checkValid_fuel (data : string) : checkValid data <> Err OutOfFuel.
Proof.
  unfold checkValid.
  pose proof (proj1 (parse_fuel (enough_fuel data)) 0%Z data) as H.
  unfold enough_fuel in *. specialize (H ltac:(lia)).
  destruct (parse _ _ _) as [[? ?]|?]; simpl in *; [|congruence].
  destruct (skip_space _); congruence.
Qed.

End json_facts.

(** Decoding a request body ends in a request or in an error of the
    decoder, never for lack of fuel. *)
Lemma Decode_PuzzleRequest_fuel (body : string) :
  Decode_PuzzleRequest body <> json.Err json.OutOfFuel.
Proof.
  unfold Decode_PuzzleRequest.
  pose proof (json_facts.readValue_fuel body) as H.
  destruct (json.readValue body) as [v|e]; [|congruence].
  unfold json.unmarshal.
  destruct (json.store_struct _ _ _) as [[req sp] []]; congruence.
Qed.

(** ** The schema documents *)

Lemma schemas_decode :
  (exists v, json.Unmarshal_map crossword_schema = json.Ok v
             /\ json.encode_interface v = crossword_schema_compact)
  /\ (exists v, json.Unmarshal_map wordsearch_schema = json.Ok v
                /\ json.encode_interface v = wordsearch_schema_compact).
Proof.
  split.
  - destruct (json.Unmarshal_map crossword_schema) as [v|e] eqn:E;
      [|vm_compute in E; discriminate].
    exists v. split; [reflexivity|].
    vm_compute in E. injection E as <-. vm_compute. reflexivity.
  - destruct (json.Unmarshal_map wordsearch_schema) as [v|e] eqn:E;
      [|vm_compute in E; discriminate].
    exists v. split; [reflexivity|].
    vm_compute in E. injection E as <-. vm_compute. reflexivity.
Qed.

Lemma schemas_hold_no_number :
  match json.checkValid crossword_schema, json.checkValid wordsearch_schema with
  | json.Ok c, json.Ok w => json.holds_number c = false /\ json.holds_number w = false
  | _, _ => False
  end.
Proof. vm_compute. split; reflexivity. Qed.

Lemma schemas_compact :
  json.appendCompact crossword_schema_compact = json.Ok crossword_schema_compact
  /\ json.appendCompact wordsearch_schema_compact = json.Ok wordsearch_schema_compact.
Proof. split; vm_compute; reflexivity. Qed.

Example provider_request_body_flat :
  provider_request_body "p" "{}"
  = double_quotes
      "{'contents':[{'parts':[{'text':'p'}]}],'generationConfig':{'responseMimeType':'application/json','responseSchema':{},'temperature':0.7,'topP':0.9,'topK':40}}".
Proof. vm_compute. reflexivity. Qed.

(** ** Strings *)

Lemma append_cons (c : ascii) (s t : string) : String c s +:+ t = String c (s +:+ t).
Proof. reflexivity. Qed.

Lemma append_empty (s : string) : s +:+ EmptyString = s.
Proof.
  induction s as [|c r IH]; [reflexivity|]. rewrite append_cons, IH. reflexivity.
Qed.

Lemma Join_comma_joined (topics : list string) :
  strings.Join topics ", " = comma_joined topics.
Proof.
  induction topics as [|t ts IH]; [reflexivity|].
  destruct ts as [|t' ts']; [reflexivity|].
  cbn [strings.Join comma_joined] in *. rewrite IH. reflexivity.
Qed.

Lemma lower_ascii_char (c : ascii) :
  is_upper (if ((65 <=? code c) && (code c <=? 90))%Z then chr (code c + 32) else c)
  = false.
Proof. destruct c as [[] [] [] [] [] [] [] []]; reflexivity. Qed.

(** On a text of ASCII [ToLower] leaves no upper-case letter and keeps the
    length. *)
Lemma ToLower_ASCII (table : Z -> Z) (s : string) :
  strings.isASCII s = true ->
  every (fun c => negb (is_upper c)) (strings.ToLower table s) = true
  /\ String.length (strings.ToLower table s) = String.length s.
Proof.
  intros H. unfold strings.ToLower. rewrite H. clear H.
  induction s as [|c r [IH1 IH2]]; [split; reflexivity|].
  cbn [strings.lower_ascii every String.length].
  rewrite lower_ascii_char, IH1, IH2. split; reflexivity.
Qed.

(** [Sprintf] on the two prompt templates: the four operands are put in
    where the four verbs stand. *)
Lemma Sprintf_crossword_format (a b c d : string) :
  fmt.Sprintf crossword_format [a; b; c; d]
  = String nl (tabs 3 "Generate a ") +:+ a +:+ " " +:+ b +:+ " in " +:+ c +:+ "."
    +:+ String nl (tabs 3 EmptyString) +:+ d +:+ String nl (lines crossword_instructions).
Proof. vm_compute. reflexivity. Qed.

Lemma Sprintf_wordsearch_format (a b c d : string) :
  fmt.Sprintf wordsearch_format [a; b; c; d]
  = String nl (tabs 3 "Generate a ") +:+ a +:+ " " +:+ b +:+ " in " +:+ c +:+ "."
    +:+ String nl (tabs 3 EmptyString) +:+ d +:+ String nl (lines wordsearch_instructions).
Proof. vm_compute. reflexivity. Qed.

Lemma Sprintf_url (a b : string) :
  fmt.Sprintf "%s?key=%s" [a; b] = a +:+ "?key=" +:+ b.
Proof.
  change (fmt.Sprintf "%s?key=%s" [a; b]) with (a +:+ "?key=" +:+ b +:+ EmptyString).
  rewrite append_empty. reflexivity.
Qed.

(** * The handler

    What [generatePuzzleHandler] does is settled by four things: the method,
    what the body decodes to, what the lookup gives and what the generation
    client returns.  The lemmas of this section compute the response and the
    world after the run in each case; the claims are read off them. *)

Lemma emit_after (ev : event) (w : World) (added : list event) :
  emit ev (after w added) = after w (added ++ [ev]).
Proof. unfold emit, after. simpl. rewrite <- app_assoc. reflexivity. Qed.

Lemma emit_start (ev : event) (w : World) : emit ev w = after w [ev].
Proof. reflexivity. Qed.

Lemma after_nil (w : World) : w = after w [].
Proof. destruct w. unfold after. simpl. rewrite app_nil_r. reflexivity. Qed.

Lemma after_after (w : World) (a b : list event) :
  after (after w a) b = after w (a ++ b).
Proof. unfold after. simpl. rewrite <- app_assoc. reflexivity. Qed.

Section Handler.

Variable To_LowerCase : Z -> Z.

(** [GeneratePuzzle] reads nothing of the world and only adds events. *)
Lemma GeneratePuzzle_frame svc env req w added :
  GeneratePuzzle To_LowerCase svc env req (after w added) =
  (generated To_LowerCase svc env req,
   after w (added ++ generation_events To_LowerCase svc env req)).
Proof.
  unfold generated, generation_events, GeneratePuzzle. rewrite emit_after.
  repeat match goal with
  | |- context [if ?b then _ else _] => destruct b
  | |- context [match ?x with _ => _ end] => destruct x
  end; rewrite ?emit_after; cbn [fst snd trace emit blank app];
    rewrite <- ?app_assoc; reflexivity.
Qed.

(** Every call of [GeneratePuzzle] begins with its [Generate] event. *)
Lemma generation_events_head svc env req :
  exists rest, generation_events To_LowerCase svc env req = Generate req :: rest.
Proof.
  unfold generation_events, GeneratePuzzle.
  repeat match goal with
  | |- context [if ?b then _ else _] => destruct b
  | |- context [match ?x with _ => _ end] => destruct x
  end; cbn [fst snd trace emit blank app]; eexists; reflexivity.
Qed.

(** No call of [GeneratePuzzle] touches the store. *)
Lemma generation_events_no_store svc env req :
  Forall (fun ev => is_store ev = false) (generation_events To_LowerCase svc env req).
Proof.
  unfold generation_events, GeneratePuzzle.
  repeat match goal with
  | |- context [if ?b then _ else _] => destruct b
  | |- context [match ?x with _ => _ end] => destruct x
  end; cbn [fst snd trace emit blank app]; repeat constructor.
Qed.

#[local] Opaque sha256.Sum hex.EncodeToString lowercase_hex encode_PuzzleRequest.

Lemma handler_not_post s env r w :
  Method r <> MethodPost ->
  generatePuzzleHandler To_LowerCase s env r w
  = (HttpError OnlyPostAllowed StatusMethodNotAllowed, w).
Proof.
  intros Hm. unfold generatePuzzleHandler.
  destruct (String.eqb_spec (Method r) MethodPost) as [E|E]; [contradiction|].
  reflexivity.
Qed.

Lemma handler_bad_body s env r w err :
  Method r = MethodPost ->
  Decode_PuzzleRequest (Body r) = json.Err err ->
  generatePuzzleHandler To_LowerCase s env r w
  = (HttpError (InvalidPayload err) StatusBadRequest, w).
Proof.
  intros Hm Hd. unfold generatePuzzleHandler.
  rewrite Hm, String.eqb_refl, Hd. reflexivity.
Qed.

Lemma handler_hit s env r w req row :
  Method r = MethodPost ->
  Decode_PuzzleRequest (Body r) = json.Ok req ->
  query_fault env = None ->
  cached_puzzles w !! fingerprint req = Some row ->
  generatePuzzleHandler To_LowerCase s env r w
  = (Written "application/json" (response_data row),
     after w [ Query (fingerprint req); Log (CacheHit (fingerprint req));
               Log (ReturnedCached (fingerprint req)) ]).
Proof.
  intros Hm Hd Hq Hrow. unfold generatePuzzleHandler.
  rewrite Hm, String.eqb_refl, Hd.
  cbn [negb Marshal_PuzzleRequest].
  rewrite EncodeToString_lowercase_hex. fold (fingerprint req).
  unfold GetCachedPuzzle. rewrite Hq, Hrow.
  rewrite !emit_start, !after_after. reflexivity.
Qed.

Lemma handler_regenerates s env r w req :
  Method r = MethodPost ->
  Decode_PuzzleRequest (Body r) = json.Ok req ->
  query_fault env <> None \/ cached_puzzles w !! fingerprint req = None ->
  generatePuzzleHandler To_LowerCase s env r w = regenerate To_LowerCase s env req w.
Proof.
  intros Hm Hd Hmiss. unfold generatePuzzleHandler, regenerate.
  rewrite Hm, String.eqb_refl, Hd.
  cbn [negb Marshal_PuzzleRequest].
  rewrite EncodeToString_lowercase_hex. fold (fingerprint req).
  unfold GetCachedPuzzle, lookup_events.
  assert (E : exists pre,
    (let '(cachedResponse, err, w1) :=
       match query_fault env with
       | Some cause =>
           (None, Some (GetFailed (fingerprint req) cause),
            emit (Query (fingerprint req)) w)
       | None =>
           match cached_puzzles w !! fingerprint req with
           | Some row =>
               (Some (response_data row), None,
                emit (Log (CacheHit (fingerprint req)))
                  (emit (Query (fingerprint req)) w))
           | None => (None, None, emit (Query (fingerprint req)) w)
           end
       end in
     (cachedResponse,
      match err with
      | Some e => emit (Log (CacheCheckError (fingerprint req) e)) w1
      | None => w1
      end)) = (None, after w pre)
    /\ pre = match query_fault env with
             | Some cause =>
                 [ Query (fingerprint req);
                   Log (CacheCheckError (fingerprint req)
                          (GetFailed (fingerprint req) cause)) ]
             | None => [ Query (fingerprint req) ]
             end).
  { destruct (query_fault env) as [cause|].
    - eexists. split; [|reflexivity].
      rewrite !emit_start, !after_after. reflexivity.
    - destruct Hmiss as [Hmiss|Hmiss]; [congruence|]. rewrite Hmiss.
      eexists. split; [|reflexivity]. rewrite emit_start. reflexivity. }
  destruct E as (pre & E & Hpre). rewrite <- Hpre. clear Hpre.
  destruct (match query_fault env with
            | Some cause => _
            | None => _
            end) as [[cachedResponse err] w1].
  injection E as -> E. rewrite E. clear E.
  rewrite GeneratePuzzle_frame.
  destruct (generated To_LowerCase (geminiPuzzleService s) env req) as [p|e].
  - unfold SaveCachedPuzzle. rewrite emit_after.
    destruct (exec_fault env) as [cause|].
    + rewrite !emit_after, <- !app_assoc. reflexivity.
    + unfold emit, after. cbn [cached_puzzles trace app].
      rewrite <- !app_assoc. reflexivity.
  - rewrite emit_after, <- !app_assoc. reflexivity.
Qed.

End Handler.

(** * The claims *)

Section Claims.

Variable To_LowerCase : Z -> Z.

(** The generation client does not look at the faults of the store. *)
Lemma generated_no_query_fault svc env req :
  generated To_LowerCase svc (no_query_fault env) req = generated To_LowerCase svc env req.
Proof. reflexivity. Qed.

Lemma generation_events_no_query_fault svc env req :
  generation_events To_LowerCase svc (no_query_fault env) req
  = generation_events To_LowerCase svc env req.
Proof. reflexivity. Qed.

Lemma generated_no_exec_fault svc env req :
  generated To_LowerCase svc (no_exec_fault env) req = generated To_LowerCase svc env req.
Proof. reflexivity. Qed.


(** The first thing a run does with a decoded request is to look its
    fingerprint up. *)
Lemma handler_queries_fingerprint s env r w req :
  Method r = MethodPost ->
  Decode_PuzzleRequest (Body r) = json.Ok req ->
  exists rest,
    trace (snd (generatePuzzleHandler To_LowerCase s env r w))
    = trace w ++ Query (fingerprint req) :: rest.
Proof.
  intros Hm Hd.
  destruct (query_fault env) as [cause|] eqn:Hq;
    [|destruct (cached_puzzles w !! fingerprint req) as [row|] eqn:Hrow].
  2: { rewrite (handler_hit _ s env r w req row Hm Hd Hq Hrow). eexists. reflexivity. }
  all: rewrite (handler_regenerates _ s env r w req Hm Hd)
         by (first [left; congruence | right; assumption]).
  all: unfold regenerate, lookup_events; rewrite Hq.
  all: destruct (generated _ _ _ _); [destruct (exec_fault env)|].
  all: cbn [snd trace after app]; rewrite <- ?app_assoc; cbn [app]; eexists; reflexivity.
Qed.

(** C1 — a request whose fingerprint has a cache entry, which the lookup
    finds, is answered with the stored payload, byte for byte; the table is
    left as it was, and neither [GeneratePuzzle] is called nor a request
    sent to the provider: the run consists of the query and two log
    lines. *)
Theorem C1_cache_hit_serves_stored_payload s env r w req row :
  Method r = MethodPost ->
  Decode_PuzzleRequest (Body r) = json.Ok req ->
  query_fault env = None ->
  cached_puzzles w !! fingerprint req = Some row ->
  exists added,
    generatePuzzleHandler To_LowerCase s env r w
      = (Written "application/json" (response_data row), after w added)
    /\ added = [ Query (fingerprint req); Log (CacheHit (fingerprint req));
                 Log (ReturnedCached (fingerprint req)) ]
    /\ Forall (fun ev => is_generation ev = false) added.
Proof.
  intros Hm Hd Hq Hrow. eexists. split; [|split; [reflexivity|]].
  - apply handler_hit; assumption.
  - repeat constructor.
Qed.

(** C2 — the key the handler derives for a request is the lower-case
    hexadecimal rendering of the SHA-256 digest of the request's canonical
    serialization: 64 digits that stand for the 32 bytes of the digest.  Two
    runs whose bodies decode to the same request derive the same key,
    whatever the server, the environment and the world. *)
Theorem C2_fingerprint_is_hex_sha256_of_canonical s1 env1 r1 w1 s2 env2 r2 w2 req :
  Method r1 = MethodPost ->
  Method r2 = MethodPost ->
  Decode_PuzzleRequest (Body r1) = json.Ok req ->
  Decode_PuzzleRequest (Body r2) = json.Ok req ->
  let digest := sha256.Sum (encode_PuzzleRequest req) in
  exists key,
    key = lowercase_hex digest
    /\ (exists rest,
          trace (snd (generatePuzzleHandler To_LowerCase s1 env1 r1 w1))
          = trace w1 ++ Query key :: rest)
    /\ (exists rest,
          trace (snd (generatePuzzleHandler To_LowerCase s2 env2 r2 w2))
          = trace w2 ++ Query key :: rest)
    /\ String.length digest = 32
    /\ String.length key = 64
    /\ every is_lowercase_hex_digit key = true
    /\ bytes_of_hex key = digest.
Proof.
  intros Hm1 Hm2 Hd1 Hd2 digest. exists (lowercase_hex digest).
  split; [reflexivity|].
  split; [exact (handler_queries_fingerprint s1 env1 r1 w1 req Hm1 Hd1)|].
  split; [exact (handler_queries_fingerprint s2 env2 r2 w2 req Hm2 Hd2)|].
  split; [apply sha256_Sum_length|].
  split; [rewrite lowercase_hex_length; unfold digest; rewrite sha256_Sum_length; reflexivity|].
  split; [apply lowercase_hex_digits|apply bytes_of_lowercase_hex].
Qed.

(** C3 — when the lookup ends in a store fault the handler goes on to the
    generation client.  Its response is the response of the run in which the
    store answers and holds no row for the fingerprint, and past the lookup
    the two runs do the same things; the fault only adds a log line.  When
    the generation client returns a payload, that payload is the
    response. *)
Theorem C3_lookup_fault_degrades_to_miss s env r w req cause :
  Method r = MethodPost ->
  Decode_PuzzleRequest (Body r) = json.Ok req ->
  query_fault env = Some cause ->
  let h := fingerprint req in
  let faulty := generatePuzzleHandler To_LowerCase s env r w in
  let miss := generatePuzzleHandler To_LowerCase s (no_query_fault env) r (forget h w) in
  fst faulty = fst miss
  /\ (exists tail,
        trace (snd faulty)
        = trace w ++ Query h :: Log (CacheCheckError h (GetFailed h cause))
                       :: Generate req :: tail
        /\ trace (snd miss) = trace w ++ Query h :: Generate req :: tail)
  /\ (forall p,
        generated To_LowerCase (geminiPuzzleService s) env req = Value p ->
        fst faulty = Written "application/json" p).
Proof.
  intros Hm Hd Hq h faulty miss. subst faulty miss.
  rewrite (handler_regenerates _ s env r w req Hm Hd) by (left; congruence).
  rewrite (handler_regenerates _ s (no_query_fault env) r (forget h w) req Hm Hd)
    by (right; apply lookup_delete_eq).
  unfold regenerate, lookup_events.
  rewrite generated_no_query_fault, generation_events_no_query_fault, Hq.
  cbn [query_fault exec_fault time_Now no_query_fault].
  destruct (generation_events_head To_LowerCase (geminiPuzzleService s) env req)
    as [rest ->].
  destruct (generated To_LowerCase (geminiPuzzleService s) env req) as [p|e];
    [destruct (exec_fault env) as [c|]|].
  all: split; [reflexivity|split; [|intros p' [= <-]; reflexivity]].
  all: cbn [snd trace after forget app]; rewrite <- ?app_assoc; cbn [app].
  all: eexists; split; reflexivity.
Qed.

(** C4 — when generation succeeds and the upsert then fails, the handler
    answers with the generated payload all the same: the response is the
    one of the run in which the upsert succeeds.  The table is left as it
    was and the failure is logged. *)
Theorem C4_write_fault_keeps_response s env r w req p cause :
  Method r = MethodPost ->
  Decode_PuzzleRequest (Body r) = json.Ok req ->
  query_fault env <> None \/ cached_puzzles w !! fingerprint req = None ->
  generated To_LowerCase (geminiPuzzleService s) env req = Value p ->
  exec_fault env = Some cause ->
  let h := fingerprint req in
  let failed := generatePuzzleHandler To_LowerCase s env r w in
  fst failed = Written "application/json" p
  /\ status (fst failed) = StatusOK
  /\ fst failed = fst (generatePuzzleHandler To_LowerCase s (no_exec_fault env) r w)
  /\ cached_puzzles (snd failed) = cached_puzzles w
  /\ In (Log (SaveError h (SaveFailed h cause))) (trace (snd failed)).
Proof.
  intros Hm Hd Hmiss Hg He h failed. subst failed.
  rewrite (handler_regenerates _ s env r w req Hm Hd Hmiss).
  rewrite (handler_regenerates _ s (no_exec_fault env) r w req Hm Hd Hmiss).
  unfold regenerate. rewrite generated_no_exec_fault, Hg, He.
  cbn [fst snd exec_fault no_exec_fault status after cached_puzzles trace].
  repeat split. rewrite !in_app_iff. right. right. right. left. reflexivity.
Qed.

Lemma encode_scenario_request : encode_PuzzleRequest scenario_request = scenario_canonical.
Proof. vm_compute. reflexivity. Qed.

(** C5, as amended — for the scenario request with an empty cache, a
    successful generation and an upsert that succeeds, the response is the
    text extracted from the provider's answer, and the table then holds
    exactly one row.  The row is keyed by the fingerprint of the canonical
    serialization of the decoded request, which the upsert carries as
    [request_params] and of which the row holds the store's rendering,
    whatever bytes the caller sent.  The key is the hash of the bytes sent
    when those are the canonical serialization; for other bytes it is not,
    short of a collision of SHA-256. *)
Theorem C5_scenario_row_keyed_by_canonical s env r w t :
  Method r = MethodPost ->
  Decode_PuzzleRequest (Body r) = json.Ok scenario_request ->
  cached_puzzles w = ∅ ->
  exec_fault env = None ->
  generated To_LowerCase (geminiPuzzleService s) env scenario_request = Value t ->
  let out := generatePuzzleHandler To_LowerCase s env r w in
  let key := lowercase_hex (sha256.Sum scenario_canonical) in
  fst out = Written "application/json" t
  /\ (exists row,
        cached_puzzles (snd out) = {[ key := row ]}
        /\ request_params row = jsonb env scenario_canonical
        /\ response_data row = jsonb env t)
  /\ In (Exec key scenario_canonical t (time_Now env)) (trace (snd out))
  /\ (Body r = scenario_canonical ->
      exists row,
        cached_puzzles (snd out) !! lowercase_hex (sha256.Sum (Body r)) = Some row)
  /\ (forall row,
        cached_puzzles (snd out) !! lowercase_hex (sha256.Sum (Body r)) = Some row ->
        Body r = scenario_canonical
        \/ (Body r <> scenario_canonical
            /\ sha256.Sum (Body r) = sha256.Sum scenario_canonical)).
Proof.
  intros Hm Hd Hw He Hg out key. subst out key.
  rewrite (handler_regenerates _ s env r w scenario_request Hm Hd)
    by (right; rewrite Hw; apply lookup_empty).
  unfold regenerate, fingerprint. rewrite Hg, He, encode_scenario_request, Hw.
  cbn [fst snd cached_puzzles trace].
  split; [reflexivity|].
  split; [eexists; split; [apply insert_empty|split; reflexivity]|].
  split.
  { rewrite !in_app_iff. right. right. left. reflexivity. }
  split.
  - intros ->. eexists. apply lookup_insert_eq.
  - intros row H.
    destruct (string_dec (Body r) scenario_canonical) as [E|E]; [left; exact E|].
    right. split; [exact E|].
    destruct (string_dec (sha256.Sum (Body r)) (sha256.Sum scenario_canonical))
      as [E'|E']; [exact E'|].
    rewrite lookup_insert_ne, lookup_empty in H; [discriminate H|].
    intros Hk. apply lowercase_hex_injective in Hk. congruence.
Qed.

(** C6 — a request whose game type is not [crossword] is given the
    word-search wording, template and schema.  No game type is rejected:
    with a key set, the request goes out to the provider, and when the
    provider answers with a candidate its text is returned. *)
Theorem C6_other_gameType_takes_wordsearch_branch svc env req w :
  GameType req <> "crossword" ->
  gameTypeString req = "word search puzzle"
  /\ schemaBytes req = wordsearch_schema
  /\ prompt To_LowerCase req
     = fmt.Sprintf wordsearch_format
         [ difficultyString To_LowerCase req; "word search puzzle";
           Language req; topicsString req ]
  /\ (forall bodyBytes resp t,
        apiKey svc <> EmptyString ->
        apiKey svc <> "YOUR_GEMINI_API_KEY_HERE" ->
        NewRequest_error env (provider_url svc) = None ->
        Do env (provider_url svc)
           (provider_request_body (prompt To_LowerCase req) wordsearch_schema_compact)
        = Answer 200 bodyBytes ->
        Unmarshal_GeminiAPIResponse bodyBytes = json.Ok resp ->
        first_text resp = Some t ->
        let p := prompt To_LowerCase req in
        GeneratePuzzle To_LowerCase svc env req w
        = (Value t,
           after w
             [ Generate req;
               Log (CallingGemini (slice_to (Nat.min (String.length p) 100) p));
               Post (provider_url svc)
                    (provider_request_body p wordsearch_schema_compact);
               Log GeminiReceived ])).
Proof.
  intros Hg.
  assert (E : String.eqb (GameType req) "crossword" = false)
    by (apply String.eqb_neq; exact Hg).
  split; [unfold gameTypeString; rewrite E; reflexivity|].
  split; [unfold schemaBytes; rewrite E; reflexivity|].
  split; [unfold prompt, gameTypeString; rewrite E; reflexivity|].
  intros bodyBytes resp t Hk1 Hk2 Hn Hdo Hu Ht p. subst p.
  unfold GeneratePuzzle, schemaBytes. rewrite E.
  apply String.eqb_neq in Hk1, Hk2. rewrite Hk1, Hk2. cbn [orb].
  destruct schemas_decode as (_ & v & -> & Hv).
  unfold json.Marshal_map. rewrite Hv.
  unfold Marshal_GeminiRequest, geminiReq.
  cbn [GenerationConfig ResponseSchema].
  rewrite (proj2 schemas_compact).
  change (json.encode_struct _)
    with (provider_request_body (prompt To_LowerCase req) wordsearch_schema_compact).
  rewrite Sprintf_url. fold (provider_url svc).
  rewrite Hn, Hdo, Hu, Ht.
  rewrite !emit_start, !after_after. reflexivity.
Qed.

Lemma topicsString_clause req : topicsString req = topics_clause (Topics req).
Proof.
  unfold topicsString, topics_clause.
  destruct (Topics req) as [[|t ts]|]; [reflexivity| |reflexivity].
  change (fmt.Sprintf "about %s" [strings.Join (t :: ts) ", "])
    with ("about " +:+ strings.Join (t :: ts) ", " +:+ EmptyString).
  rewrite append_empty, Join_comma_joined. reflexivity.
Qed.

(** C7 — the prompt is the template of the game type with, where its four
    verbs stand: the difficulty in lower case, the wording of the game
    type, the language, and the topics clause, which is [about] and the
    topics joined by a comma and a space when there are topics and
    [general knowledge] when there are none.  A difficulty of ASCII has no
    upper-case letter left.  That prompt is the text of every request
    [GeneratePuzzle] sends. *)
Theorem C7_prompt_interpolates_topics_clause svc env req :
  prompt To_LowerCase req
  = String nl (tabs 3 "Generate a ")
      +:+ strings.ToLower To_LowerCase (Difficulty req) +:+ " "
      +:+ gameTypeString req +:+ " in " +:+ Language req +:+ "."
      +:+ String nl (tabs 3 EmptyString) +:+ topics_clause (Topics req)
      +:+ String nl (lines (if String.eqb (GameType req) "crossword"
                            then crossword_instructions
                            else wordsearch_instructions))
  /\ (strings.isASCII (Difficulty req) = true ->
      every (fun c => negb (is_upper c))
            (strings.ToLower To_LowerCase (Difficulty req)) = true)
  /\ (forall url body,
        In (Post url body) (generation_events To_LowerCase svc env req) ->
        exists schema,
          body = provider_request_body (prompt To_LowerCase req) schema).
Proof.
  split; [|split].
  - unfold prompt, difficultyString. rewrite topicsString_clause.
    destruct (String.eqb (GameType req) "crossword").
    + apply Sprintf_crossword_format.
    + apply Sprintf_wordsearch_format.
  - intros H. exact (proj1 (ToLower_ASCII To_LowerCase (Difficulty req) H)).
  - intros url body. unfold generation_events, GeneratePuzzle.
    destruct (_ || _); [cbn; intuition discriminate|].
    destruct (json.Unmarshal_map _) as [v|e]; [|cbn; intuition discriminate].
    unfold json.Marshal_map, Marshal_GeminiRequest, geminiReq.
    cbn [GenerationConfig ResponseSchema].
    destruct (json.appendCompact _) as [schema|e]; [|cbn; intuition discriminate].
    change (json.encode_struct _)
      with (provider_request_body (prompt To_LowerCase req) schema).
    destruct (NewRequest_error env _); [cbn; intuition discriminate|].
    intros Hin. exists schema.
    repeat match type of Hin with
    | context [match ?x with _ => _ end] => destruct x
    | context [if ?b then _ else _] => destruct b
    end; cbn in Hin; intuition (try discriminate); congruence.
Qed.

(** C8 — a request whose method is not [POST] is answered with status 405
    and the world is left as it was: no query, no upsert, no call of the
    generation client, no request to the provider and no log line. *)
Theorem C8_other_method_is_405_without_effects s env r w :
  Method r <> MethodPost ->
  fst (generatePuzzleHandler To_LowerCase s env r w)
    = HttpError OnlyPostAllowed StatusMethodNotAllowed
  /\ status (fst (generatePuzzleHandler To_LowerCase s env r w)) = 405%Z
  /\ snd (generatePuzzleHandler To_LowerCase s env r w) = w.
Proof.
  intros Hm. rewrite (handler_not_post _ s env r w Hm). repeat split.
Qed.

(** C9 — two [POST] bodies that decode to the same request are served
    alike: the handler looks the same fingerprint up, that of the request's
    canonical serialization, and the two runs end with the same response
    and the same world. *)
Theorem C9_equal_requests_share_cache_entry s env w r1 r2 req :
  Method r1 = MethodPost ->
  Method r2 = MethodPost ->
  Decode_PuzzleRequest (Body r1) = json.Ok req ->
  Decode_PuzzleRequest (Body r2) = json.Ok req ->
  generatePuzzleHandler To_LowerCase s env r1 w
  = generatePuzzleHandler To_LowerCase s env r2 w
  /\ (exists rest,
        trace (snd (generatePuzzleHandler To_LowerCase s env r1 w))
        = trace w ++ Query (lowercase_hex (sha256.Sum (encode_PuzzleRequest req))) :: rest).
Proof.
  intros Hm1 Hm2 Hd1 Hd2.
  split; [|exact (handler_queries_fingerprint s env r1 w req Hm1 Hd1)].
  destruct (query_fault env) as [cause|] eqn:Hq;
    [|destruct (cached_puzzles w !! fingerprint req) as [row|] eqn:Hrow].
  2: { rewrite (handler_hit _ s env r1 w req row Hm1 Hd1 Hq Hrow).
       rewrite (handler_hit _ s env r2 w req row Hm2 Hd2 Hq Hrow). reflexivity. }
  all: rewrite (handler_regenerates _ s env r1 w req Hm1 Hd1)
         by (first [left; congruence | right; assumption]).
  all: rewrite (handler_regenerates _ s env r2 w req Hm2 Hd2)
         by (first [left; congruence | right; assumption]).
  all: reflexivity.
Qed.


End Claims.

(** * The claims at work

    Each claim is applied to the sample surroundings: the README body (or
    another spelling of the scenario request) is posted to the sample
    server. *)

Lemma sample_generated :
  generated no_case_ranges (geminiPuzzleService sample_server) (sample_env None None)
            scenario_request
  = Value sample_text.
Proof. vm_compute. reflexivity. Qed.

Lemma C1_witness :
  exists added,
    generatePuzzleHandler no_case_ranges sample_server (sample_env None None)
      {| Method := MethodPost; Body := readme_body |} sample_cached
    = (Written "application/json" sample_text, after sample_cached added)
    /\ added = [ Query (fingerprint scenario_request);
                 Log (CacheHit (fingerprint scenario_request));
                 Log (ReturnedCached (fingerprint scenario_request)) ]
    /\ Forall (fun ev => is_generation ev = false) added.
Proof.
  apply (C1_cache_hit_serves_stored_payload no_case_ranges sample_server
           (sample_env None None) {| Method := MethodPost; Body := readme_body |}
           sample_cached scenario_request sample_row).
  - reflexivity.
  - vm_compute. reflexivity.
  - reflexivity.
  - vm_compute. reflexivity.
Defined.

Lemma C2_witness :
  exists key,
    key = lowercase_hex (sha256.Sum (encode_PuzzleRequest scenario_request))
    /\ (exists rest,
          trace (snd (generatePuzzleHandler no_case_ranges sample_server
                        (sample_env None None)
                        {| Method := MethodPost; Body := readme_body |} blank))
          = trace blank ++ Query key :: rest)
    /\ (exists rest,
          trace (snd (generatePuzzleHandler no_case_ranges sample_server
                        (sample_env (Some "connection reset") None)
                        {| Method := MethodPost; Body := reordered_body |} sample_cached))
          = trace sample_cached ++ Query key :: rest)
    /\ String.length (sha256.Sum (encode_PuzzleRequest scenario_request)) = 32
    /\ String.length key = 64
    /\ every is_lowercase_hex_digit key = true
    /\ bytes_of_hex key = sha256.Sum (encode_PuzzleRequest scenario_request).
Proof.
  apply (C2_fingerprint_is_hex_sha256_of_canonical no_case_ranges
           sample_server (sample_env None None)
           {| Method := MethodPost; Body := readme_body |} blank
           sample_server (sample_env (Some "connection reset") None)
           {| Method := MethodPost; Body := reordered_body |} sample_cached
           scenario_request).
  - reflexivity.
  - reflexivity.
  - vm_compute. reflexivity.
  - vm_compute. reflexivity.
Defined.

Lemma C3_witness :
  fst (generatePuzzleHandler no_case_ranges sample_server
         (sample_env (Some "connection reset") None)
         {| Method := MethodPost; Body := readme_body |} sample_cached)
  = Written "application/json" sample_text.
Proof.
  apply (C3_lookup_fault_degrades_to_miss no_case_ranges sample_server
           (sample_env (Some "connection reset") None)
           {| Method := MethodPost; Body := readme_body |} sample_cached
           scenario_request "connection reset").
  - reflexivity.
  - vm_compute. reflexivity.
  - reflexivity.
  - vm_compute. reflexivity.
Defined.

Lemma C4_witness :
  fst (generatePuzzleHandler no_case_ranges sample_server
         (sample_env None (Some "invalid input syntax for type json"))
         {| Method := MethodPost; Body := readme_body |} blank)
  = Written "application/json" sample_text
  /\ cached_puzzles
       (snd (generatePuzzleHandler no_case_ranges sample_server
               (sample_env None (Some "invalid input syntax for type json"))
               {| Method := MethodPost; Body := readme_body |} blank))
     = cached_puzzles blank.
Proof.
  pose proof (C4_write_fault_keeps_response no_case_ranges sample_server
                (sample_env None (Some "invalid input syntax for type json"))
                {| Method := MethodPost; Body := readme_body |} blank
                scenario_request sample_text "invalid input syntax for type json") as H.
  destruct H as (H1 & _ & _ & H4 & _).
  - reflexivity.
  - vm_compute. reflexivity.
  - right. vm_compute. reflexivity.
  - vm_compute. reflexivity.
  - reflexivity.
  - split; [exact H1|exact H4].
Defined.

Lemma C5_witness :
  fst (generatePuzzleHandler no_case_ranges sample_server (sample_env None None)
         {| Method := MethodPost; Body := scenario_canonical |} blank)
  = Written "application/json" sample_text
  /\ exists row,
       cached_puzzles
         (snd (generatePuzzleHandler no_case_ranges sample_server (sample_env None None)
                 {| Method := MethodPost; Body := scenario_canonical |} blank))
       = {[ lowercase_hex (sha256.Sum scenario_canonical) := row ]}
       /\ request_params row = jsonb (sample_env None None) scenario_canonical
       /\ response_data row = jsonb (sample_env None None) sample_text.
Proof.
  pose proof (C5_scenario_row_keyed_by_canonical no_case_ranges sample_server
                (sample_env None None)
                {| Method := MethodPost; Body := scenario_canonical |} blank
                sample_text) as H.
  destruct H as (H1 & H2 & _).
  - reflexivity.
  - vm_compute. reflexivity.
  - reflexivity.
  - reflexivity.
  - vm_compute. reflexivity.
  - split; [exact H1|exact H2].
Defined.

(** C5, counterexample — the claim as it stands fails on the request of README.md: the body
    decodes to the scenario request and is answered with the provider's
    text, but the row that the run creates is not keyed by the hash of the
    bytes that were sent; it is keyed by the hash of the canonical
    serialization. *)
Lemma C5_counterexample :
  Decode_PuzzleRequest readme_body = json.Ok scenario_request
  /\ fst readme_run = Written "application/json" sample_text
  /\ cached_puzzles (snd readme_run) !! lowercase_hex (sha256.Sum readme_body) = None
  /\ (exists row,
        cached_puzzles (snd readme_run) !! lowercase_hex (sha256.Sum scenario_canonical)
        = Some row)
  /\ In (Exec (lowercase_hex (sha256.Sum scenario_canonical)) scenario_canonical
              sample_text 1700000000)
        (trace (snd readme_run))
  /\ lowercase_hex (sha256.Sum readme_body)
     = "0e40abb649b9c431a20d87c117318aa32f398cc693712c3ae0e1e33707a3685d"
  /\ lowercase_hex (sha256.Sum scenario_canonical)
     = "a0881fba48bc1179108379f9e0a8e3bebf065eaebb0737a5751943d92c75e4d8".
Proof.
  split; [vm_compute; reflexivity|].
  split; [vm_compute; reflexivity|].
  split; [vm_compute; reflexivity|].
  split; [eexists; vm_compute; reflexivity|].
  split; [vm_compute; tauto|].
  split; vm_compute; reflexivity.
Qed.

Lemma C6_witness :
  GameType sudoku_request <> "crossword"
  /\ gameTypeString sudoku_request = "word search puzzle"
  /\ exists added,
       GeneratePuzzle no_case_ranges (geminiPuzzleService sample_server)
         (sample_env None None) sudoku_request blank
       = (Value sample_text, after blank added).
Proof.
  assert (Hg : GameType sudoku_request <> "crossword") by discriminate.
  pose proof (C6_other_gameType_takes_wordsearch_branch no_case_ranges
                (geminiPuzzleService sample_server) (sample_env None None)
                sudoku_request blank Hg) as (H1 & _ & _ & H4).
  split; [exact Hg|]. split; [exact H1|].
  eexists. eapply H4.
  - discriminate.
  - discriminate.
  - reflexivity.
  - reflexivity.
  - vm_compute. reflexivity.
  - vm_compute. reflexivity.
Defined.

Lemma C7_witness :
  prompt no_case_ranges sudoku_request
  = String nl (tabs 3 "Generate a hard word search puzzle in en.")
      +:+ String nl (tabs 3 "general knowledge")
      +:+ String nl (lines wordsearch_instructions)
  /\ topics_clause (Topics scenario_request) = "about animals, nature"
  /\ every (fun c => negb (is_upper c))
           (strings.ToLower no_case_ranges (Difficulty sudoku_request)) = true
  /\ exists schema,
       provider_request_body (prompt no_case_ranges scenario_request)
                             crossword_schema_compact
       = provider_request_body (prompt no_case_ranges scenario_request) schema.
Proof.
  pose proof (C7_prompt_interpolates_topics_clause no_case_ranges
                (geminiPuzzleService sample_server) (sample_env None None)
                sudoku_request) as (H1 & H2 & _).
  pose proof (C7_prompt_interpolates_topics_clause no_case_ranges
                (geminiPuzzleService sample_server) (sample_env None None)
                scenario_request) as (_ & _ & H3).
  split; [rewrite H1; vm_compute; reflexivity|].
  split; [reflexivity|].
  split; [apply H2; reflexivity|].
  apply (H3 (provider_url (geminiPuzzleService sample_server))).
  vm_compute. right. right. left. reflexivity.
Defined.

Lemma C8_witness :
  Method {| Method := "GET"; Body := readme_body |} <> MethodPost
  /\ status (fst (generatePuzzleHandler no_case_ranges sample_server
                    (sample_env None None)
                    {| Method := "GET"; Body := readme_body |} sample_cached)) = 405%Z
  /\ snd (generatePuzzleHandler no_case_ranges sample_server (sample_env None None)
            {| Method := "GET"; Body := readme_body |} sample_cached)
     = sample_cached.
Proof.
  assert (Hm : Method {| Method := "GET"; Body := readme_body |} <> MethodPost)
    by discriminate.
  split; [exact Hm|].
  exact (proj2 (C8_other_method_is_405_without_effects no_case_ranges sample_server
                  (sample_env None None) {| Method := "GET"; Body := readme_body |}
                  sample_cached Hm)).
Defined.

Lemma C9_witness :
  Decode_PuzzleRequest readme_body = json.Ok scenario_request
  /\ Decode_PuzzleRequest reordered_body = json.Ok scenario_request
  /\ generatePuzzleHandler no_case_ranges sample_server (sample_env None None)
       {| Method := MethodPost; Body := readme_body |} sample_cached
     = generatePuzzleHandler no_case_ranges sample_server (sample_env None None)
         {| Method := MethodPost; Body := reordered_body |} sample_cached.
Proof.
  assert (H1 : Decode_PuzzleRequest readme_body = json.Ok scenario_request)
    by (vm_compute; reflexivity).
  assert (H2 : Decode_PuzzleRequest reordered_body = json.Ok scenario_request)
    by (vm_compute; reflexivity).
  split; [exact H1|]. split; [exact H2|].
  exact (proj1 (C9_equal_requests_share_cache_entry no_case_ranges sample_server
                  (sample_env None None) sample_cached
                  {| Method := MethodPost; Body := readme_body |}
                  {| Method := MethodPost; Body := reordered_body |}
                  scenario_request eq_refl eq_refl H1 H2)).
Defined.


(** * More of the generation client, the handler and the store

    Properties of the code that the claims do not speak of. *)

Lemma events_of_after (w : World) (table : gmap string Row) (added : list event) :
  events_of w {| cached_puzzles := table; trace := trace w ++ added |} = added.
Proof. unfold events_of. cbn [trace]. apply drop_app_length. Qed.

Lemma events_of_same (w : World) : events_of w w = [].
Proof. unfold events_of. apply drop_all. Qed.

Section More.

Variable To_LowerCase : Z -> Z.

(** Decoding the schema of a request into a map and marshalling the map
    gives the compact document, which [appendCompact] takes as it is. *)
Lemma responseSchema_of (req : PuzzleRequest) :
  exists v,
    json.Unmarshal_map (schemaBytes req) = json.Ok v
    /\ json.encode_interface v = responseSchema req
    /\ json.appendCompact (responseSchema req) = json.Ok (responseSchema req).
Proof.
  unfold schemaBytes, responseSchema.
  destruct (String.eqb (GameType req) "crossword").
  - destruct schemas_decode as ((v & E1 & E2) & _). exists v.
    split; [exact E1|split; [exact E2|exact (proj1 schemas_compact)]].
  - destruct schemas_decode as (_ & v & E1 & E2). exists v.
    split; [exact E1|split; [exact E2|exact (proj2 schemas_compact)]].
Qed.

(** A call of [GeneratePuzzle], branch by branch. *)
Lemma GeneratePuzzle_outcome (svc : GeminiPuzzleService) (env : Env) (req : PuzzleRequest) :
  (generated To_LowerCase svc env req, generation_events To_LowerCase svc env req)
  = if unusable_key (apiKey svc) then (Error ApiKeyUnset, [Generate req])
    else
      match NewRequest_error env (provider_url svc) with
      | Some cause =>
          (Error (NewRequestFailed cause), [Generate req; calling_line To_LowerCase req])
      | None =>
          let r := read_answer (answer_to To_LowerCase svc env req) in
          (r,
           [Generate req; calling_line To_LowerCase req; provider_post To_LowerCase svc req]
           ++ match r with
              | Value _ => [Log GeminiReceived]
              | Error _ => []
              end)
      end.
Proof.
  unfold generated, generation_events, GeneratePuzzle, unusable_key.
  destruct (_ || _); [reflexivity|].
  destruct (responseSchema_of req) as (v & -> & Hv & Hc).
  unfold json.Marshal_map. rewrite Hv.
  unfold Marshal_GeminiRequest, geminiReq.
  cbn [GenerationConfig ResponseSchema]. rewrite Hc.
  change (json.encode_struct _)
    with (provider_request_body (prompt To_LowerCase req) (responseSchema req)).
  rewrite Sprintf_url. fold (provider_url svc).
  destruct (NewRequest_error env (provider_url svc)); [reflexivity|].
  unfold answer_to, read_answer.
  destruct (Do env _ _) as [c|c|code body]; [reflexivity..|].
  destruct (negb _); [reflexivity|].
  destruct (Unmarshal_GeminiAPIResponse body) as [resp|e]; [|reflexivity].
  destruct (first_text resp); reflexivity.
Qed.

Lemma generated_outcome (svc : GeminiPuzzleService) (env : Env) (req : PuzzleRequest) :
  generated To_LowerCase svc env req
  = if unusable_key (apiKey svc) then Error ApiKeyUnset
    else
      match NewRequest_error env (provider_url svc) with
      | Some cause => Error (NewRequestFailed cause)
      | None => read_answer (answer_to To_LowerCase svc env req)
      end.
Proof.
  pose proof (f_equal fst (GeneratePuzzle_outcome svc env req)) as H.
  cbn [fst] in H. rewrite H.
  destruct (unusable_key _); [reflexivity|].
  destruct (NewRequest_error _ _); reflexivity.
Qed.

Lemma generation_events_outcome (svc : GeminiPuzzleService) (env : Env) (req : PuzzleRequest) :
  generation_events To_LowerCase svc env req
  = if unusable_key (apiKey svc) then [Generate req]
    else
      match NewRequest_error env (provider_url svc) with
      | Some cause => [Generate req; calling_line To_LowerCase req]
      | None =>
          [Generate req; calling_line To_LowerCase req; provider_post To_LowerCase svc req]
          ++ match read_answer (answer_to To_LowerCase svc env req) with
             | Value _ => [Log GeminiReceived]
             | Error _ => []
             end
      end.
Proof.
  pose proof (f_equal snd (GeneratePuzzle_outcome svc env req)) as H.
  cbn [snd] in H. rewrite H.
  destruct (unusable_key _); [reflexivity|].
  destruct (NewRequest_error _ _); reflexivity.
Qed.

Lemma not_hit (env : Env) (w : World) (req : PuzzleRequest) :
  ~ hit env w req <->
  query_fault env <> None \/ cached_puzzles w !! fingerprint req = None.
Proof.
  unfold hit. split.
  - intros H. destruct (query_fault env); [left; discriminate|].
    destruct (cached_puzzles w !! fingerprint req) as [row|]; [|right; reflexivity].
    exfalso. apply H. split; [reflexivity|exists row; reflexivity].
  - intros [H|H] [Hq [row Hr]]; congruence.
Qed.

Lemma hit_dec (env : Env) (w : World) (req : PuzzleRequest) :
  hit env w req \/ ~ hit env w req.
Proof.
  unfold hit. destruct (query_fault env); [right; intros [? _]; discriminate|].
  destruct (cached_puzzles w !! fingerprint req) as [row|].
  - left. split; [reflexivity|exists row; reflexivity].
  - right. intros [_ [row ?]]. discriminate.
Qed.

End More.

Section Generation.

Variable To_LowerCase : Z -> Z.

(** X1 — [GeneratePuzzle] refuses to run exactly when the key is empty or
    is the placeholder of the sample configuration; it then does nothing
    else: the prompt is not built into a request, nothing is logged and
    nothing is sent to the provider. *)
Theorem X1_key_guard_stops_before_the_provider svc env req w :
  (generated To_LowerCase svc env req = Error ApiKeyUnset
   <-> apiKey svc = EmptyString \/ apiKey svc = "YOUR_GEMINI_API_KEY_HERE")
  /\ (apiKey svc = EmptyString \/ apiKey svc = "YOUR_GEMINI_API_KEY_HERE" ->
      GeneratePuzzle To_LowerCase svc env req w
      = (Error ApiKeyUnset, after w [Generate req])).
Proof.
  assert (K : unusable_key (apiKey svc) = true
              <-> apiKey svc = EmptyString \/ apiKey svc = "YOUR_GEMINI_API_KEY_HERE").
  { unfold unusable_key. rewrite orb_true_iff, !String.eqb_eq. reflexivity. }
  split.
  - rewrite <- K, generated_outcome.
    destruct (unusable_key (apiKey svc)); [split; reflexivity|].
    split; [|discriminate].
    destruct (NewRequest_error env _); [discriminate|].
    unfold read_answer. destruct (answer_to _ _ _ _) as [c|c|code body]; try discriminate.
    destruct (negb _); [discriminate|].
    destruct (Unmarshal_GeminiAPIResponse body) as [resp|e]; [|discriminate].
    destruct (first_text resp); discriminate.
  - intros H. apply K in H.
    rewrite (after_nil w) at 1. rewrite GeneratePuzzle_frame.
    rewrite generated_outcome, generation_events_outcome, H. reflexivity.
Qed.

(** X2 — the three errors that [GeneratePuzzle] has for its own documents
    never occur: for every request the schema literal parses, the map made
    of it marshals, and the provider request marshals.  An error of
    [GeneratePuzzle] is the key guard or comes from the network or from the
    provider. *)
Theorem X2_own_documents_never_fail svc env req e :
  generated To_LowerCase svc env req = Error e ->
  e = ApiKeyUnset
  \/ (exists cause, e = NewRequestFailed cause)
  \/ (exists cause, e = DoFailed cause)
  \/ (exists cause, e = ReadBodyFailed cause)
  \/ (exists code body, e = StatusNotOK code body /\ code <> 200%Z)
  \/ (exists err body, e = EnvelopeUnmarshalFailed err body)
  \/ (exists body, e = EnvelopeEmpty body).
Proof.
  rewrite generated_outcome.
  destruct (unusable_key _); [intros [= <-]; left; reflexivity|].
  destruct (NewRequest_error env _) as [c|];
    [intros [= <-]; right; left; exists c; reflexivity|].
  unfold read_answer. destruct (answer_to _ _ _ _) as [c|c|code body].
  - intros [= <-]. do 2 right. left. exists c. reflexivity.
  - intros [= <-]. do 3 right. left. exists c. reflexivity.
  - destruct (Z.eqb_spec code 200) as [->|Hc]; cbn [negb].
    + destruct (Unmarshal_GeminiAPIResponse body) as [resp|err].
      * destruct (first_text resp); [discriminate|].
        intros [= <-]. do 6 right. exists body. reflexivity.
      * intros [= <-]. do 5 right. left. exists err, body. reflexivity.
    + intros [= <-]. do 4 right. left. exists code, body. split; [reflexivity|exact Hc].
Qed.

(** X3 — [GeneratePuzzle] calls [client.Do] once at most and never tries
    again: once exactly with a usable key and a request that
    [http.NewRequest] accepts, whatever the provider then answers, and not
    at all otherwise.  The request it hands to the client is a POST to the
    endpoint with the key in the query string, whose body carries the prompt
    and the compact schema of the game type.  (What the client sends for
    that one call, a redirect followed for instance, is the client's.) *)
Theorem X3_one_call_of_the_client svc env req :
  let events := generation_events To_LowerCase svc env req in
  (count is_post events = 1
   <-> unusable_key (apiKey svc) = false
       /\ NewRequest_error env (provider_url svc) = None)
  /\ count is_post events <= 1
  /\ (forall url body,
        In (Post url body) events ->
        url = geminiAPIURL +:+ "?key=" +:+ apiKey svc
        /\ body = provider_request_body (prompt To_LowerCase req)
                    (if String.eqb (GameType req) "crossword"
                     then crossword_schema_compact else wordsearch_schema_compact)).
Proof.
  intros events. subst events. rewrite generation_events_outcome.
  destruct (unusable_key _).
  { cbn. split; [split; [discriminate|intros [? _]; discriminate]|].
    split; [lia|]. intros url body [H|[]]. discriminate. }
  destruct (NewRequest_error env _) as [c|].
  { cbn. split; [split; [discriminate|intros [_ ?]; discriminate]|].
    split; [lia|]. intros url body [H|[H|[]]]; discriminate. }
  assert (E : forall tail : list event,
             Forall (fun ev => is_post ev = false) tail ->
             count is_post ([Generate req; calling_line To_LowerCase req;
                             provider_post To_LowerCase svc req] ++ tail) = 1).
  { intros tail Ht. unfold count. cbn [app List.filter is_post calling_line provider_post].
    cbn [List.length]. f_equal.
    induction Ht as [|ev l Hev _ IH]; [reflexivity|].
    cbn [List.filter]. rewrite Hev. exact IH. }
  assert (T : Forall (fun ev => is_post ev = false)
                match read_answer (answer_to To_LowerCase svc env req) with
                | Value _ => [Log GeminiReceived]
                | Error _ => []
                end).
  { destruct (read_answer _); repeat constructor. }
  rewrite (E _ T).
  split; [split; [intros _; split; reflexivity|reflexivity]|].
  split; [lia|].
  intros url body Hin. cbn [app] in Hin.
  destruct Hin as [H|[H|[H|Hin]]]; try discriminate.
  - unfold provider_post, provider_url, responseSchema in H.
    injection H as <- <-. split; reflexivity.
  - rewrite Forall_forall in T. apply list_elem_of_In, T in Hin. discriminate.
Qed.

(** X4 — [GeneratePuzzle] returns a payload exactly when the provider
    answers its request with status 200 and a body that decodes to an
    envelope with at least one candidate whose content has at least one
    part; the payload is the text of the first part of the first candidate.
    Any other status is an error, whatever the body holds. *)
Theorem X4_payload_is_first_part_of_first_candidate svc env req t :
  generated To_LowerCase svc env req = Value t
  <-> unusable_key (apiKey svc) = false
      /\ NewRequest_error env (provider_url svc) = None
      /\ exists bodyBytes resp,
           Do env (provider_url svc)
              (provider_request_body (prompt To_LowerCase req) (responseSchema req))
           = Answer 200 bodyBytes
           /\ Unmarshal_GeminiAPIResponse bodyBytes = json.Ok resp
           /\ first_text resp = Some t.
Proof.
  rewrite generated_outcome. unfold answer_to, read_answer.
  destruct (unusable_key _); [split; [discriminate|intros [? _]; discriminate]|].
  destruct (NewRequest_error env _) as [c|];
    [split; [discriminate|intros (_ & ? & _); discriminate]|].
  destruct (Do env _ _) as [c|c|code body].
  1,2: split; [discriminate|intros (_ & _ & b & resp & ? & _); discriminate].
  destruct (Z.eqb_spec code 200) as [->|Hc]; cbn [negb].
  - destruct (Unmarshal_GeminiAPIResponse body) as [resp|err] eqn:Hu.
    + destruct (first_text resp) as [t'|] eqn:Ht.
      * split.
        -- intros [= <-]. repeat split. exists body, resp. repeat split; assumption.
        -- intros (_ & _ & b & resp' & [= <-] & Hu' & Ht'). congruence.
      * split; [discriminate|].
        intros (_ & _ & b & resp' & [= <-] & Hu' & Ht'). congruence.
    + split; [discriminate|].
      intros (_ & _ & b & resp' & [= <-] & Hu' & _). congruence.
  - split; [discriminate|].
    intros (_ & _ & b & resp' & [= E _] & _). congruence.
Qed.

End Generation.

Section Runs.

Variable To_LowerCase : Z -> Z.

(** A run, case by case, with the lookup told by [hit]. *)
Lemma handler_run s env r w :
  (Method r <> MethodPost
   /\ generatePuzzleHandler To_LowerCase s env r w
      = (HttpError OnlyPostAllowed StatusMethodNotAllowed, w))
  \/ (Method r = MethodPost
      /\ exists err,
           Decode_PuzzleRequest (Body r) = json.Err err
           /\ generatePuzzleHandler To_LowerCase s env r w
              = (HttpError (InvalidPayload err) StatusBadRequest, w))
  \/ (Method r = MethodPost
      /\ exists req row,
           Decode_PuzzleRequest (Body r) = json.Ok req
           /\ query_fault env = None
           /\ cached_puzzles w !! fingerprint req = Some row
           /\ generatePuzzleHandler To_LowerCase s env r w
              = (Written "application/json" (response_data row),
                 after w [ Query (fingerprint req); Log (CacheHit (fingerprint req));
                           Log (ReturnedCached (fingerprint req)) ]))
  \/ (Method r = MethodPost
      /\ exists req,
           Decode_PuzzleRequest (Body r) = json.Ok req
           /\ ~ hit env w req
           /\ generatePuzzleHandler To_LowerCase s env r w
              = regenerate To_LowerCase s env req w).
Proof.
  destruct (String.eqb_spec (Method r) MethodPost) as [Hm|Hm].
  - right. destruct (Decode_PuzzleRequest (Body r)) as [req|err] eqn:Hd.
    + right. destruct (hit_dec env w req) as [[Hq [row Hrow]]|Hn].
      * left. split; [exact Hm|]. exists req, row. repeat split; try assumption.
        apply handler_hit; assumption.
      * right. split; [exact Hm|]. exists req. repeat split; try assumption.
        apply handler_regenerates; try assumption. apply not_hit. exact Hn.
    + left. split; [exact Hm|]. exists err. split; [reflexivity|].
      apply handler_bad_body; assumption.
  - left. split; [exact Hm|]. apply handler_not_post. exact Hm.
Qed.

(** The response and the events of a run after a lookup without payload. *)
Lemma regenerate_response s env req w :
  fst (regenerate To_LowerCase s env req w)
  = match generated To_LowerCase (geminiPuzzleService s) env req with
    | Value p => Written "application/json" p
    | Error e => HttpError (GenerateFailed e) StatusInternalServerError
    end.
Proof.
  unfold regenerate.
  destruct (generated _ _ _ _) as [p|e]; [destruct (exec_fault env)|]; reflexivity.
Qed.

Lemma regenerate_events s env req w :
  let h := fingerprint req in
  let svc := geminiPuzzleService s in
  let before := lookup_events env req ++ generation_events To_LowerCase svc env req in
  events_of w (snd (regenerate To_LowerCase s env req w))
  = before
    ++ match generated To_LowerCase svc env req with
       | Error e => [Log (GenerateError req e)]
       | Value p =>
           [ Exec h (encode_PuzzleRequest req) p (time_Now env);
             Log (match exec_fault env with
                  | Some cause => SaveError h (SaveFailed h cause)
                  | None => CacheSaved h
                  end);
             Log (NewResponse h) ]
       end.
Proof.
  intros h svc before. subst h svc before. unfold regenerate.
  destruct (generated _ _ _ _) as [p|e]; [destruct (exec_fault env) as [c|]|].
  all: cbn [snd]; unfold after; rewrite events_of_after.
  all: rewrite <- ?app_assoc; reflexivity.
Qed.

Lemma regenerate_trace s env req w :
  trace (snd (regenerate To_LowerCase s env req w))
  = trace w ++ events_of w (snd (regenerate To_LowerCase s env req w)).
Proof.
  unfold regenerate.
  destruct (generated _ _ _ _) as [p|e]; [destruct (exec_fault env) as [c|]|].
  all: cbn [snd]; unfold after; rewrite events_of_after; reflexivity.
Qed.

Lemma no_exec_before s env req h params data now :
  ~ In (Exec h params data now)
       (lookup_events env req
        ++ generation_events To_LowerCase (geminiPuzzleService s) env req).
Proof.
  intros Hin. apply in_app_iff in Hin as [Hin|Hin].
  - unfold lookup_events in Hin.
    destruct (query_fault env); cbn in Hin; intuition discriminate.
  - pose proof (generation_events_no_store To_LowerCase (geminiPuzzleService s) env req)
      as Hns.
    rewrite Forall_forall in Hns. apply list_elem_of_In, Hns in Hin. discriminate.
Qed.

Lemma count_app (p : event -> bool) (a b : list event) :
  count p (a ++ b) = count p a + count p b.
Proof. unfold count. rewrite List.filter_app, length_app. reflexivity. Qed.

Lemma count_cons (p : event -> bool) (ev : event) (l : list event) :
  count p (ev :: l) = (if p ev then 1 else 0) + count p l.
Proof. unfold count. cbn [List.filter]. destruct (p ev); reflexivity. Qed.

Lemma count_nil (p : event -> bool) : count p [] = 0.
Proof. reflexivity. Qed.

Lemma lookup_events_counts env req :
  count is_query (lookup_events env req) = 1
  /\ count is_post (lookup_events env req) = 0
  /\ count is_exec (lookup_events env req) = 0.
Proof. unfold lookup_events. destruct (query_fault env); repeat split. Qed.

Lemma generation_events_counts svc env req :
  count is_query (generation_events To_LowerCase svc env req) = 0
  /\ count is_exec (generation_events To_LowerCase svc env req) = 0
  /\ count is_post (generation_events To_LowerCase svc env req) <= 1
  /\ (forall p, generated To_LowerCase svc env req = Value p ->
                count is_post (generation_events To_LowerCase svc env req) = 1).
Proof.
  rewrite generated_outcome, generation_events_outcome.
  destruct (unusable_key _); [repeat split; cbn; try lia; discriminate|].
  destruct (NewRequest_error env _); [repeat split; cbn; try lia; discriminate|].
  destruct (read_answer _); repeat split; cbn; try lia; discriminate.
Qed.

(** X5 — a POST whose body does not decode to a request is answered with
    status 400, whatever the server, the store and the provider, and
    nothing else happens: no lookup, no call of the generation client, no
    upsert and no log line. *)
Theorem X5_undecodable_body_is_400_without_effects s env r w err :
  Method r = MethodPost ->
  Decode_PuzzleRequest (Body r) = json.Err err ->
  let out := generatePuzzleHandler To_LowerCase s env r w in
  fst out = HttpError (InvalidPayload err) StatusBadRequest
  /\ status (fst out) = 400%Z
  /\ snd out = w
  /\ events_of w (snd out) = [].
Proof.
  intros Hm Hd out. subst out.
  rewrite (handler_bad_body To_LowerCase s env r w err Hm Hd). cbn [fst snd].
  repeat split. apply events_of_same.
Qed.

(** X6 — when the lookup gives no payload and the generation client fails,
    the response is status 500 and nothing is cached: the table is left as
    it was, no upsert is issued, and the failure is logged last. *)
Theorem X6_failed_generation_is_500_and_not_cached s env r w req e :
  Method r = MethodPost ->
  Decode_PuzzleRequest (Body r) = json.Ok req ->
  ~ hit env w req ->
  generated To_LowerCase (geminiPuzzleService s) env req = Error e ->
  let out := generatePuzzleHandler To_LowerCase s env r w in
  fst out = HttpError (GenerateFailed e) StatusInternalServerError
  /\ status (fst out) = 500%Z
  /\ cached_puzzles (snd out) = cached_puzzles w
  /\ count is_exec (events_of w (snd out)) = 0
  /\ exists before,
       trace (snd out) = trace w ++ before ++ [Log (GenerateError req e)].
Proof.
  intros Hm Hd Hn Hg out. subst out.
  rewrite (handler_regenerates To_LowerCase s env r w req Hm Hd)
    by (apply not_hit; exact Hn).
  pose proof (regenerate_events s env req w) as Hev. cbv zeta in Hev.
  rewrite Hev. clear Hev. unfold regenerate. rewrite Hg. cbn [fst snd status after
    cached_puzzles trace].
  split; [reflexivity|]. split; [reflexivity|]. split; [reflexivity|]. split.
  - rewrite !count_app.
    destruct (lookup_events_counts env req) as (_ & _ & ->).
    destruct (generation_events_counts (geminiPuzzleService s) env req) as (_ & -> & _).
    reflexivity.
  - eexists. reflexivity.
Qed.

(** X7 — the status of the response tells how the run went: 405 for a
    method other than POST; 400 for a POST whose body does not decode; 200
    when the lookup finds a row or the generation client returns a payload;
    500 when the lookup finds none and the generation client fails. *)
Theorem X7_status_tells_the_outcome s env r w :
  let resp := fst (generatePuzzleHandler To_LowerCase s env r w) in
  let gen req := generated To_LowerCase (geminiPuzzleService s) env req in
  (status resp = 405%Z <-> Method r <> MethodPost)
  /\ (status resp = 400%Z
      <-> Method r = MethodPost
          /\ exists err, Decode_PuzzleRequest (Body r) = json.Err err)
  /\ (status resp = 200%Z
      <-> Method r = MethodPost
          /\ exists req, Decode_PuzzleRequest (Body r) = json.Ok req
                         /\ (hit env w req \/ exists p, gen req = Value p))
  /\ (status resp = 500%Z
      <-> Method r = MethodPost
          /\ exists req, Decode_PuzzleRequest (Body r) = json.Ok req
                         /\ ~ hit env w req /\ exists e, gen req = Error e).
Proof.
  intros resp gen. subst resp gen.
  destruct (handler_run s env r w)
    as [(Hm & E)|[(Hm & err & Hd & E)|[(Hm & req & row & Hd & Hq & Hrow & E)
                                      |(Hm & req & Hd & Hn & E)]]];
    rewrite E; clear E.
  - cbn [fst status]. unfold StatusMethodNotAllowed.
    split; [split; [intros _; exact Hm|reflexivity]|].
    split; [split; [discriminate|intros [? _]; contradiction]|].
    split; [split; [discriminate|intros [? _]; contradiction]|].
    split; [discriminate|intros [? _]; contradiction].
  - cbn [fst status]. unfold StatusBadRequest.
    split; [split; [discriminate|intros ?; contradiction]|].
    split; [split; [intros _; split; [exact Hm|exists err; exact Hd]|reflexivity]|].
    split; [split; [discriminate|intros (_ & req & ? & _); congruence]|].
    split; [discriminate|intros (_ & req & ? & _); congruence].
  - cbn [fst status]. unfold StatusOK.
    assert (Hh : hit env w req) by (split; [exact Hq|exists row; exact Hrow]).
    split; [split; [discriminate|intros ?; contradiction]|].
    split; [split; [discriminate|intros (_ & err & ?); congruence]|].
    split; [split; [intros _; split; [exact Hm|exists req; split; [exact Hd|left; exact Hh]]
                   |reflexivity]|].
    split; [discriminate|].
    intros (_ & req' & Hd' & Hn' & _). rewrite Hd in Hd'. injection Hd' as <-.
    contradiction.
  - unfold regenerate.
    destruct (generated To_LowerCase (geminiPuzzleService s) env req) as [p|e] eqn:Hg;
      [destruct (exec_fault env)|]; cbn [fst status].
    1,2: unfold StatusOK.
    1,2: split; [split; [discriminate|intros ?; contradiction]|].
    1,2: split; [split; [discriminate|intros (_ & err & ?); congruence]|].
    1,2: split; [split; [intros _; split; [exact Hm|exists req; split;
                              [exact Hd|right; exists p; exact Hg]]|reflexivity]|].
    1,2: split; [discriminate|].
    1,2: intros (_ & req' & Hd' & _ & e' & Hg'); rewrite Hd in Hd';
         injection Hd' as <-; congruence.
    unfold StatusInternalServerError.
    split; [split; [discriminate|intros ?; contradiction]|].
    split; [split; [discriminate|intros (_ & err & ?); congruence]|].
    split; [split; [discriminate|]|].
    { intros (_ & req' & Hd' & [Hh|[p Hp]]); rewrite Hd in Hd'; injection Hd' as <-;
        [contradiction|congruence]. }
    split; [intros _; split; [exact Hm|exists req; repeat split;
                      [exact Hd|exact Hn|exists e; exact Hg]]|reflexivity].
Qed.

End Runs.

Section Store.

Variable To_LowerCase : Z -> Z.

(** X8 — a run never takes a row away, and it changes the table in one
    place at most: a row that differs after the run is the row of the
    request's fingerprint, written by a run that found no payload in the
    cache, generated one and saved it. *)
Theorem X8_run_changes_one_row_at_most s env r w :
  let w' := snd (generatePuzzleHandler To_LowerCase s env r w) in
  (forall k row, cached_puzzles w !! k = Some row ->
                 exists row', cached_puzzles w' !! k = Some row')
  /\ (forall k,
        cached_puzzles w' !! k <> cached_puzzles w !! k ->
        Method r = MethodPost
        /\ exec_fault env = None
        /\ exists req p,
             Decode_PuzzleRequest (Body r) = json.Ok req
             /\ k = fingerprint req
             /\ ~ hit env w req
             /\ generated To_LowerCase (geminiPuzzleService s) env req = Value p).
Proof.
  intros w'. subst w'.
  destruct (handler_run To_LowerCase s env r w)
    as [(Hm & E)|[(Hm & err & Hd & E)|[(Hm & req & row & Hd & Hq & Hrow & E)
                                      |(Hm & req & Hd & Hn & E)]]];
    rewrite E; clear E.
  1,2,3: cbn [snd after cached_puzzles];
         split; [intros k row' H; exists row'; exact H|intros k H; congruence].
  unfold regenerate.
  destruct (generated To_LowerCase (geminiPuzzleService s) env req) as [p|e] eqn:Hg;
    [destruct (exec_fault env) as [c|] eqn:He|]; cbn [snd after cached_puzzles].
  1,3: split; [intros k row' H; exists row'; exact H|intros k H; congruence].
  split.
  - intros k row H. destruct (decide (fingerprint req = k)) as [<-|Hne].
    + rewrite lookup_insert_eq. eexists. reflexivity.
    + rewrite lookup_insert_ne by exact Hne. exists row. exact H.
  - intros k H. destruct (decide (fingerprint req = k)) as [<-|Hne].
    + split; [exact Hm|]. split; [reflexivity|]. exists req, p.
      repeat split; assumption.
    + rewrite lookup_insert_ne in H by exact Hne. congruence.
Qed.

(** A row is never taken away, by one run or by many. *)
Lemma run_keeps_rows s env r w k row :
  cached_puzzles w !! k = Some row ->
  exists row',
    cached_puzzles (snd (generatePuzzleHandler To_LowerCase s env r w)) !! k = Some row'.
Proof.
  intros H.
  destruct (handler_run To_LowerCase s env r w)
    as [(Hm & E)|[(Hm & err & Hd & E)|[(Hm & req & row1 & Hd & Hq & Hrow & E)
                                      |(Hm & req & Hd & Hn & E)]]];
    rewrite E; clear E.
  1,2,3: cbn [snd after cached_puzzles]; exists row; exact H.
  unfold regenerate.
  destruct (generated To_LowerCase (geminiPuzzleService s) env req) as [p|e];
    [destruct (exec_fault env) as [c|]|]; cbn [snd after cached_puzzles].
  1,3: exists row; exact H.
  destruct (decide (fingerprint req = k)) as [<-|Hne].
  - rewrite lookup_insert_eq. eexists. reflexivity.
  - rewrite lookup_insert_ne by exact Hne. exists row. exact H.
Qed.

Lemma handle_all_keeps_rows calls w k row :
  cached_puzzles w !! k = Some row ->
  exists row', cached_puzzles (handle_all To_LowerCase calls w) !! k = Some row'.
Proof.
  revert w row. induction calls as [|[[s env] r] calls IH]; intros w row H.
  - exists row. exact H.
  - cbn [handle_all].
    destruct (run_keeps_rows s env r w k row H) as (row1 & H1).
    exact (IH _ row1 H1).
Qed.

(** The row a run leaves for the request it answered with a payload: the row
    it found, or the store's rendering of what it generated. *)
Lemma answered_row s env r w req ContentType p :
  Decode_PuzzleRequest (Body r) = json.Ok req ->
  fst (generatePuzzleHandler To_LowerCase s env r w) = Written ContentType p ->
  exec_fault env = None ->
  exists row,
    cached_puzzles (snd (generatePuzzleHandler To_LowerCase s env r w)) !! fingerprint req
    = Some row
    /\ (hit env w req -> response_data row = p)
    /\ (~ hit env w req -> response_data row = jsonb env p).
Proof.
  intros Hd Hw He. revert Hw.
  destruct (handler_run To_LowerCase s env r w)
    as [(Hm & E)|[(Hm & err & Hd' & E)|[(Hm & req' & row & Hd' & Hq & Hrow & E)
                                       |(Hm & req' & Hd' & Hn & E)]]];
    rewrite E; clear E; cbn [fst snd]; try discriminate.
  - rewrite Hd in Hd'. injection Hd' as <-. intros [= _ <-].
    exists row. split; [exact Hrow|]. split; [reflexivity|].
    intros Hn. exfalso. apply Hn. split; [exact Hq|exists row; exact Hrow].
  - rewrite Hd in Hd'. injection Hd' as <-. unfold regenerate. rewrite He.
    destruct (generated _ _ _ _) as [p'|e]; cbn [fst snd]; [|discriminate].
    intros [= _ <-]. cbn [cached_puzzles]. eexists.
    split; [apply lookup_insert_eq|]. cbn [response_data].
    split; [intros Hh; contradiction|reflexivity].
Qed.

(** X9 — once a request was answered with a payload by a run whose upsert
    works, its fingerprint has a row and keeps one through whatever runs of
    the handler follow.  A later POST that decodes to the same request, and
    whose lookup works, is served the row that the table then holds: the
    generation client is not called, the provider is not asked and the
    table is not written, whatever server and provider that run meets.
    Right after the answering run the row holds the payload that run found
    in the cache, or the store's rendering of the payload it generated. *)
Theorem X9_answered_request_is_served_from_cache s env r w req ContentType p
    calls s2 env2 r2 :
  Decode_PuzzleRequest (Body r) = json.Ok req ->
  fst (generatePuzzleHandler To_LowerCase s env r w) = Written ContentType p ->
  exec_fault env = None ->
  Method r2 = MethodPost ->
  Decode_PuzzleRequest (Body r2) = json.Ok req ->
  query_fault env2 = None ->
  let w1 := snd (generatePuzzleHandler To_LowerCase s env r w) in
  let w2 := handle_all To_LowerCase calls w1 in
  let out2 := generatePuzzleHandler To_LowerCase s2 env2 r2 w2 in
  exists row,
    cached_puzzles w2 !! fingerprint req = Some row
    /\ fst out2 = Written "application/json" (response_data row)
    /\ cached_puzzles (snd out2) = cached_puzzles w2
    /\ Forall (fun ev => is_generation ev = false) (events_of w2 (snd out2))
    /\ count is_exec (events_of w2 (snd out2)) = 0
    /\ (calls = [] -> hit env w req -> response_data row = p)
    /\ (calls = [] -> ~ hit env w req -> response_data row = jsonb env p).
Proof.
  intros Hd Hw He Hm2 Hd2 Hq2 w1 w2 out2. subst out2.
  destruct (answered_row s env r w req ContentType p Hd Hw He) as (row1 & Hrow1 & Hh & Hn).
  fold w1 in Hrow1.
  assert (Hrow : exists row,
             cached_puzzles w2 !! fingerprint req = Some row
             /\ (calls = [] -> row = row1)).
  { subst w2. destruct calls as [|c calls].
    - exists row1. split; [exact Hrow1|reflexivity].
    - destruct (handle_all_keeps_rows (c :: calls) w1 _ row1 Hrow1) as (row & H).
      exists row. split; [exact H|discriminate]. }
  destruct Hrow as (row & Hrow & Hsame). exists row.
  rewrite (handler_hit To_LowerCase s2 env2 r2 w2 req row Hm2 Hd2 Hq2 Hrow).
  cbn [fst snd]. unfold after. rewrite !events_of_after.
  cbn [cached_puzzles].
  split; [exact Hrow|]. split; [reflexivity|]. split; [reflexivity|].
  split; [repeat constructor|]. split; [reflexivity|].
  split; intros Hc Hx; rewrite (Hsame Hc); auto.
Qed.

(** Where an event of one kind stands in a list made of two. *)
Lemma split_left (p : event -> bool) (a b before rest : list event) (x : event) :
  count p a = 0 -> p x = true ->
  a ++ b = before ++ x :: rest ->
  exists mid, before = a ++ mid /\ b = mid ++ x :: rest.
Proof.
  revert before. induction a as [|y a IH]; intros before Ha Hx H.
  - exists before. split; [reflexivity|exact H].
  - rewrite count_cons in Ha. destruct before as [|z before]; cbn [app] in H.
    + injection H as -> _. rewrite Hx in Ha. discriminate Ha.
    + injection H as -> H.
      destruct (IH before) as (mid & -> & Hb); [lia|exact Hx|exact H|].
      exists mid. split; [reflexivity|exact Hb].
Qed.

Lemma split_right (p : event -> bool) (a b before rest : list event) (x : event) :
  count p b = 0 -> p x = true ->
  a ++ b = before ++ x :: rest ->
  exists mid, a = before ++ x :: mid /\ rest = mid ++ b.
Proof.
  revert a. induction before as [|z before IH]; intros a Hb Hx H.
  - destruct a as [|y a]; cbn [app] in H.
    + subst b. rewrite count_cons, Hx in Hb. discriminate Hb.
    + injection H as -> H. exists a. split; [reflexivity|symmetry; exact H].
  - destruct a as [|y a]; cbn [app] in H.
    + subst b. rewrite count_cons, count_app, count_cons, Hx in Hb. lia.
    + injection H as -> H.
      destruct (IH a Hb Hx H) as (mid & -> & Hr).
      exists mid. split; [reflexivity|exact Hr].
Qed.

(** X10 — a run looks the cache up once at most, calls [client.Do] once at
    most and issues one upsert at most, in that order.  When [client.Do] is
    called, one lookup and no upsert came before it in the run.  When the
    upsert is issued, one lookup and one call of [client.Do] came before it,
    and the run ends with status 200 and serves the payload the upsert
    carries. *)
Theorem X10_lookup_then_client_call_then_upsert s env r w :
  let out := generatePuzzleHandler To_LowerCase s env r w in
  let added := events_of w (snd out) in
  trace (snd out) = trace w ++ added
  /\ count is_query added <= 1
  /\ count is_post added <= 1
  /\ count is_exec added <= 1
  /\ (forall before url body rest,
        added = before ++ Post url body :: rest ->
        count is_query before = 1 /\ count is_exec before = 0)
  /\ (forall before h params data now rest,
        added = before ++ Exec h params data now :: rest ->
        count is_query before = 1 /\ count is_post before = 1
        /\ fst out = Written "application/json" data).
Proof.
  intros out added. subst out added.
  destruct (handler_run To_LowerCase s env r w)
    as [(Hm & E)|[(Hm & err & Hd & E)|[(Hm & req & row & Hd & Hq & Hrow & E)
                                      |(Hm & req & Hd & Hn & E)]]].
  1,2: rewrite E; cbn [fst snd]; rewrite events_of_same, app_nil_r;
       split; [reflexivity|]; rewrite !count_nil;
       split; [lia|split; [lia|split; [lia|]]];
       split; intros before; intros; destruct before; discriminate.
  - rewrite E. cbn [fst snd]. unfold after. rewrite !events_of_after.
    cbn [trace]. rewrite !count_cons, !count_nil. cbn [is_query is_post is_exec].
    split; [reflexivity|split; [lia|split; [lia|split; [lia|]]]].
    split; intros before; intros;
      repeat (destruct before as [|? before]; [discriminate|];
              match goal with H : _ = _ ++ _ |- _ =>
                cbn [app] in H; injection H as _ H end);
      destruct before; discriminate.
  - rewrite E. clear E.
    split; [apply regenerate_trace|].
    pose proof (regenerate_events To_LowerCase s env req w) as Hev. cbv zeta in Hev.
    rewrite Hev, regenerate_response. clear Hev.
    destruct (lookup_events_counts env req) as (Lq & Lp & Le).
    destruct (generation_events_counts To_LowerCase (geminiPuzzleService s) env req)
      as (Gq & Ge & Gp & Gv).
    set (L := lookup_events env req) in *.
    set (G := generation_events To_LowerCase (geminiPuzzleService s) env req) in *.
    assert (Hpost : forall T before url body rest,
              count is_post T = 0 ->
              (L ++ G) ++ T = before ++ Post url body :: rest ->
              count is_query before = 1 /\ count is_exec before = 0).
    { intros T before url body rest HT H.
      apply (split_right is_post) in H as (mid & H & _); [|exact HT|reflexivity].
      apply (split_left is_post) in H as (mid' & -> & HG); [|exact Lp|reflexivity].
      rewrite HG, !count_app in Gq, Ge. rewrite !count_app, Lq, Le. lia. }
    assert (Hexec : forall T before h params data now rest,
              (L ++ G) ++ T = before ++ Exec h params data now :: rest ->
              exists mid, before = (L ++ G) ++ mid
                          /\ T = mid ++ Exec h params data now :: rest).
    { intros T before h params data now rest H.
      apply (split_left is_exec) in H; [exact H| |reflexivity].
      rewrite count_app, Le, Ge. reflexivity. }
    rewrite !count_app, Lq, Lp, Le, Gq, Ge.
    destruct (generated To_LowerCase (geminiPuzzleService s) env req) as [p|e] eqn:Hg.
    + rewrite (Gv p eq_refl), !count_cons, !count_nil.
      cbn [is_query is_post is_exec].
      split; [lia|split; [lia|split; [lia|]]].
      split.
      * intros before url body rest H. apply Hpost in H; [exact H|reflexivity].
      * intros before h params data now rest H.
        apply Hexec in H as (mid & -> & H).
        destruct mid as [|ev mid]; cbn [app] in H.
        -- injection H as _ _ <- _ _.
           rewrite app_nil_r, !count_app, Lq, Lp, Gq, (Gv p eq_refl).
           repeat split.
        -- injection H as _ H.
           repeat (destruct mid as [|? mid]; [discriminate|];
                   cbn [app] in H; injection H as _ H).
           destruct mid; discriminate.
    + rewrite !count_cons, !count_nil. cbn [is_query is_post is_exec].
      split; [lia|split; [lia|split; [lia|]]].
      split.
      * intros before url body rest H. apply Hpost in H; [exact H|reflexivity].
      * intros before h params data now rest H.
        apply Hexec in H as (mid & -> & H).
        destruct mid as [|ev mid]; cbn [app] in H; [discriminate|].
        injection H as _ H. destruct mid; discriminate.
Qed.

(** X11 — after a run that found no payload in the cache, generated one and
    saved it, the table is the table of before with one row put under the
    request's fingerprint: the row made by the upsert that carried the
    canonical serialization and the payload that was served, of which it
    holds the store's rendering.  Every other row is untouched; a row that
    was there under that fingerprint, which a faulting lookup did not show,
    is replaced. *)
Theorem X11_saved_row_holds_what_was_served s env r w req p :
  Method r = MethodPost ->
  Decode_PuzzleRequest (Body r) = json.Ok req ->
  ~ hit env w req ->
  generated To_LowerCase (geminiPuzzleService s) env req = Value p ->
  exec_fault env = None ->
  let out := generatePuzzleHandler To_LowerCase s env r w in
  fst out = Written "application/json" p
  /\ In (Exec (fingerprint req) (encode_PuzzleRequest req) p (time_Now env))
        (events_of w (snd out))
  /\ (exists row,
        cached_puzzles (snd out) = <[fingerprint req := row]> (cached_puzzles w)
        /\ request_params row = jsonb env (encode_PuzzleRequest req)
        /\ response_data row = jsonb env p)
  /\ (forall k, k <> fingerprint req ->
                cached_puzzles (snd out) !! k = cached_puzzles w !! k).
Proof.
  intros Hm Hd Hn Hg He out. subst out.
  rewrite (handler_regenerates To_LowerCase s env r w req Hm Hd)
    by (apply not_hit; exact Hn).
  pose proof (regenerate_events To_LowerCase s env req w) as Hev. cbv zeta in Hev.
  rewrite Hev. clear Hev.
  unfold regenerate. rewrite Hg, He. cbn [fst snd cached_puzzles].
  split; [reflexivity|].
  split; [apply in_app_iff; right; left; reflexivity|].
  split; [eexists; split; [reflexivity|split; reflexivity]|].
  intros k Hk. apply lookup_insert_ne. congruence.
Qed.

End Store.

(** X12 — what [SaveCachedPuzzle] stores under a hash, [GetCachedPuzzle]
    finds under that hash, when neither statement fails: it returns the
    store's rendering of the response data that was saved, which need not
    be the bytes that were saved.  What it returns for any other hash is
    what it returned before the save. *)
Theorem X12_saved_puzzle_is_found env1 env2 h params data w :
  exec_fault env1 = None ->
  query_fault env2 = None ->
  let saved := SaveCachedPuzzle env1 h params data w in
  fst saved = None
  /\ fst (GetCachedPuzzle env2 h (snd saved)) = (Some (jsonb env1 data), None)
  /\ (forall h', h' <> h ->
        fst (GetCachedPuzzle env2 h' (snd saved)) = fst (GetCachedPuzzle env2 h' w)).
Proof.
  intros He Hq saved. subst saved. unfold SaveCachedPuzzle, GetCachedPuzzle.
  rewrite He, Hq. cbn [fst snd emit cached_puzzles trace].
  rewrite lookup_insert_eq. repeat split.
  intros h' Hne. rewrite lookup_insert_ne by congruence.
  destruct (cached_puzzles w !! h'); reflexivity.
Qed.

(** X13 — the table holds one row for a hash: a save under a hash that has
    a row replaces the row, so of two saves under one hash the table keeps
    the second only.  A statement that fails leaves the table as it was, and
    so does every lookup. *)
Theorem X13_upsert_keeps_the_last_row env1 env2 env h p1 d1 p2 d2 w :
  (exec_fault env1 = None -> exec_fault env2 = None ->
   cached_puzzles (snd (SaveCachedPuzzle env2 h p2 d2
                          (snd (SaveCachedPuzzle env1 h p1 d1 w))))
   = cached_puzzles (snd (SaveCachedPuzzle env2 h p2 d2 w)))
  /\ (exec_fault env <> None ->
      cached_puzzles (snd (SaveCachedPuzzle env h p1 d1 w)) = cached_puzzles w
      /\ fst (SaveCachedPuzzle env h p1 d1 w) <> None)
  /\ cached_puzzles (snd (GetCachedPuzzle env h w)) = cached_puzzles w.
Proof.
  split; [|split].
  - intros H1 H2. unfold SaveCachedPuzzle. rewrite H1, H2.
    cbn [snd emit cached_puzzles trace]. apply insert_insert_eq.
  - intros H. unfold SaveCachedPuzzle.
    destruct (exec_fault env); [|congruence]. split; [reflexivity|discriminate].
  - unfold GetCachedPuzzle. destruct (query_fault env); [reflexivity|].
    destruct (cached_puzzles w !! h); reflexivity.
Qed.

(** * Bringing the server up *)

Lemma in_snoc {A : Type} (x y : A) (l : list A) : In x (l ++ [y]) <-> In x l \/ x = y.
Proof. rewrite in_app_iff. cbn. intuition congruence. Qed.

(** A run of [main], case by case. *)
Lemma main_run (host : Host) :
  let t0 := match dotenv_error host with
            | Some _ => [Println NoDotenvFile]
            | None => []
            end in
  let url := Getenv host "DATABASE_URL" in
  let key := Getenv host "GEMINI_API_KEY" in
  let port := if String.eqb (Getenv host "PORT") EmptyString then "8080"%string
              else Getenv host "PORT" in
  (url = EmptyString /\ main host = (Exited 1, t0 ++ [Fatal DatabaseUrlUnset]))
  \/ (url <> EmptyString /\ key = EmptyString
      /\ main host = (Exited 1, t0 ++ [Fatal GeminiKeyUnset]))
  \/ (url <> EmptyString /\ key <> EmptyString
      /\ exists cause,
           sql_Open host url = Some cause
           /\ main host
              = (Exited 1, t0 ++ [Open url; Fatal (DBServiceFailed (OpenFailed cause))]))
  \/ (url <> EmptyString /\ key <> EmptyString /\ sql_Open host url = None
      /\ exists cause,
           db_Ping host url = Some cause
           /\ main host
              = (Exited 1,
                 t0 ++ [Open url; Ping url; Fatal (DBServiceFailed (PingFailed cause))]))
  \/ (url <> EmptyString /\ key <> EmptyString /\ sql_Open host url = None
      /\ db_Ping host url = None
      /\ main host
         = (Exited 1,
            t0 ++ [ Open url; Ping url; Println Connected;
                    HandleFunc "/generate-puzzle"
                      {| geminiPuzzleService := NewGeminiPuzzleService key |};
                    Println (Starting port);
                    Listen (":" +:+ port);
                    Fatal (ServeFailed (ListenAndServe host (":" +:+ port))) ])).
Proof.
  intros t0 url key port. subst t0 url key port. unfold main, NewDBService, log_Fatal.
  destruct (String.eqb_spec (Getenv host "DATABASE_URL") EmptyString) as [Hu|Hu];
    [left; split; [exact Hu|reflexivity]|right].
  destruct (String.eqb_spec (Getenv host "GEMINI_API_KEY") EmptyString) as [Hk|Hk];
    [left; repeat split; assumption|right].
  destruct (sql_Open host _) as [c|] eqn:Ho.
  { left. repeat split; try assumption. exists c. split; [reflexivity|].
    rewrite <- app_assoc. reflexivity. }
  right. destruct (db_Ping host _) as [c|] eqn:Hp.
  { left. repeat split; try assumption. exists c. split; [reflexivity|].
    rewrite <- !app_assoc. reflexivity. }
  right. repeat split; try assumption.
  cbn [defer]. rewrite <- !app_assoc. reflexivity.
Qed.

(** X14 — [main] goes no further than its first checks when
    [DATABASE_URL] or [GEMINI_API_KEY] is unset or empty: the process exits
    with status 1, and it has neither opened the database nor registered
    the handler nor listened. *)
Theorem X14_startup_needs_both_variables host :
  Getenv host "DATABASE_URL" = EmptyString
  \/ Getenv host "GEMINI_API_KEY" = EmptyString ->
  fst (main host) = Exited 1
  /\ forall ev,
       In ev (snd (main host)) ->
       ev = Println NoDotenvFile
       \/ ev = Fatal DatabaseUrlUnset \/ ev = Fatal GeminiKeyUnset.
Proof.
  intros H.
  destruct (main_run host)
    as [(Hu & E)|[(Hu & Hk & E)|[(Hu & Hk & _)|[(Hu & Hk & _)|(Hu & Hk & _)]]]];
    try (destruct H; contradiction).
  all: rewrite E; cbn [fst snd]; split; [reflexivity|].
  all: intros ev Hin; apply in_snoc in Hin as [Hin | ->]; [|tauto].
  all: destruct (dotenv_error host); cbn in Hin; intuition congruence.
Qed.

(** X15 — the server listens exactly when both variables are set and the
    database opens and answers a ping.  It listens on the port of [PORT],
    or on 8080 when [PORT] is unset or empty, and the handler it has
    registered, under [/generate-puzzle], holds the key of
    [GEMINI_API_KEY], which is not empty: in a server that [main] starts
    the key guard of [GeneratePuzzle] stops a call only when the key is the
    placeholder. *)
Theorem X15_server_listens_with_the_key_of_the_environment To_LowerCase host :
  let t := snd (main host) in
  let url := Getenv host "DATABASE_URL" in
  let key := Getenv host "GEMINI_API_KEY" in
  ((exists addr, In (Listen addr) t)
   <-> url <> EmptyString /\ key <> EmptyString
       /\ sql_Open host url = None /\ db_Ping host url = None)
  /\ (forall addr,
        In (Listen addr) t ->
        addr = ":" +:+ (if String.eqb (Getenv host "PORT") EmptyString then "8080"
                        else Getenv host "PORT"))
  /\ (forall pattern server,
        In (HandleFunc pattern server) t ->
        pattern = "/generate-puzzle"
        /\ apiKey (geminiPuzzleService server) = key
        /\ key <> EmptyString
        /\ forall env req,
             generated To_LowerCase (geminiPuzzleService server) env req
               = Error ApiKeyUnset
             <-> key = "YOUR_GEMINI_API_KEY_HERE").
Proof.
  intros t url key. subst t url key.
  destruct (main_run host)
    as [(Hu & E)|[(Hu & Hk & E)|[(Hu & Hk & c & Ho & E)|[(Hu & Hk & Ho & c & Hp & E)
                                                        |(Hu & Hk & Ho & Hp & E)]]]];
    rewrite E; clear E; cbn [snd].
  1,2,3,4:
    split; [split; [intros [addr Hin]; exfalso|intros (? & ? & ? & ?); congruence]
           |split; [intros addr Hin; exfalso|intros pattern server Hin; exfalso]];
    apply in_app_iff in Hin as [Hin|Hin];
    try (destruct (dotenv_error host); cbn in Hin; intuition discriminate);
    cbn in Hin; intuition discriminate.
  split; [split; [intros _; repeat split; assumption|]|split].
  - intros _. eexists. apply in_app_iff. right. cbn. do 5 right. left. reflexivity.
  - intros addr Hin. apply in_app_iff in Hin as [Hin|Hin].
    + destruct (dotenv_error host); cbn in Hin; intuition discriminate.
    + cbn in Hin. intuition (try discriminate). congruence.
  - intros pattern server Hin. apply in_app_iff in Hin as [Hin|Hin].
    + destruct (dotenv_error host); cbn in Hin; intuition discriminate.
    + cbn in Hin.
      destruct Hin as [Hin|[Hin|[Hin|[Hin|[Hin|[Hin|[Hin|[]]]]]]]]; try discriminate.
      injection Hin as <- <-. cbn [geminiPuzzleService NewGeminiPuzzleService apiKey].
      repeat split; try assumption.
      * rewrite generated_outcome. unfold unusable_key. cbn [apiKey NewGeminiPuzzleService].
        destruct (String.eqb_spec (Getenv host "GEMINI_API_KEY") EmptyString);
          [contradiction|].
        destruct (String.eqb_spec (Getenv host "GEMINI_API_KEY")
                    "YOUR_GEMINI_API_KEY_HERE"); [intros _; assumption|].
        cbn [orb]. destruct (NewRequest_error env _); [intros H; discriminate H|].
        unfold read_answer. destruct (answer_to _ _ _ _) as [?|?|code body];
          try (intros H; discriminate H).
        destruct (negb _); [intros H; discriminate H|].
        destruct (Unmarshal_GeminiAPIResponse body) as [resp|?];
          [|intros H; discriminate H].
        destruct (first_text resp); intros H; discriminate H.
      * intros Hp'. rewrite generated_outcome. unfold unusable_key. cbn [apiKey NewGeminiPuzzleService].
        rewrite Hp'. reflexivity.
Qed.

(** X16 — [main] never returns: a run that comes to an end, the listener
    serving until it fails, ends in [log.Fatal], that is in an exit with
    status 1, also when the server had been listening.  So the deferred
    [Close] never runs: a pool that was opened is not closed before the
    process ends. *)
Theorem X16_main_exits_and_never_closes_the_pool host :
  fst (main host) = Exited 1
  /\ (exists t f, snd (main host) = t ++ [Fatal f])
  /\ (forall connStr, ~ In (CloseDB connStr) (snd (main host)))
  /\ ~ In (Println Closing) (snd (main host)).
Proof.
  destruct (main_run host)
    as [(Hu & E)|[(Hu & Hk & E)|[(Hu & Hk & c & Ho & E)|[(Hu & Hk & Ho & c & Hp & E)
                                                        |(Hu & Hk & Ho & Hp & E)]]]];
    rewrite E; clear E; cbn [fst snd].
  all: split; [reflexivity|split; [|split]].
  all: try (intros connStr Hin); try (intros Hin).
  all: try (apply in_app_iff in Hin as [Hin|Hin];
            [destruct (dotenv_error host); cbn in Hin; intuition discriminate
            |cbn in Hin; intuition discriminate]).
  - eexists _, _. reflexivity.
  - eexists _, _. reflexivity.
  - eexists (_ ++ [_]), _. rewrite <- app_assoc. reflexivity.
  - eexists (_ ++ [_; _]), _. rewrite <- app_assoc. reflexivity.
  - eexists (_ ++ [_; _; _; _; _; _]), _. rewrite <- app_assoc. reflexivity.
Qed.

(** * The log line of a call *)

Lemma length_append (s t : string) :
  String.length (s +:+ t) = String.length s + String.length t.
Proof.
  induction s as [|c r IH]; [reflexivity|].
  rewrite append_cons. cbn [String.length]. rewrite IH. reflexivity.
Qed.

Lemma slice_to_length (n : nat) (s : string) :
  n <= String.length s -> String.length (slice_to n s) = n.
Proof.
  revert s. induction n as [|n IH]; intros s H; [reflexivity|].
  destruct s as [|c r]; cbn [String.length] in H; [lia|].
  cbn [slice_to String.length]. rewrite IH by lia. reflexivity.
Qed.

Lemma slice_to_from (n : nat) (s : string) : s = slice_to n s +:+ slice_from n s.
Proof.
  revert s. induction n as [|n IH]; intros s; [reflexivity|].
  destruct s as [|c r]; [reflexivity|].
  cbn [slice_to slice_from]. rewrite append_cons, <- IH. reflexivity.
Qed.

Lemma min_is_Nat_min (a b : nat) : min a b = Nat.min a b.
Proof. unfold min. destruct (Nat.ltb_spec a b); lia. Qed.

(** Every prompt is longer than the part of it that is logged. *)
Lemma prompt_length (To_LowerCase : Z -> Z) (req : PuzzleRequest) :
  100 < String.length (prompt To_LowerCase req).
Proof.
  unfold prompt.
  destruct (String.eqb (GameType req) "crossword").
  - rewrite Sprintf_crossword_format, !length_append.
    assert (E : 100 < String.length (String nl (lines crossword_instructions)))
      by (apply Nat.ltb_lt; vm_compute; reflexivity).
    lia.
  - rewrite Sprintf_wordsearch_format, !length_append.
    assert (E : 100 < String.length (String nl (lines wordsearch_instructions)))
      by (apply Nat.ltb_lt; vm_compute; reflexivity).
    lia.
Qed.

(** X17 — the line that [GeneratePuzzle] logs before it calls the provider
    holds the first 100 bytes of the prompt, for every request: [min] is
    the smaller of its operands, every prompt is longer than 100 bytes, so
    the slice expression stays within the prompt and cuts it at 100. *)
Theorem X17_log_line_holds_the_first_100_bytes To_LowerCase req :
  let p := prompt To_LowerCase req in
  (forall a b, min a b = Nat.min a b /\ min a b <= a /\ min a b <= b)
  /\ min (String.length p) 100 = 100
  /\ calling_line To_LowerCase req = Log (CallingGemini (slice_to 100 p))
  /\ String.length (slice_to 100 p) = 100
  /\ p = slice_to 100 p +:+ slice_from 100 p.
Proof.
  intros p. pose proof (prompt_length To_LowerCase req) as L. fold p in L.
  split; [intros a b; rewrite min_is_Nat_min; lia|].
  split; [rewrite min_is_Nat_min; lia|].
  split; [unfold calling_line; fold p; replace (Nat.min (String.length p) 100) with 100
                                         by lia; reflexivity|].
  split; [apply slice_to_length; lia|apply slice_to_from].
Qed.

(** * [Marshal] and the decoder

    What [Marshal] writes the decoder reads back. *)

Lemma append_append (a b c : string) : (a +:+ b) +:+ c = a +:+ (b +:+ c).
Proof.
  induction a as [|x a IH]; [reflexivity|].
  rewrite !append_cons, IH. reflexivity.
Qed.

Lemma chr_code (c : ascii) : chr (code c) = c.
Proof. unfold chr, code. rewrite N2Z.id. apply ascii_N_embedding. Qed.

Lemma code_range (c : ascii) : (0 <= code c < 256)%Z.
Proof.
  unfold code. pose proof (N_ascii_bounded c) as H. lia.
Qed.

(** ** String literals *)

Module literal_facts.
Import json.

Lemma plain_byte_stepped_over (c : ascii) :
  htmlSafeSet (code c) = true \/ (0x80 <=? code c)%Z = true ->
  stepped_over (String c EmptyString).
Proof.
  intros H tail.
  destruct c as [[] [] [] [] [] [] [] []];
    try (exfalso; destruct H as [H|H]; vm_compute in H; discriminate H);
    reflexivity.
Qed.

Lemma escape_ascii_stepped_over (c : ascii) :
  (code c <? utf8.RuneSelf)%Z = true ->
  htmlSafeSet (code c) = false ->
  stepped_over (escape_ascii (code c)).
Proof.
  intros H1 H2 tail.
  destruct c as [[] [] [] [] [] [] [] []];
    try (exfalso; vm_compute in H1; discriminate H1);
    try (exfalso; vm_compute in H2; discriminate H2).
  all: set (e := escape_ascii _); vm_compute in e; subst e.
  all: rewrite ?append_cons; change (EmptyString +:+ tail) with tail; cbn.
  all: destruct (scan_string InString tail) as [[lit rest]|]; reflexivity.
Qed.

End literal_facts.

(** ** UTF-8 *)

Module utf8_facts.
Import utf8.
Local Open Scope Z_scope.

Lemma land_lor_disjoint (x y k : Z) :
  0 <= k -> 0 <= y < 2 ^ k -> Z.land (x * 2 ^ k) y = 0.
Proof.
  intros Hk Hy. apply Z.bits_inj'. intros n Hn.
  rewrite Z.land_spec, Z.bits_0, <- Z.shiftl_mul_pow2 by exact Hk.
  destruct (Z.ltb_spec n k) as [L|L].
  - rewrite Z.shiftl_spec_low by exact L. reflexivity.
  - destruct (Z.eq_dec y 0) as [->|Hy0]; [rewrite Z.bits_0; apply andb_false_r|].
    rewrite (Z.bits_above_log2 y n); [apply andb_false_r|lia|].
    apply Z.lt_le_trans with k; [|exact L].
    apply Z.log2_lt_pow2; lia.
Qed.

Lemma lor_add (x y k : Z) :
  0 <= k -> 0 <= y < 2 ^ k -> Z.lor (x * 2 ^ k) y = x * 2 ^ k + y.
Proof.
  intros Hk Hy. pose proof (land_lor_disjoint x y k Hk Hy) as H.
  rewrite <- (Z.lxor_lor _ _ H). symmetry. apply Z.add_nocarry_lxor. exact H.
Qed.

Lemma land_mask (x k : Z) : 0 <= k -> Z.land x (2 ^ k - 1) = x mod 2 ^ k.
Proof.
  intros Hk. rewrite <- Z.land_ones by exact Hk. f_equal.
  rewrite Z.ones_equiv. lia.
Qed.

Ltac to_arith :=
  change 0x1F with (2 ^ 5 - 1); change 0x0F with (2 ^ 4 - 1);
  change 0x07 with (2 ^ 3 - 1); change 0x3F with (2 ^ 6 - 1);
  rewrite ?land_mask by lia;
  rewrite ?Z.shiftl_mul_pow2, ?Z.shiftr_div_pow2 by lia.

Lemma Decode2 (c0 c1 : ascii) (r1 : string) :
  two_bytes c0 c1 ->
  DecodeRune (String c0 (String c1 r1))
  = ((code c0 - 0xC0) * 64 + (code c1 - 0x80), 2%nat).
Proof.
  intros (H0 & H1). unfold DecodeRune, first, RuneSelf.
  repeat match goal with
  | |- context [?a <? ?b] => destruct (Z.ltb_spec a b); try lia
  | |- context [?a <=? ?b] => destruct (Z.leb_spec a b); try lia
  | |- context [?a =? ?b] => destruct (Z.eqb_spec a b); try lia
  end.
  cbn [orb Nat.leb]. f_equal. to_arith.
  replace (code c0 mod 2 ^ 5) with (code c0 - 0xC0)
    by (change (2 ^ 5) with 32; Z.div_mod_to_equations; lia).
  replace (code c1 mod 2 ^ 6) with (code c1 - 0x80)
    by (change (2 ^ 6) with 64; Z.div_mod_to_equations; lia).
  rewrite lor_add by (change (2 ^ 6) with 64; lia). reflexivity.
Qed.


Ltac compare_bytes :=
  repeat match goal with
  | |- context [?a <? ?b] => destruct (Z.ltb_spec a b); try lia
  | |- context [?a <=? ?b] => destruct (Z.leb_spec a b); try lia
  | |- context [?a =? ?b] => destruct (Z.eqb_spec a b); try lia
  end.

Lemma Decode3 (c0 c1 c2 : ascii) (r2 : string) :
  three_bytes c0 c1 c2 ->
  DecodeRune (String c0 (String c1 (String c2 r2)))
  = ((code c0 - 0xE0) * 4096 + (code c1 - 0x80) * 64 + (code c2 - 0x80), 3%nat).
Proof.
  intros (H0 & H1 & Ha & Hb & H2). unfold DecodeRune, first, cont, RuneSelf.
  compare_bytes.
  all: cbn [orb andb negb Nat.leb]. all: f_equal. all: to_arith.
  all: replace (code c0 mod 2 ^ 4) with (code c0 - 0xE0)
         by (change (2 ^ 4) with 16; Z.div_mod_to_equations; lia).
  all: replace (code c1 mod 2 ^ 6) with (code c1 - 0x80)
         by (change (2 ^ 6) with 64; Z.div_mod_to_equations; lia).
  all: replace (code c2 mod 2 ^ 6) with (code c2 - 0x80)
         by (change (2 ^ 6) with 64; Z.div_mod_to_equations; lia).
  all: rewrite (lor_add _ ((code c1 - 0x80) * 2 ^ 6) 12)
         by (change (2 ^ 6) with 64; change (2 ^ 12) with 4096; lia).
  all: replace ((code c0 - 0xE0) * 2 ^ 12 + (code c1 - 0x80) * 2 ^ 6)
         with (((code c0 - 0xE0) * 64 + (code c1 - 0x80)) * 2 ^ 6)
         by (change (2 ^ 6) with 64; change (2 ^ 12) with 4096; lia).
  all: rewrite lor_add by (change (2 ^ 6) with 64; lia).
  all: change (2 ^ 6) with 64; lia.
Qed.

Lemma Decode4 (c0 c1 c2 c3 : ascii) (r3 : string) :
  four_bytes c0 c1 c2 c3 ->
  DecodeRune (String c0 (String c1 (String c2 (String c3 r3))))
  = ((code c0 - 0xF0) * 262144 + (code c1 - 0x80) * 4096
     + (code c2 - 0x80) * 64 + (code c3 - 0x80), 4%nat).
Proof.
  intros (H0 & H1 & Ha & Hb & H2 & H3). unfold DecodeRune, first, cont, RuneSelf.
  compare_bytes.
  all: cbn [orb andb negb Nat.leb]. all: f_equal. all: to_arith.
  all: replace (code c0 mod 2 ^ 3) with (code c0 - 0xF0)
         by (change (2 ^ 3) with 8; Z.div_mod_to_equations; lia).
  all: replace (code c1 mod 2 ^ 6) with (code c1 - 0x80)
         by (change (2 ^ 6) with 64; Z.div_mod_to_equations; lia).
  all: replace (code c2 mod 2 ^ 6) with (code c2 - 0x80)
         by (change (2 ^ 6) with 64; Z.div_mod_to_equations; lia).
  all: replace (code c3 mod 2 ^ 6) with (code c3 - 0x80)
         by (change (2 ^ 6) with 64; Z.div_mod_to_equations; lia).
  all: rewrite (lor_add _ ((code c1 - 0x80) * 2 ^ 12) 18)
         by (change (2 ^ 12) with 4096; change (2 ^ 18) with 262144; lia).
  all: replace ((code c0 - 0xF0) * 2 ^ 18 + (code c1 - 0x80) * 2 ^ 12)
         with (((code c0 - 0xF0) * 64 + (code c1 - 0x80)) * 2 ^ 12)
         by (change (2 ^ 12) with 4096; change (2 ^ 18) with 262144; lia).
  all: rewrite (lor_add _ ((code c2 - 0x80) * 2 ^ 6) 12)
         by (change (2 ^ 6) with 64; change (2 ^ 12) with 4096; lia).
  all: replace (((code c0 - 0xF0) * 64 + (code c1 - 0x80)) * 2 ^ 12
                + (code c2 - 0x80) * 2 ^ 6)
         with ((((code c0 - 0xF0) * 64 + (code c1 - 0x80)) * 64 + (code c2 - 0x80))
               * 2 ^ 6)
         by (change (2 ^ 6) with 64; change (2 ^ 12) with 4096; lia).
  all: rewrite lor_add by (change (2 ^ 6) with 64; lia).
  all: change (2 ^ 6) with 64; lia.
Qed.


Ltac div_mod_facts :=
  change (2 ^ 3) with 8 in *; change (2 ^ 4) with 16 in *; change (2 ^ 5) with 32 in *;
  change (2 ^ 6) with 64 in *; change (2 ^ 12) with 4096 in *;
  change (2 ^ 18) with 262144 in *;
  Z.div_mod_to_equations; lia.

Lemma Encode2 (c0 c1 : ascii) :
  two_bytes c0 c1 ->
  EncodeRune ((code c0 - 0xC0) * 64 + (code c1 - 0x80))
  = String c0 (String c1 EmptyString).
Proof.
  intros (H0 & H1). unfold EncodeRune, MaxRune.
  set (r := (code c0 - 0xC0) * 64 + (code c1 - 0x80)).
  assert (Hr : 0x80 <= r <= 0x7FF) by (subst r; lia).
  compare_bytes. cbn [andb orb].
  change 0xC0 with (3 * 2 ^ 6). change 0x80 with (2 * 2 ^ 6) at 1.
  to_arith.
  rewrite !lor_add by div_mod_facts.
  replace (3 * 2 ^ 6 + r / 2 ^ 6) with (code c0) by (subst r; div_mod_facts).
  replace (2 * 2 ^ 6 + r mod 2 ^ 6) with (code c1) by (subst r; div_mod_facts).
  cbn [of_bytes]. rewrite !chr_code. reflexivity.
Qed.

Lemma Encode3 (c0 c1 c2 : ascii) :
  three_bytes c0 c1 c2 ->
  EncodeRune ((code c0 - 0xE0) * 4096 + (code c1 - 0x80) * 64 + (code c2 - 0x80))
  = String c0 (String c1 (String c2 EmptyString)).
Proof.
  intros (H0 & H1 & Ha & Hb & H2). unfold EncodeRune, enc3, MaxRune.
  set (r := (code c0 - 0xE0) * 4096 + (code c1 - 0x80) * 64 + (code c2 - 0x80)).
  assert (Hr : 0x800 <= r <= 0xFFFF /\ ~ (0xD800 <= r <= 0xDFFF)) by (subst r; lia).
  compare_bytes. all: cbn [andb orb].
  all: change 0xE0 with (14 * 2 ^ 4); change 0x80 with (2 * 2 ^ 6).
  all: to_arith.
  all: rewrite !lor_add by div_mod_facts.
  all: replace (14 * 2 ^ 4 + r / 2 ^ 12) with (code c0) by (subst r; div_mod_facts).
  all: replace (2 * 2 ^ 6 + (r / 2 ^ 6) mod 2 ^ 6) with (code c1)
         by (subst r; div_mod_facts).
  all: replace (2 * 2 ^ 6 + r mod 2 ^ 6) with (code c2) by (subst r; div_mod_facts).
  all: cbn [of_bytes]; rewrite !chr_code; reflexivity.
Qed.

Lemma Encode4 (c0 c1 c2 c3 : ascii) :
  four_bytes c0 c1 c2 c3 ->
  EncodeRune ((code c0 - 0xF0) * 262144 + (code c1 - 0x80) * 4096
              + (code c2 - 0x80) * 64 + (code c3 - 0x80))
  = String c0 (String c1 (String c2 (String c3 EmptyString))).
Proof.
  intros (H0 & H1 & Ha & Hb & H2 & H3). unfold EncodeRune, enc3, MaxRune.
  set (r := (code c0 - 0xF0) * 262144 + (code c1 - 0x80) * 4096
            + (code c2 - 0x80) * 64 + (code c3 - 0x80)).
  assert (Hr : 0x10000 <= r <= 0x10FFFF) by (subst r; lia).
  compare_bytes. all: cbn [andb orb].
  all: change 0xF0 with (30 * 2 ^ 3); change 0x80 with (2 * 2 ^ 6).
  all: to_arith.
  all: rewrite !lor_add by div_mod_facts.
  all: replace (30 * 2 ^ 3 + r / 2 ^ 18) with (code c0) by (subst r; div_mod_facts).
  all: replace (2 * 2 ^ 6 + (r / 2 ^ 12) mod 2 ^ 6) with (code c1)
         by (subst r; div_mod_facts).
  all: replace (2 * 2 ^ 6 + (r / 2 ^ 6) mod 2 ^ 6) with (code c2)
         by (subst r; div_mod_facts).
  all: replace (2 * 2 ^ 6 + r mod 2 ^ 6) with (code c3) by (subst r; div_mod_facts).
  all: cbn [of_bytes]; rewrite !chr_code; reflexivity.
Qed.


(** A byte that is not ASCII either starts no well-formed sequence, and
    then decodes to [RuneError] with width 1, or starts one. *)
Lemma DecodeRune_shape (c : ascii) (r : string) :
  0x80 <= code c ->
  DecodeRune (String c r) = (RuneError, 1%nat)
  \/ (exists c1 r1, r = String c1 r1 /\ two_bytes c c1)
  \/ (exists c1 c2 r2, r = String c1 (String c2 r2) /\ three_bytes c c1 c2)
  \/ (exists c1 c2 c3 r3,
        r = String c1 (String c2 (String c3 r3)) /\ four_bytes c c1 c2 c3).
Proof.
  intros Hc. unfold DecodeRune, first, cont, RuneSelf.
  destruct r as [|c1 [|c2 [|c3 r3]]]; compare_bytes; cbn [orb andb negb Nat.leb].
  all: try (left; reflexivity).
  all: try (right; left; eexists _, _; split; [reflexivity|];
            unfold two_bytes; lia).
  all: try (right; right; left; eexists _, _, _; split; [reflexivity|];
            unfold three_bytes; lia).
  all: try (right; right; right; eexists _, _, _, _; split; [reflexivity|];
            unfold four_bytes; lia).
Qed.

Lemma ValidString_step (n : nat) (c : ascii) (r : string) :
  0x80 <= code c ->
  ValidString_loop (S n) (String c r) = true ->
  (exists c1 r1, r = String c1 r1 /\ two_bytes c c1 /\ ValidString_loop n r1 = true)
  \/ (exists c1 c2 r2,
        r = String c1 (String c2 r2) /\ three_bytes c c1 c2
        /\ ValidString_loop n r2 = true)
  \/ (exists c1 c2 c3 r3,
        r = String c1 (String c2 (String c3 r3)) /\ four_bytes c c1 c2 c3
        /\ ValidString_loop n r3 = true).
Proof.
  intros Hc. cbn [ValidString_loop]. unfold first, cont, RuneSelf.
  destruct r as [|c1 [|c2 [|c3 r3]]]; cbn [String.length]; compare_bytes;
    cbn [orb andb negb Nat.ltb Nat.leb Nat.eqb]; try discriminate; intros Hv.
  all: try (left; eexists _, _; split; [reflexivity|];
            split; [unfold two_bytes; lia|exact Hv]).
  all: try (right; left; eexists _, _, _; split; [reflexivity|];
            split; [unfold three_bytes; lia|exact Hv]).
  all: try (right; right; eexists _, _, _, _; split; [reflexivity|];
            split; [unfold four_bytes; lia|exact Hv]).
Qed.

End utf8_facts.

(** ** What the decoder makes of a string that [Marshal] wrote *)

Module string_facts.
Import json.
Local Open Scope Z_scope.

Lemma loop_not_fresh (p : pending) (s : string) :
  p = Copy 0 \/ p = Discard 0 -> appendString_loop p s = appendString_loop Fresh s.
Proof. intros [->| ->]; destruct s; reflexivity. Qed.

Lemma loop_Copy (n : nat) (s : string) :
  appendString_loop (Copy n) s
  = slice_to n s +:+ appendString_loop Fresh (slice_from n s).
Proof.
  revert s. induction n as [|n IH]; intros s.
  - rewrite loop_not_fresh by (left; reflexivity). destruct s; reflexivity.
  - destruct s as [|c r]; [reflexivity|].
    cbn [appendString_loop slice_to slice_from]. rewrite IH. reflexivity.
Qed.

Lemma loop_Discard (n : nat) (s : string) :
  appendString_loop (Discard n) s = appendString_loop Fresh (slice_from n s).
Proof.
  revert s. induction n as [|n IH]; intros s.
  - rewrite loop_not_fresh by (right; reflexivity). destruct s; reflexivity.
  - destruct s as [|c r]; [reflexivity|].
    cbn [appendString_loop slice_from]. apply IH.
Qed.

(** One step of the loop on a byte of ASCII, and on the leading byte of a
    sequence. *)
Lemma loop_ascii (c : ascii) (r : string) :
  code c < utf8.RuneSelf ->
  appendString_loop Fresh (String c r)
  = (if htmlSafeSet (code c) then String c EmptyString else escape_ascii (code c))
    +:+ appendString_loop Fresh r.
Proof.
  intros H. cbn [appendString_loop].
  destruct (Z.ltb_spec (code c) utf8.RuneSelf); [|lia].
  destruct (htmlSafeSet (code c)); reflexivity.
Qed.

Lemma loop_sequence (c : ascii) (r : string) (rn : Z) (size : nat) :
  utf8.RuneSelf <= code c ->
  utf8.DecodeRune (String c r) = (rn, size) ->
  size <> 1%nat ->
  appendString_loop Fresh (String c r)
  = if (rn =? 0x2028) || (rn =? 0x2029)
    then "\u202" +:+ String (hex.digit (Z.land rn 15))
                            (appendString_loop Fresh (slice_from size (String c r)))
    else slice_to size (String c r)
         +:+ appendString_loop Fresh (slice_from size (String c r)).
Proof.
  intros Hc Hd Hs. cbn [appendString_loop].
  destruct (Z.ltb_spec (code c) utf8.RuneSelf); [lia|].
  rewrite Hd.
  destruct size as [|size]; [pose proof (DecodeRune_size c r) as L; rewrite Hd in L;
                             cbn in L; lia|].
  replace ((S size =? 1)%nat) with false
    by (symmetry; apply Nat.eqb_neq; exact Hs).
  rewrite andb_false_r. cbn [Nat.sub slice_from slice_to]. rewrite Nat.sub_0_r.
  destruct ((rn =? 0x2028) || (rn =? 0x2029)).
  - rewrite loop_Discard. reflexivity.
  - rewrite loop_Copy. reflexivity.
Qed.

Lemma loop_invalid (c : ascii) (r : string) :
  utf8.RuneSelf <= code c ->
  utf8.DecodeRune (String c r) = (utf8.RuneError, 1%nat) ->
  appendString_loop Fresh (String c r) = "\ufffd" +:+ appendString_loop Fresh r.
Proof.
  intros Hc Hd. cbn [appendString_loop].
  destruct (Z.ltb_spec (code c) utf8.RuneSelf); [lia|].
  rewrite Hd. reflexivity.
Qed.


Import literal_facts.

Lemma stepped_over_app (a b : string) :
  stepped_over a -> stepped_over b -> stepped_over (a +:+ b).
Proof.
  intros Ha Hb tail. rewrite append_append, Ha, Hb.
  destruct (scan_string InString tail) as [[lit rest]|]; [|reflexivity].
  rewrite append_append. reflexivity.
Qed.

Lemma high_byte_stepped_over (c : ascii) :
  0x80 <= code c -> stepped_over (String c EmptyString).
Proof.
  intros H. apply plain_byte_stepped_over. right. apply Z.leb_le. exact H.
Qed.

Lemma escapes_stepped_over :
  stepped_over "\ufffd" /\ stepped_over "\u2028" /\ stepped_over "\u2029".
Proof.
  repeat split; intros tail; rewrite ?append_cons;
    change (EmptyString +:+ tail) with tail; cbn;
    destruct (scan_string InString tail) as [[lit rest]|]; reflexivity.
Qed.

(** The scanner reads the text that [appendString] writes between the
    quotes up to the closing quote, whatever the string. *)
Lemma scan_loop (n : nat) (s rest : string) :
  (String.length s <= n)%nat ->
  scan_string InString (appendString_loop Fresh s +:+ String dq rest)
  = Some (appendString_loop Fresh s, rest).
Proof.
  revert s. induction n as [|n IH]; intros s L.
  { destruct s; [reflexivity|cbn in L; lia]. }
  destruct s as [|c r]; [reflexivity|]. cbn [String.length] in L.
  assert (K : forall e tail,
             stepped_over e -> (String.length tail <= n)%nat ->
             scan_string InString ((e +:+ appendString_loop Fresh tail) +:+ String dq rest)
             = Some (e +:+ appendString_loop Fresh tail, rest)).
  { intros e tail He Lt. rewrite append_append, He, IH by exact Lt. reflexivity. }
  destruct (Z.ltb_spec (code c) utf8.RuneSelf) as [Hc|Hc].
  - rewrite loop_ascii by exact Hc. apply K; [|lia].
    destruct (htmlSafeSet (code c)) eqn:Hs.
    + apply plain_byte_stepped_over. left. exact Hs.
    + apply escape_ascii_stepped_over; [apply Z.ltb_lt; exact Hc|exact Hs].
  - unfold utf8.RuneSelf in Hc.
    assert (S2 : forall rn, (rn =? 0x2028) || (rn =? 0x2029) = true ->
                 stepped_over ("\u202" +:+ String (hex.digit (Z.land rn 15)) EmptyString)).
    { intros rn H. apply orb_true_iff in H as [H|H]; apply Z.eqb_eq in H; subst rn;
        apply escapes_stepped_over. }
    assert (W : forall rn size,
               utf8.DecodeRune (String c r) = (rn, size) -> size <> 1%nat ->
               (String.length (slice_from size (String c r)) <= n)%nat ->
               stepped_over (slice_to size (String c r)) ->
               scan_string InString
                 (appendString_loop Fresh (String c r) +:+ String dq rest)
               = Some (appendString_loop Fresh (String c r), rest)).
    { intros rn size Hd Hs Lt Hso.
      rewrite (loop_sequence c r rn size Hc Hd Hs).
      destruct ((rn =? 0x2028) || (rn =? 0x2029)) eqn:E.
      - change ("\u202" +:+ String (hex.digit (Z.land rn 15)) ?x)
          with (("\u202" +:+ String (hex.digit (Z.land rn 15)) EmptyString) +:+ x).
        apply K; [apply S2; exact E|exact Lt].
      - apply K; assumption. }
    destruct (utf8_facts.DecodeRune_shape c r Hc)
      as [Hd|[(c1 & r1 & -> & Hw)|[(c1 & c2 & r2 & -> & Hw)
                                  |(c1 & c2 & c3 & r3 & -> & Hw)]]].
    + rewrite (loop_invalid c r Hc Hd). apply K; [apply escapes_stepped_over|lia].
    + apply (W _ _ (utf8_facts.Decode2 c c1 r1 Hw)); [lia|cbn in *; lia|].
      destruct Hw as (? & ?).
      apply (stepped_over_app (String c EmptyString) (String c1 EmptyString));
        apply high_byte_stepped_over; lia.
    + apply (W _ _ (utf8_facts.Decode3 c c1 c2 r2 Hw)); [lia|cbn in *; lia|].
      destruct Hw as (? & ? & _ & _ & ?).
      apply (stepped_over_app (String c EmptyString)
               (String c1 (String c2 EmptyString)));
        [|apply (stepped_over_app (String c1 EmptyString) (String c2 EmptyString))];
        apply high_byte_stepped_over; lia.
    + apply (W _ _ (utf8_facts.Decode4 c c1 c2 c3 r3 Hw)); [lia|cbn in *; lia|].
      destruct Hw as (? & ? & _ & _ & ? & ?).
      apply (stepped_over_app (String c EmptyString)
               (String c1 (String c2 (String c3 EmptyString))));
        [|apply (stepped_over_app (String c1 EmptyString)
                   (String c2 (String c3 EmptyString)));
          [|apply (stepped_over_app (String c2 EmptyString) (String c3 EmptyString))]];
        apply high_byte_stepped_over; lia.
Qed.


(** *** Unquoting *)

Lemma unquote_plain (c : ascii) (X : string) (m : nat) :
  htmlSafeSet (code c) = true ->
  unquote_loop (S m) (String c X) = String c (unquote_loop m X).
Proof.
  intros H.
  destruct c as [[] [] [] [] [] [] [] []];
    try (exfalso; vm_compute in H; discriminate H); reflexivity.
Qed.

Lemma unquote_escape (c : ascii) (X : string) (m : nat) :
  (code c <? utf8.RuneSelf) = true ->
  htmlSafeSet (code c) = false ->
  unquote_loop (S m) (escape_ascii (code c) +:+ X) = String c (unquote_loop m X).
Proof.
  intros H1 H2.
  destruct c as [[] [] [] [] [] [] [] []];
    try (exfalso; vm_compute in H1; discriminate H1);
    try (exfalso; vm_compute in H2; discriminate H2);
    reflexivity.
Qed.

Lemma escape_ascii_length (b : Z) : (2 <= String.length (escape_ascii b))%nat.
Proof.
  unfold escape_ascii.
  repeat match goal with |- context [if ?x then _ else _] => destruct x end;
    rewrite ?length_append; cbn [String.length]; lia.
Qed.

Lemma unquote_separators (X : string) (m : nat) :
  unquote_loop (S m) ("\u2028" +:+ X) = utf8.EncodeRune 0x2028 +:+ unquote_loop m X
  /\ unquote_loop (S m) ("\u2029" +:+ X) = utf8.EncodeRune 0x2029 +:+ unquote_loop m X.
Proof. split; reflexivity. Qed.

Lemma unquote_high (c : ascii) (X : string) (m : nat) :
  0x80 <= code c ->
  unquote_loop (S m) (String c X)
  = utf8.EncodeRune (fst (utf8.DecodeRune (String c X)))
    +:+ unquote_loop m (slice_from (snd (utf8.DecodeRune (String c X))) (String c X)).
Proof.
  intros H. cbn [unquote_loop].
  destruct (Ascii.eqb_spec c "\") as [->|_]; [vm_compute in H; contradiction|].
  destruct (Z.ltb_spec (code c) utf8.RuneSelf) as [L|_];
    [unfold utf8.RuneSelf in L; lia|].
  destruct (utf8.DecodeRune (String c X)); reflexivity.
Qed.

(** A well-formed string comes back as it was. *)
Lemma unquote_valid (n : nat) (s : string) (m : nat) :
  ValidString_loop n s = true ->
  (String.length s <= n)%nat ->
  (String.length (appendString_loop Fresh s) <= m)%nat ->
  unquote_loop m (appendString_loop Fresh s) = s.
Proof.
  revert s m. induction n as [|n IH]; intros s m Hv L Lm.
  { destruct s; [destruct m; reflexivity|cbn in L; lia]. }
  destruct s as [|c r]; [destruct m; reflexivity|]. cbn [String.length] in L.
  destruct (Z.ltb_spec (code c) utf8.RuneSelf) as [Hc|Hc].
  - assert (Hr : ValidString_loop n r = true).
    { cbn [ValidString_loop] in Hv.
      destruct (Z.ltb_spec (code c) utf8.RuneSelf); [exact Hv|lia]. }
    rewrite loop_ascii in * by exact Hc. rewrite length_append in Lm.
    destruct (htmlSafeSet (code c)) eqn:Hs.
    + cbn [String.length] in Lm. destruct m as [|m]; [lia|].
      rewrite append_cons. change (EmptyString +:+ ?x) with x.
      rewrite unquote_plain by exact Hs. f_equal. apply IH; [exact Hr|lia|lia].
    + pose proof (escape_ascii_length (code c)) as Le.
      destruct m as [|m]; [lia|].
      rewrite unquote_escape by (try apply Z.ltb_lt; assumption).
      f_equal. apply IH; [exact Hr|lia|lia].
  - unfold utf8.RuneSelf in Hc.
    assert (W : forall rn size bytes tail,
               utf8.DecodeRune (String c r) = (rn, size) -> size <> 1%nat ->
               slice_to size (String c r) = bytes ->
               slice_from size (String c r) = tail ->
               (forall X, utf8.DecodeRune (bytes +:+ X) = (rn, size)) ->
               (forall X, slice_from size (bytes +:+ X) = X) ->
               utf8.EncodeRune rn = bytes ->
               (exists c' b', bytes = String c' b' /\ 0x80 <= code c') ->
               ValidString_loop n tail = true ->
               (String.length tail < String.length (String c r))%nat ->
               unquote_loop m (appendString_loop Fresh (String c r))
               = bytes +:+ tail).
    { intros rn size bytes tail Hd Hs Hb Ht Hdx Hsx He (c' & b' & Eb & Hc') Hvt Lt.
      rewrite (loop_sequence c r rn size Hc Hd Hs) in *. rewrite Hb, Ht in *.
      cbn [String.length] in Lt.
      destruct ((rn =? 0x2028) || (rn =? 0x2029)) eqn:E.
      - assert (Lm' : (6 + String.length (appendString_loop Fresh tail) <= m)%nat).
        { rewrite append_cons in Lm. cbn [String.length] in Lm.
          rewrite !length_append in Lm. cbn [String.length] in Lm. lia. }
        destruct m as [|m]; [lia|].
        apply orb_true_iff in E as [E|E]; apply Z.eqb_eq in E; subst rn.
        + change ("\u202" +:+ String (hex.digit (Z.land 0x2028 15)) ?x)
            with ("\u2028" +:+ x).
          rewrite (proj1 (unquote_separators _ _)), He. f_equal.
          apply IH; [exact Hvt|lia|lia].
        + change ("\u202" +:+ String (hex.digit (Z.land 0x2029 15)) ?x)
            with ("\u2029" +:+ x).
          rewrite (proj2 (unquote_separators _ _)), He. f_equal.
          apply IH; [exact Hvt|lia|lia].
      - rewrite length_append in Lm.
        assert (Lb : (1 <= String.length bytes)%nat) by (rewrite Eb; cbn; lia).
        destruct m as [|m]; [lia|].
        rewrite Eb at 1. rewrite append_cons, unquote_high by exact Hc'.
        rewrite <- append_cons, <- Eb, Hdx, Hsx. cbn [fst snd]. rewrite He. f_equal.
        apply IH; [exact Hvt|lia|lia]. }
    destruct (utf8_facts.ValidString_step n c r Hc Hv)
      as [(c1 & r1 & -> & Hw & Hr)|[(c1 & c2 & r2 & -> & Hw & Hr)
                                   |(c1 & c2 & c3 & r3 & -> & Hw & Hr)]].
    + apply (W _ _ (String c (String c1 EmptyString)) r1
               (utf8_facts.Decode2 c c1 r1 Hw));
        try reflexivity; try assumption; try lia.
      * intros X. apply (utf8_facts.Decode2 c c1 X Hw).
      * apply utf8_facts.Encode2. exact Hw.
      * eexists _, _. split; [reflexivity|exact Hc].
      * cbn. lia.
    + apply (W _ _ (String c (String c1 (String c2 EmptyString))) r2
               (utf8_facts.Decode3 c c1 c2 r2 Hw));
        try reflexivity; try assumption; try lia.
      * intros X. apply (utf8_facts.Decode3 c c1 c2 X Hw).
      * apply utf8_facts.Encode3. exact Hw.
      * eexists _, _. split; [reflexivity|exact Hc].
      * cbn. lia.
    + apply (W _ _ (String c (String c1 (String c2 (String c3 EmptyString)))) r3
               (utf8_facts.Decode4 c c1 c2 c3 r3 Hw));
        try reflexivity; try assumption; try lia.
      * intros X. apply (utf8_facts.Decode4 c c1 c2 c3 X Hw).
      * apply utf8_facts.Encode4. exact Hw.
      * eexists _, _. split; [reflexivity|exact Hc].
      * cbn. lia.
Qed.

End string_facts.

(** The decoder gives a well-formed string back as [Marshal] was given it. *)
Lemma coerce_string_valid (s : string) : ValidString s = true -> coerce_string s = s.
Proof.
  intros H. unfold coerce_string, json.unquote.
  apply (string_facts.unquote_valid (String.length s)); [exact H|lia|lia].
Qed.

(** ** Documents *)

Module document_facts.
Import json.
Local Open Scope Z_scope.

Lemma unfold_Array (l : list value) :
  encode_interface (Array l) = "[" +:+ join "," (encode_list l) +:+ "]"
  /\ coerce (Array l) = Array (coerce_list l)
  /\ weight (Array l) = S (weight_list l)
  /\ height (Array l) = 1 + height_list l
  /\ (numbers_ok (Array l) <-> numbers_ok_list l).
Proof. repeat split; try reflexivity; intros H; exact H. Qed.

Lemma unfold_Object (m : list (string * value)) :
  encode_interface (Object m) = "{" +:+ join "," (encode_members m) +:+ "}"
  /\ coerce (Object m) = Object (coerce_members m)
  /\ weight (Object m) = S (weight_members m)
  /\ height (Object m) = 1 + height_members m
  /\ (numbers_ok (Object m) <-> numbers_ok_members m).
Proof. repeat split; try reflexivity; intros H; exact H. Qed.


Lemma digit_opens (c : ascii) :
  (Ascii.eqb c "-" || isDigit c) = true -> opens c.
Proof.
  intros H.
  destruct c as [[] [] [] [] [] [] [] []];
    try (exfalso; vm_compute in H; discriminate H); repeat split.
Qed.

Lemma encode_head (v : value) :
  numbers_ok v -> exists c t, encode_interface v = String c t /\ opens c.
Proof.
  destruct v as [|[]|lit|s|l|m]; intros H.
  1,2,3,5,6,7: eexists _, _; split; [reflexivity|repeat split].
  destruct H as ((c & t & -> & Hc) & _). exists c, t.
  split; [reflexivity|apply digit_opens; exact Hc].
Qed.

(** *** One step of each reader *)

Lemma parse_atoms (f : nat) (d : Z) (rest : string) :
  parse (S f) d ("null" +:+ rest) = Ok (Null, rest)
  /\ parse (S f) d ("true" +:+ rest) = Ok (Bool true, rest)
  /\ parse (S f) d ("false" +:+ rest) = Ok (Bool false, rest).
Proof. repeat split. Qed.

Lemma parse_number (f : nat) (d : Z) (lit rest : string) :
  number_ok lit -> delimited rest ->
  parse (S f) d (lit +:+ rest) = Ok (Number lit, rest).
Proof.
  intros ((c & t & -> & Hc) & Hs) Hr. specialize (Hs rest Hr).
  rewrite append_cons in *.
  change (parse (S f) d ?s) with (parse_body (members f) (elements f) d s).
  unfold parse_body.
  destruct c as [[] [] [] [] [] [] [] []];
    try (exfalso; vm_compute in Hc; discriminate Hc).
  all: cbv -[scan_number String.append members elements Z.ltb Z.add maxNestingDepth].
  all: rewrite Hs; reflexivity.
Qed.

Lemma quoted (s rest : string) :
  appendString s +:+ rest = String dq (appendString_loop Fresh s +:+ String dq rest).
Proof.
  unfold appendString, quote. rewrite append_cons, append_append. reflexivity.
Qed.

Lemma parse_string (f : nat) (d : Z) (s rest : string) :
  parse (S f) d (appendString s +:+ rest) = Ok (Str (coerce_string s), rest).
Proof.
  rewrite quoted.
  change (parse (S f) d ?x) with (parse_body (members f) (elements f) d x).
  unfold parse_body. cbn [skip_space].
  change (isSpace dq) with false. cbv iota.
  change (Ascii.eqb dq "{") with false. change (Ascii.eqb dq "[") with false.
  change (Ascii.eqb dq dq) with true. cbv iota.
  rewrite (string_facts.scan_loop (String.length s)) by lia. reflexivity.
Qed.

Lemma parse_empty (f : nat) (d : Z) (rest : string) :
  d + 1 <= maxNestingDepth ->
  parse (S f) d ("[" +:+ "]" +:+ rest) = Ok (Array [], rest)
  /\ parse (S f) d ("{" +:+ "}" +:+ rest) = Ok (Object [], rest).
Proof.
  intros H.
  change (parse (S f) d ?x) with (parse_body (members f) (elements f) d x).
  unfold parse_body. rewrite !append_cons. change (EmptyString +:+ ?x) with x.
  cbn [skip_space]. cbn.
  destruct (Z.ltb_spec maxNestingDepth (d + 1)); [lia|]. split; reflexivity.
Qed.

Lemma parse_array (f : nat) (d : Z) (c : ascii) (X : string) :
  d + 1 <= maxNestingDepth -> opens c ->
  parse (S f) d ("[" +:+ String c X)
  = match elements f (d + 1) (String c X) with
    | Ok (l, rest) => Ok (Array l, rest)
    | Err e => Err e
    end.
Proof.
  intros H (H1 & H2 & H3).
  change (parse (S f) d ?x) with (parse_body (members f) (elements f) d x).
  unfold parse_body. rewrite !append_cons. change (EmptyString +:+ ?x) with x.
  assert (E : (maxNestingDepth <? d + 1) = false) by (apply Z.ltb_ge; lia).
  destruct c as [[] [] [] [] [] [] [] []];
    try (exfalso; vm_compute in H1; discriminate H1);
    try (exfalso; vm_compute in H2; discriminate H2).
  all: cbv -[String.append members elements Z.ltb Z.add maxNestingDepth].
  all: rewrite E; reflexivity.
Qed.

Lemma parse_object (f : nat) (d : Z) (X : string) :
  d + 1 <= maxNestingDepth ->
  parse (S f) d ("{" +:+ String dq X)
  = match members f (d + 1) (String dq X) with
    | Ok (m, rest) => Ok (Object m, rest)
    | Err e => Err e
    end.
Proof.
  intros H.
  change (parse (S f) d ?x) with (parse_body (members f) (elements f) d x).
  unfold parse_body. rewrite !append_cons. change (EmptyString +:+ ?x) with x.
  cbn [skip_space]. cbn.
  destruct (Z.ltb_spec maxNestingDepth (d + 1)); [lia|]. reflexivity.
Qed.

Lemma elements_step (f : nat) (d : Z) (s : string) :
  elements (S f) d s
  = match parse f d s with
    | Err e => Err e
    | Ok (v, r1) =>
        match skip_space r1 with
        | String ","%char r2 =>
            match elements f d r2 with
            | Ok (l, rest) => Ok (v :: l, rest)
            | Err e => Err e
            end
        | String "]"%char r2 => Ok ([v], r2)
        | _ => Err SyntaxError
        end
    end.
Proof. reflexivity. Qed.

Lemma members_step (f : nat) (d : Z) (k R : string) :
  members (S f) d (appendString k +:+ ":" +:+ R)
  = match parse f d R with
    | Err e => Err e
    | Ok (v, r3) =>
        match skip_space r3 with
        | String ","%char r4 =>
            match members f d r4 with
            | Ok (m, rest) => Ok ((coerce_string k, v) :: m, rest)
            | Err e => Err e
            end
        | String "}"%char r4 => Ok ([(coerce_string k, v)], r4)
        | _ => Err SyntaxError
        end
    end.
Proof.
  rewrite quoted.
  change (members (S f) d ?x) with (members_body (parse f) (members f) d x).
  unfold members_body. cbn [skip_space].
  change (isSpace dq) with false. cbv iota.
  change (Ascii.eqb dq dq) with true. cbv iota.
  rewrite (string_facts.scan_loop (String.length k)) by lia.
  rewrite append_cons. change (EmptyString +:+ ?x) with x.
  cbn [skip_space]. change (isSpace ":") with false. cbv iota.
  reflexivity.
Qed.


Lemma join_cons (sep a b : string) (l : list string) :
  join sep (a :: b :: l) = a +:+ sep +:+ join sep (b :: l).
Proof. reflexivity. Qed.

Lemma delimiters (rest : string) :
  delimited ("," +:+ rest) /\ delimited ("]" +:+ rest) /\ delimited ("}" +:+ rest).
Proof. cbv [delimited]. rewrite !append_cons. tauto. Qed.

Lemma follows_delimited (v : value) (rest : string) : delimited rest -> follows v rest.
Proof. intros H. destruct v; try exact I. exact H. Qed.

Lemma height_list_nonneg (l : list value) : 0 <= height_list l.
Proof. induction l as [|x l IH]; cbn [height_list]; lia. Qed.

Lemma height_members_nonneg (m : list (string * value)) : 0 <= height_members m.
Proof. induction m as [|[k x] m IH]; cbn [height_members]; lia. Qed.

(** *** What [Marshal] writes the parser reads back

    By induction on the fuel that reading takes: a value, the elements of an
    array up to the closing bracket, the members of an object up to the
    closing brace. *)
Lemma parse_encode (n : nat) :
  (forall v,
     (weight v <= n)%nat -> numbers_ok v ->
     forall fuel d rest,
       (weight v <= fuel)%nat -> d + height v <= maxNestingDepth -> follows v rest ->
       parse fuel d (encode_interface v +:+ rest) = Ok (coerce v, rest))
  /\ (forall x l,
        (weight_list (x :: l) <= n)%nat -> numbers_ok_list (x :: l) ->
        forall fuel d rest,
          (weight_list (x :: l) <= fuel)%nat ->
          d + height_list (x :: l) <= maxNestingDepth ->
          elements fuel d (join "," (encode_list (x :: l)) +:+ "]" +:+ rest)
          = Ok (coerce_list (x :: l), rest))
  /\ (forall k x m,
        (weight_members ((k, x) :: m) <= n)%nat -> numbers_ok_members ((k, x) :: m) ->
        forall fuel d rest,
          (weight_members ((k, x) :: m) <= fuel)%nat ->
          d + height_members ((k, x) :: m) <= maxNestingDepth ->
          members fuel d (join "," (encode_members ((k, x) :: m)) +:+ "}" +:+ rest)
          = Ok (coerce_members ((k, x) :: m), rest)).
Proof.
  induction n as [|n (IHv & IHl & IHm)].
  { split; [|split].
    - intros v H. destruct v; cbn in H; lia.
    - intros x l H. cbn in H. lia.
    - intros k x m H. cbn in H. lia. }
  split; [|split].
  - intros v Wn Hn fuel d rest Wf Hd Hr.
    destruct v as [|b|lit|s|l|m].
    + destruct fuel as [|f]; [cbn in Wf; lia|]. apply parse_atoms.
    + destruct fuel as [|f]; [cbn in Wf; lia|]. destruct b; apply parse_atoms.
    + destruct fuel as [|f]; [cbn in Wf; lia|]. apply parse_number; assumption.
    + destruct fuel as [|f]; [cbn in Wf; lia|]. apply parse_string.
    + destruct (unfold_Array l) as (-> & -> & Ew & Eh & En).
      rewrite Ew in Wn, Wf. rewrite Eh in Hd. apply En in Hn.
      destruct fuel as [|f]; [lia|].
      destruct l as [|x l].
      { change (join "," (encode_list [])) with EmptyString.
        change ("[" +:+ EmptyString +:+ "]") with ("[" +:+ "]").
        rewrite append_append. apply parse_empty. cbn in Hd. lia. }
      rewrite !append_append.
      pose proof (height_list_nonneg (x :: l)) as Hh.
      pose proof (IHl x l ltac:(lia) Hn f (d + 1) rest ltac:(lia) ltac:(lia)) as E.
      destruct (encode_head x (proj1 Hn)) as (c & t & Ex & Hc).
      assert (S : exists X, join "," (encode_list (x :: l)) +:+ "]" +:+ rest = String c X).
      { cbn [encode_list]. destruct l as [|y l]; cbn [encode_list].
        - change (join "," [?a]) with a. rewrite Ex, append_cons. eexists. reflexivity.
        - rewrite join_cons, Ex, !append_cons. eexists. reflexivity. }
      destruct S as (X & S). rewrite S in *.
      rewrite parse_array by (try assumption; lia). rewrite E. reflexivity.
    + destruct (unfold_Object m) as (-> & -> & Ew & Eh & En).
      rewrite Ew in Wn, Wf. rewrite Eh in Hd. apply En in Hn.
      destruct fuel as [|f]; [lia|].
      destruct m as [|[k x] m].
      { change (join "," (encode_members [])) with EmptyString.
        change ("{" +:+ EmptyString +:+ "}") with ("{" +:+ "}").
        rewrite append_append. apply parse_empty. cbn in Hd. lia. }
      rewrite !append_append.
      pose proof (height_members_nonneg ((k, x) :: m)) as Hh.
      pose proof (IHm k x m ltac:(lia) Hn f (d + 1) rest ltac:(lia) ltac:(lia)) as E.
      assert (S : exists X,
                 join "," (encode_members ((k, x) :: m)) +:+ "}" +:+ rest = String dq X).
      { cbn [encode_members]. destruct m as [|[k' y] m]; cbn [encode_members].
        - change (join "," [?a]) with a. rewrite append_append, quoted.
          eexists. reflexivity.
        - rewrite join_cons, !append_append, quoted. eexists. reflexivity. }
      destruct S as (X & S). rewrite S in *.
      rewrite parse_object by lia. rewrite E. reflexivity.
  - intros x l Wn (Hx & Hl) fuel d rest Wf Hd.
    cbn [weight_list] in Wn, Wf. cbn [height_list] in Hd.
    destruct fuel as [|f]; [lia|]. rewrite elements_step.
    cbn [encode_list coerce_list].
    destruct l as [|y l]; cbn [encode_list coerce_list].
    + change (join "," [?a]) with a.
      rewrite (IHv x ltac:(lia) Hx f d ("]" +:+ rest) ltac:(lia) ltac:(lia))
        by (apply follows_delimited, delimiters).
      reflexivity.
    + rewrite join_cons, !append_append.
      rewrite (IHv x ltac:(lia) Hx f d _ ltac:(lia) ltac:(lia))
        by (apply follows_delimited, delimiters).
      rewrite append_cons. change (EmptyString +:+ ?a) with a.
      change (skip_space (String "," ?a)) with (String ","%char a). cbv iota.
      change (encode_interface y :: encode_list l) with (encode_list (y :: l)).
      rewrite (IHl y l ltac:(cbn [weight_list] in *; lia) Hl f d rest
                 ltac:(cbn [weight_list] in *; lia) ltac:(lia)).
      reflexivity.
  - intros k x m Wn (Hx & Hm) fuel d rest Wf Hd.
    cbn [weight_members] in Wn, Wf. cbn [height_members] in Hd.
    destruct fuel as [|f]; [lia|].
    cbn [encode_members coerce_members].
    destruct m as [|[k' y] m]; cbn [encode_members coerce_members].
    + change (join "," [?a]) with a. rewrite !append_append, members_step.
      rewrite (IHv x ltac:(lia) Hx f d ("}" +:+ rest) ltac:(lia) ltac:(lia))
        by (apply follows_delimited, delimiters).
      reflexivity.
    + rewrite join_cons, !append_append, members_step.
      rewrite (IHv x ltac:(lia) Hx f d _ ltac:(lia) ltac:(lia))
        by (apply follows_delimited, delimiters).
      rewrite append_cons. change (EmptyString +:+ ?a) with a.
      change (skip_space (String "," ?a)) with (String ","%char a). cbv iota.
      change ((appendString k' +:+ ":" +:+ encode_interface y) :: encode_members m)
        with (encode_members ((k', y) :: m)).
      rewrite (IHm k' y m ltac:(cbn [weight_members] in *; lia) Hm f d rest
                 ltac:(cbn [weight_members] in *; lia) ltac:(lia)).
      reflexivity.
Qed.

End document_facts.

(** ** More fuel changes nothing

    A reader that did not stop for lack of fuel gives the same result on
    more fuel; so what the parser gives on some fuel is what it gives on
    the fuel [Unmarshal] and [Decode] run it with. *)

Module fuel_facts.
Import json.

Section Readers.

Variables (P1 P2 : Z -> string -> result (value * string)).
Variables (M1 M2 : Z -> string -> result (list (string * value) * string)).
Variables (E1 E2 : Z -> string -> result (list value * string)).

Hypothesis HP : forall d s, P1 d s <> Err OutOfFuel -> P2 d s = P1 d s.
Hypothesis HM : forall d s, M1 d s <> Err OutOfFuel -> M2 d s = M1 d s.
Hypothesis HE : forall d s, E1 d s <> Err OutOfFuel -> E2 d s = E1 d s.

Ltac same_reader H R1 :=
  match goal with
  | Hne : _ <> Err OutOfFuel |- context [R1 ?d ?r] =>
      let E := fresh "E" in
      assert (E : R1 d r <> Err OutOfFuel)
        by (intros E; apply Hne; rewrite E; reflexivity);
      rewrite (H d r E); clear E
  end.

Ltac cases :=
  repeat match goal with
  | |- context [match ?x with _ => _ end] =>
      lazymatch x with
      | P1 _ _ => fail
      | M1 _ _ => fail
      | E1 _ _ => fail
      | P2 _ _ => fail
      | M2 _ _ => fail
      | E2 _ _ => fail
      | _ => destruct x
      end
  end.

Lemma parse_body_agrees d s :
  parse_body M1 E1 d s <> Err OutOfFuel ->
  parse_body M2 E2 d s = parse_body M1 E1 d s.
Proof using HM HE.
  unfold parse_body. intros Hne. revert Hne. cases; intros Hne; try reflexivity.
  all: first [same_reader HM M1 | same_reader HE E1]; reflexivity.
Qed.

Lemma members_body_agrees d s :
  members_body P1 M1 d s <> Err OutOfFuel ->
  members_body P2 M2 d s = members_body P1 M1 d s.
Proof using HP HM.
  unfold members_body. intros Hne. revert Hne. cases; intros Hne; try reflexivity.
  all: same_reader HP P1.
  all: destruct (P1 _ _) as [[v r3]|e]; [|reflexivity].
  all: revert Hne; cases; intros Hne; try reflexivity.
  all: same_reader HM M1; reflexivity.
Qed.

Lemma elements_body_agrees d s :
  elements_body P1 E1 d s <> Err OutOfFuel ->
  elements_body P2 E2 d s = elements_body P1 E1 d s.
Proof using HP HE.
  unfold elements_body. intros Hne. same_reader HP P1.
  destruct (P1 _ _) as [[v r1]|e]; [|reflexivity].
  revert Hne; cases; intros Hne; try reflexivity.
  all: same_reader HE E1; reflexivity.
Qed.

End Readers.

Lemma one_more (f : nat) :
  (forall d s, parse f d s <> Err OutOfFuel -> parse (S f) d s = parse f d s)
  /\ (forall d s, members f d s <> Err OutOfFuel -> members (S f) d s = members f d s)
  /\ (forall d s, elements f d s <> Err OutOfFuel -> elements (S f) d s = elements f d s).
Proof.
  induction f as [|f (IHp & IHm & IHe)].
  { repeat split; intros d s H; exfalso; apply H; reflexivity. }
  repeat split; intros d s H.
  - apply (parse_body_agrees (members f) (members (S f)) (elements f) (elements (S f)));
      assumption.
  - apply (members_body_agrees (parse f) (parse (S f)) (members f) (members (S f)));
      assumption.
  - apply (elements_body_agrees (parse f) (parse (S f)) (elements f) (elements (S f)));
      assumption.
Qed.

Lemma more_fuel (f f' : nat) (d : Z) (s : string) :
  f <= f' -> parse f d s <> Err OutOfFuel -> parse f' d s = parse f d s.
Proof.
  intros L H. induction L as [|f' L IH]; [reflexivity|].
  rewrite <- IH. apply one_more. rewrite IH. exact H.
Qed.

(** What the parser gives on some fuel it gives on the fuel it is run
    with. *)
Lemma enough (f : nat) (d : Z) (s : string) (x : value * string) :
  parse f d s = Ok x -> parse (enough_fuel s) d s = Ok x.
Proof.
  intros H. destruct (Nat.le_ge_cases f (enough_fuel s)) as [L|L].
  - rewrite (more_fuel f _ d s L); [exact H|rewrite H; discriminate].
  - rewrite <- H. symmetry. apply more_fuel; [exact L|].
    pose proof (proj1 (json_facts.parse_fuel (enough_fuel s)) d s) as F.
    unfold enough_fuel in *. specialize (F ltac:(lia)). unfold served in F.
    destruct (parse (S (2 * String.length s)) d s) as [[v r]|e];
      [intros ?; discriminate|intros [= ->]; apply F; reflexivity].
Qed.

End fuel_facts.

(** ** Documents of the program *)

Lemma readValue_encode (v : json.value) (rest : string) :
  numbers_ok v -> (height v <= json.maxNestingDepth)%Z -> follows v rest ->
  json.readValue (json.encode_interface v +:+ rest) = json.Ok (coerce v).
Proof.
  intros Hn Hh Hf. unfold json.readValue.
  rewrite (fuel_facts.enough (weight v) 0 _ (coerce v, rest)); [reflexivity|].
  apply (proj1 (document_facts.parse_encode (weight v))); try assumption; lia.
Qed.

Lemma checkValid_encode (v : json.value) :
  numbers_ok v -> (height v <= json.maxNestingDepth)%Z -> follows v EmptyString ->
  json.checkValid (json.encode_interface v) = json.Ok (coerce v).
Proof.
  intros Hn Hh Hf. unfold json.checkValid.
  rewrite <- (append_empty (json.encode_interface v)).
  rewrite (fuel_facts.enough (weight v) 0 _ (coerce v, EmptyString)); [reflexivity|].
  apply (proj1 (document_facts.parse_encode (weight v))); try assumption; lia.
Qed.

Lemma encode_list_strings (l : list string) :
  encode_list (map json.Str l) = map json.appendString l.
Proof. induction l as [|t l IH]; [reflexivity|]. cbn. rewrite IH. reflexivity. Qed.

Lemma coerce_list_strings (l : list string) :
  coerce_list (map json.Str l) = map json.Str (map coerce_string l).
Proof. induction l as [|t l IH]; [reflexivity|]. cbn. rewrite IH. reflexivity. Qed.

Lemma strings_hold_no_number (l : list string) :
  numbers_ok_list (map json.Str l) /\ height_list (map json.Str l) = 0%Z.
Proof.
  induction l as [|t l (IH1 & IH2)]; [split; [exact I|reflexivity]|].
  cbn. rewrite IH2. repeat split. exact IH1.
Qed.

Lemma store_elems_strings (l back : list string) :
  json.store_elems EmptyString json.store_string (map json.Str l) back = (l, false).
Proof.
  revert back. induction l as [|t l IH]; intros back; [reflexivity|].
  cbn [map json.store_elems json.store_string]. rewrite IH. reflexivity.
Qed.

Lemma store_slice_strings (l : list string) :
  json.store_slice EmptyString json.store_string (json.Array (map json.Str l))
    (json.Slice None [])
  = (json.Slice (Some l) [], false).
Proof.
  destruct l as [|t l]; [reflexivity|].
  unfold json.store_slice. cbn [map].
  change (json.Str t :: map json.Str l) with (map json.Str (t :: l)).
  rewrite store_elems_strings.
  unfold json.backing, json.in_view. cbn [json.elems json.spare app].
  rewrite skipn_nil. reflexivity.
Qed.

(** The canonical serialization is the text of [request_value]. *)
Lemma encode_request_value (req : PuzzleRequest) :
  encode_PuzzleRequest req = json.encode_interface (request_value req).
Proof.
  unfold encode_PuzzleRequest, request_value.
  destruct (Topics req) as [l|]; [|reflexivity].
  destruct (document_facts.unfold_Object
              [ ("gameType"%string, json.Str (GameType req));
                ("difficulty"%string, json.Str (Difficulty req));
                ("topics"%string, json.Array (map json.Str l));
                ("language"%string, json.Str (Language req)) ]) as (-> & _).
  cbn [encode_members].
  destruct (document_facts.unfold_Array (map json.Str l)) as (-> & _).
  rewrite encode_list_strings. reflexivity.
Qed.

Lemma request_value_ok (req : PuzzleRequest) :
  numbers_ok (request_value req) /\ (height (request_value req) <= json.maxNestingDepth)%Z.
Proof.
  unfold request_value. destruct (Topics req) as [l|].
  - destruct (strings_hold_no_number l) as (H1 & H2).
    split.
    + apply document_facts.unfold_Object. cbn [numbers_ok_members].
      repeat split. apply document_facts.unfold_Array. exact H1.
    + destruct (document_facts.unfold_Object
                  [ ("gameType"%string, json.Str (GameType req));
                    ("difficulty"%string, json.Str (Difficulty req));
                    ("topics"%string, json.Array (map json.Str l));
                    ("language"%string, json.Str (Language req)) ])
        as (_ & _ & _ & -> & _).
      cbn [height_members].
      destruct (document_facts.unfold_Array (map json.Str l)) as (_ & _ & _ & -> & _).
      rewrite H2. vm_compute. discriminate.
  - split; [cbn; tauto|vm_compute; discriminate].
Qed.

(** Decoding the canonical serialization of a request, with whatever
    follows it, gives the request with its texts coerced to well-formed
    UTF-8. *)
Lemma Decode_encode (req : PuzzleRequest) (trailing : string) :
  Decode_PuzzleRequest (encode_PuzzleRequest req +:+ trailing)
  = json.Ok (coerce_request req).
Proof.
  unfold Decode_PuzzleRequest. rewrite encode_request_value.
  destruct (request_value_ok req) as (Hn & Hh).
  rewrite (readValue_encode _ _ Hn Hh) by exact I.
  unfold request_value, coerce_request.
  destruct req as [g d [l|] lang]; cbn [GameType Difficulty Topics Language option_map].
  - destruct (document_facts.unfold_Object
                [ ("gameType"%string, json.Str g);
                  ("difficulty"%string, json.Str d);
                  ("topics"%string, json.Array (map json.Str l));
                  ("language"%string, json.Str lang) ]) as (_ & -> & _).
    cbn [coerce_members].
    destruct (document_facts.unfold_Array (map json.Str l)) as (_ & -> & _).
    rewrite coerce_list_strings.
    change (coerce (json.Str ?s)) with (json.Str (coerce_string s)).
    change (coerce_string "gameType") with "gameType"%string.
    change (coerce_string "difficulty") with "difficulty"%string.
    change (coerce_string "topics") with "topics"%string.
    change (coerce_string "language") with "language"%string.
    unfold json.unmarshal, json.store_struct.
    cbn -[json.store_slice coerce_string map].
    rewrite store_slice_strings. reflexivity.
  - reflexivity.
Qed.

(** * Canonical serializations *)

Lemma coerce_request_valid (req : PuzzleRequest) :
  valid_request req -> coerce_request req = req.
Proof.
  destruct req as [g d topics lang]. unfold valid_request, coerce_request.
  cbn [GameType Difficulty Topics Language].
  intros (Hg & Hd & Hl & Ht).
  rewrite !coerce_string_valid by assumption.
  destruct topics as [l|]; [|reflexivity]. cbn [option_map].
  do 2 f_equal. induction Ht as [|t l Hv _ IH]; [reflexivity|].
  cbn [map]. rewrite coerce_string_valid by exact Hv. rewrite IH. reflexivity.
Qed.

(** X18 — the canonical serialization of a request whose texts are
    well-formed UTF-8 decodes to that request: marshalling and decoding a
    request are inverse to each other, whatever the request holds (quotes,
    control bytes, HTML bytes, line separators, any number of topics, a nil
    or an empty topic list).  Bytes that follow the serialization in the
    body are not read. *)
Theorem X18_canonical_serialization_decodes_to_the_request req trailing :
  valid_request req ->
  Decode_PuzzleRequest (encode_PuzzleRequest req) = json.Ok req
  /\ Decode_PuzzleRequest (encode_PuzzleRequest req +:+ trailing) = json.Ok req.
Proof.
  intros Hv. rewrite <- (append_empty (encode_PuzzleRequest req)) at 1.
  rewrite !Decode_encode, (coerce_request_valid req Hv). split; reflexivity.
Qed.

(** X19 — requests with well-formed texts that differ have canonical
    serializations that differ.  So two such requests have the same
    fingerprint, and share a row of the cache, only when they are the same
    request or their serializations are a collision of SHA-256. *)
Theorem X19_one_fingerprint_is_one_request_or_a_collision req1 req2 :
  valid_request req1 ->
  valid_request req2 ->
  (encode_PuzzleRequest req1 = encode_PuzzleRequest req2 -> req1 = req2)
  /\ (fingerprint req1 = fingerprint req2 ->
      req1 = req2
      \/ (encode_PuzzleRequest req1 <> encode_PuzzleRequest req2
          /\ sha256.Sum (encode_PuzzleRequest req1)
             = sha256.Sum (encode_PuzzleRequest req2))).
Proof.
  intros H1 H2.
  assert (I : encode_PuzzleRequest req1 = encode_PuzzleRequest req2 -> req1 = req2).
  { intros E.
    pose proof (Decode_encode req1 EmptyString) as D1.
    pose proof (Decode_encode req2 EmptyString) as D2.
    rewrite E, D2, (coerce_request_valid req1 H1), (coerce_request_valid req2 H2) in D1.
    injection D1 as ->. reflexivity. }
  split; [exact I|].
  intros Hf. apply lowercase_hex_injective in Hf.
  destruct (string_dec (encode_PuzzleRequest req1) (encode_PuzzleRequest req2)) as [E|E].
  - left. exact (I E).
  - right. split; assumption.
Qed.

Section Canonical.

Variable To_LowerCase : Z -> Z.

(** X20 — when the body of a POST is the canonical serialization of a
    request with well-formed texts, the handler works on the bytes it was
    sent: the key it looks up is the SHA-256 of the body in lower-case
    hexadecimal, and the upsert it issues after a successful generation
    carries that key and the body itself as [request_params]; the row then
    found under the key holds the store's rendering of the body. *)
Theorem X20_canonical_body_is_keyed_by_the_bytes_sent s env r w req :
  valid_request req ->
  Method r = MethodPost ->
  Body r = encode_PuzzleRequest req ->
  let out := generatePuzzleHandler To_LowerCase s env r w in
  let key := lowercase_hex (sha256.Sum (Body r)) in
  Decode_PuzzleRequest (Body r) = json.Ok req
  /\ (exists rest, trace (snd out) = trace w ++ Query key :: rest)
  /\ (forall p,
        ~ hit env w req ->
        generated To_LowerCase (geminiPuzzleService s) env req = Value p ->
        exec_fault env = None ->
        In (Exec key (Body r) p (time_Now env)) (events_of w (snd out))
        /\ exists row,
             cached_puzzles (snd out) !! key = Some row
             /\ request_params row = jsonb env (Body r)
             /\ response_data row = jsonb env p).
Proof.
  intros Hv Hm Hb out key. subst out key.
  assert (Hd : Decode_PuzzleRequest (Body r) = json.Ok req).
  { rewrite Hb, <- (append_empty (encode_PuzzleRequest req)), Decode_encode.
    rewrite (coerce_request_valid req Hv). reflexivity. }
  split; [exact Hd|]. rewrite Hb. fold (fingerprint req). split.
  - exact (handler_queries_fingerprint To_LowerCase s env r w req Hm Hd).
  - intros p Hn Hg He.
    rewrite (handler_regenerates To_LowerCase s env r w req Hm Hd)
      by (apply not_hit; exact Hn).
    pose proof (regenerate_events To_LowerCase s env req w) as Hev. cbv zeta in Hev.
    rewrite Hev. clear Hev.
    unfold regenerate. rewrite Hg, He. cbn [snd cached_puzzles].
    split; [apply in_app_iff; right; left; reflexivity|].
    eexists. split; [apply lookup_insert_eq|split; reflexivity].
Qed.

End Canonical.

(** * The documents exchanged with the provider *)

Lemma small_numbers_ok : number_ok "0.7" /\ number_ok "0.9" /\ number_ok "40".
Proof.
  repeat split; try (eexists _, _; split; reflexivity).
  all: intros [|c r] H; [contradiction|].
  all: destruct H as [->|[->| ->]]; reflexivity.
Qed.

(** The compact schema documents are the texts of values without numbers,
    which the decoder gives back as they are. *)
Lemma schema_values (req : PuzzleRequest) :
  exists v,
    json.encode_interface v = responseSchema req
    /\ numbers_ok v /\ (height v <= 100)%Z /\ coerce v = v
    /\ follows v EmptyString.
Proof.
  unfold responseSchema. destruct (String.eqb (GameType req) "crossword").
  - destruct (json.Unmarshal_map crossword_schema) as [v|e] eqn:E;
      [|vm_compute in E; discriminate].
    exists v. vm_compute in E. injection E as <-.
    split; [vm_compute; reflexivity|].
    split; [vm_compute; tauto|].
    split; [vm_compute; discriminate|].
    split; [vm_compute; reflexivity|exact I].
  - destruct (json.Unmarshal_map wordsearch_schema) as [v|e] eqn:E;
      [|vm_compute in E; discriminate].
    exists v. vm_compute in E. injection E as <-.
    split; [vm_compute; reflexivity|].
    split; [vm_compute; tauto|].
    split; [vm_compute; discriminate|].
    split; [vm_compute; reflexivity|exact I].
Qed.

Lemma provider_request_body_value (text : string) (schema : json.value) :
  provider_request_body text (json.encode_interface schema)
  = json.encode_interface (provider_request_value text schema).
Proof. reflexivity. Qed.

(** ** Storing an object into a struct *)

Lemma store_members_app {T : Type} (fs : json.fields T)
    (a b : list (string * json.value)) (t : T) :
  json.store_members fs (a ++ b) t
  = let '(t1, e1) := json.store_members fs a t in
    let '(t2, e2) := json.store_members fs b t1 in
    (t2, e1 || e2).
Proof.
  revert t. induction a as [|[k x] a IH]; intros t.
  - cbn [app json.store_members]. destruct (json.store_members fs b t). reflexivity.
  - cbn [app json.store_members].
    destruct (match json.lookup_field fs k with
              | Some st => st x t
              | None => (t, false)
              end) as [t1 e1].
    rewrite IH. destruct (json.store_members fs a t1) as [t2 e2].
    destruct (json.store_members fs b t2) as [t3 e3].
    rewrite orb_assoc. reflexivity.
Qed.

Lemma store_members_unknown {T : Type} (fs : json.fields T)
    (m : list (string * json.value)) (t : T) :
  unknown fs m -> json.store_members fs m t = (t, false).
Proof.
  induction m as [|[k x] m IH]; intros H; [reflexivity|].
  cbn [json.store_members]. rewrite (H k x) by (left; reflexivity).
  rewrite IH; [reflexivity|]. intros k' x' Hin. apply (H k' x'). right. exact Hin.
Qed.

(** An object that holds one member the struct has a field for is stored as
    that member is. *)
Lemma store_only_member {T : Type} (fs : json.fields T) (name : string)
    (st : json.store T) (x : json.value) (m : list (string * json.value)) (t : T) :
  json.lookup_field fs name = Some st ->
  only_member fs name x m ->
  json.store_struct fs (json.Object m) t = st x t.
Proof.
  intros Hf (pre & post & -> & Hpre & Hpost). cbn [json.store_struct].
  rewrite store_members_app, (store_members_unknown fs pre t Hpre).
  cbn [json.store_members]. rewrite Hf.
  destruct (st x t) as [t1 e1].
  rewrite (store_members_unknown fs post t1 Hpost). cbn [orb].
  rewrite orb_false_r. reflexivity.
Qed.

Lemma store_elems_well_typed {A : Type} (zero : A) (elem : json.store A)
    (l : list json.value) (back : list A) :
  Forall (well_typed elem) l -> snd (json.store_elems zero elem l back) = false.
Proof.
  intros H. revert back. induction H as [|v l Hv _ IH]; intros back; [reflexivity|].
  cbn [json.store_elems].
  pose proof (Hv match back with x :: _ => x | [] => zero end) as E.
  destruct (elem v _) as [x e1]. cbn [snd] in E. subst e1.
  specialize (IH (tl back)). destruct (json.store_elems zero elem l (tl back)) as [xs e2].
  cbn [snd] in IH. subst e2. reflexivity.
Qed.

(** A slice that was nil takes an array element by element. *)
Lemma store_slice_first {A : Type} (zero : A) (elem : json.store A)
    (v : json.value) (l : list json.value) (x : A) :
  elem v zero = (x, false) ->
  Forall (well_typed elem) l ->
  exists xs sp,
    json.store_slice zero elem (json.Array (v :: l)) json.nil_slice
    = (json.Slice (Some (x :: xs)) sp, false).
Proof.
  intros Hx Hl. cbn [json.store_slice].
  change (json.backing json.nil_slice) with (@nil A).
  cbn [json.store_elems tl]. rewrite Hx.
  pose proof (store_elems_well_typed zero elem l [] Hl) as E.
  destruct (json.store_elems zero elem l []) as [xs e]. cbn [snd] in E. subst e.
  eexists _, _. reflexivity.
Qed.

(** What the program reads out of an envelope. *)
Lemma envelope_text (text : string) (v : json.value) :
  envelope_of text v ->
  exists resp,
    json.unmarshal (json.store_struct fields_GeminiAPIResponse) v
                   {| Candidates := json.nil_slice |}
    = json.Ok resp
    /\ first_text resp = Some text.
Proof.
  intros (top & cand & candidates & content & part & parts
          & -> & Htop & Hcand & Hcontent & Hpart & Hcs & Hps).
  assert (Ep : json.store_struct fields_GeminiContentPart (json.Object part)
                 {| Text := EmptyString |} = ({| Text := text |}, false)).
  { rewrite (store_only_member fields_GeminiContentPart "text" _ _ _ _ eq_refl Hpart).
    reflexivity. }
  destruct (store_slice_first {| Text := EmptyString |}
              (json.store_struct fields_GeminiContentPart)
              (json.Object part) parts _ Ep Hps) as (ps & sp & Eps).
  assert (Ec : json.store_struct fields_GeminiCandidate (json.Object cand)
                 {| Content := zero_GeminiContent |}
               = ({| Content := {| Parts := json.Slice (Some ({| Text := text |} :: ps)) sp |} |},
                  false)).
  { rewrite (store_only_member fields_GeminiCandidate "content" _ _ _ _ eq_refl Hcand).
    cbn [Content].
    rewrite (store_only_member fields_GeminiContent "parts" _ _ _ _ eq_refl Hcontent).
    unfold zero_GeminiContent. cbn [Parts]. rewrite Eps. reflexivity. }
  destruct (store_slice_first {| Content := zero_GeminiContent |}
              (json.store_struct fields_GeminiCandidate)
              (json.Object cand) candidates _ Ec Hcs) as (cs & sp' & Ecs).
  eexists. unfold json.unmarshal.
  rewrite (store_only_member fields_GeminiAPIResponse "candidates" _ _ _ _ eq_refl Htop).
  cbn [Candidates]. rewrite Ecs. split; reflexivity.
Qed.

Lemma envelope_is_envelope (text : string) : envelope_of text (envelope text).
Proof.
  exists [ ("candidates"%string,
            json.Array
              [ json.Object
                  [ ("content"%string,
                     json.Object
                       [ ("parts"%string,
                          json.Array [ json.Object [ ("text"%string, json.Str text) ] ]);
                         ("role"%string, json.Str "model") ]);
                    ("finishReason"%string, json.Str "STOP") ] ]) ],
         [ ("content"%string,
            json.Object
              [ ("parts"%string,
                 json.Array [ json.Object [ ("text"%string, json.Str text) ] ]);
                ("role"%string, json.Str "model") ]);
           ("finishReason"%string, json.Str "STOP") ],
         [],
         [ ("parts"%string,
            json.Array [ json.Object [ ("text"%string, json.Str text) ] ]);
           ("role"%string, json.Str "model") ],
         [ ("text"%string, json.Str text) ],
         [].
  split; [reflexivity|].
  split; [exists [], []; repeat split; intros ? ? []|].
  split.
  { exists [], [ ("finishReason"%string, json.Str "STOP") ].
    split; [reflexivity|]. split; [intros ? ? []|].
    intros k x [[= <- <-]|[]]. reflexivity. }
  split.
  { exists [], [ ("role"%string, json.Str "model") ].
    split; [reflexivity|]. split; [intros ? ? []|].
    intros k x [[= <- <-]|[]]. reflexivity. }
  split; [exists [], []; repeat split; intros ? ? []|].
  split; constructor.
Qed.

Section Provider.

Variable To_LowerCase : Z -> Z.

(** X21 — the body of the request that [GeneratePuzzle] sends is
    well-formed JSON for every request, whatever bytes the difficulty, the
    language and the topics hold: it is one object, its [text] member
    decodes to the prompt (coerced to well-formed UTF-8) and its
    [responseSchema] member to the schema of the game type. *)
Theorem X21_provider_request_is_well_formed req :
  exists schema,
    json.checkValid (responseSchema req) = json.Ok schema
    /\ json.checkValid
         (provider_request_body (prompt To_LowerCase req) (responseSchema req))
       = json.Ok (provider_request_value (coerce_string (prompt To_LowerCase req)) schema).
Proof.
  destruct (schema_values req) as (v & Ev & Hn & Hh & Hc & Hf).
  exists v. rewrite <- Ev. split.
  - rewrite checkValid_encode, Hc; try assumption; [reflexivity|].
    unfold json.maxNestingDepth. lia.
  - rewrite provider_request_body_value, checkValid_encode.
    + change (coerce (provider_request_value ?p v))
        with (provider_request_value (coerce_string p) (coerce v)).
      rewrite Hc. reflexivity.
    + destruct small_numbers_ok as (N1 & N2 & N3).
      unfold provider_request_value. simpl. tauto.
    + unfold provider_request_value, json.maxNestingDepth. simpl. lia.
    + exact I.
Qed.

(** X22 — when the provider answers with status 200 and a document whose
    first candidate has a content whose first part has a text,
    [GeneratePuzzle] returns that text as the decoder reads it, with the
    escapes of JSON resolved.  This holds whatever the layout of the
    document, whatever members that the program has no field for stand
    beside [candidates], [content], [parts] and [text], and whatever
    candidates and parts follow the first, as long as they hold no value of
    a wrong type.  A text of well-formed UTF-8 that was escaped the way
    [Marshal] escapes comes back as the very text. *)
Theorem X22_text_of_the_answer_comes_back_unescaped svc env req body v text :
  unusable_key (apiKey svc) = false ->
  NewRequest_error env (provider_url svc) = None ->
  Do env (provider_url svc)
     (provider_request_body (prompt To_LowerCase req) (responseSchema req))
  = Answer 200 body ->
  json.checkValid body = json.Ok v ->
  envelope_of text v ->
  generated To_LowerCase svc env req = Value text
  /\ (forall t,
        ValidString t = true ->
        envelope_of t (envelope t)
        /\ json.checkValid (json.encode_interface (envelope t)) = json.Ok (envelope t)).
Proof.
  intros Hk Hr Hdo Hc Hv. split.
  - rewrite generated_outcome, Hk, Hr.
    unfold answer_to. rewrite Hdo. unfold read_answer. cbn [Z.eqb Pos.eqb negb].
    unfold Unmarshal_GeminiAPIResponse. rewrite Hc.
    destruct (envelope_text text v Hv) as (resp & -> & ->). reflexivity.
  - intros t Ht. split; [apply envelope_is_envelope|].
    rewrite checkValid_encode; [| |unfold json.maxNestingDepth; vm_compute; discriminate
                                |exact I].
    + change (coerce (envelope t)) with (envelope (coerce_string t)).
      rewrite (coerce_string_valid t Ht). reflexivity.
    + cbn. tauto.
Qed.

End Provider.

(** * What follows the first value of a body

    [Decoder.Decode] reads one value off the stream.  Text that is appended
    to a body does not change the value the readers find, as long as the
    value does not end with the body (a number could go on). *)

Module trailing_facts.
Import json.

Lemma skip_space_app (s : string) (c : ascii) (r t : string) :
  skip_space s = String c r -> skip_space (s +:+ t) = String c (r +:+ t).
Proof.
  induction s as [|a s IH]; [discriminate|].
  rewrite append_cons. cbn [skip_space].
  destruct (isSpace a); [exact IH|]. intros [= -> ->]. reflexivity.
Qed.

Lemma scan_string_app (st : in_string) (s lit r t : string) :
  scan_string st s = Some (lit, r) -> scan_string st (s +:+ t) = Some (lit, r +:+ t).
Proof.
  revert st lit r. induction s as [|c s IH]; intros st lit r; [discriminate|].
  rewrite append_cons. cbn [scan_string].
  assert (K : forall st',
             match scan_string st' s with
             | Some (lit0, rest0) => Some (String c lit0, rest0)
             | None => None
             end = Some (lit, r) ->
             match scan_string st' (s +:+ t) with
             | Some (lit0, rest0) => Some (String c lit0, rest0)
             | None => None
             end = Some (lit, r +:+ t)).
  { intros st'. destruct (scan_string st' s) as [[l0 r0]|] eqn:E; [|discriminate].
    intros [= <- <-]. rewrite (IH _ _ _ E). reflexivity. }
  destruct st.
  - destruct (Ascii.eqb c dq); [intros [= <- <-]; reflexivity|].
    destruct (Ascii.eqb c "\"); [apply K|].
    destruct (code c <? 32)%Z; [discriminate|apply K].
  - destruct (_ || _)%bool; [apply K|].
    destruct (_ =? _)%Z; [apply K|discriminate].
  - destruct (isHex c); [apply K|discriminate].
Qed.

Lemma strip_prefix_app (p s r t : string) :
  strip_prefix p s = Some r -> strip_prefix p (s +:+ t) = Some (r +:+ t).
Proof.
  revert s. induction p as [|a p IH]; intros s; cbn [strip_prefix].
  - intros [= ->]. reflexivity.
  - destruct s as [|b s]; [discriminate|]. rewrite append_cons.
    destruct (Ascii.eqb a b); [apply IH|discriminate].
Qed.

Lemma digits_app (s ds r t : string) :
  digits s = (ds, r) -> r <> EmptyString -> digits (s +:+ t) = (ds, r +:+ t).
Proof.
  revert ds. induction s as [|c s IH]; intros ds; cbn [digits].
  - intros [= <- <-] H. contradiction.
  - rewrite append_cons. cbn [digits]. destruct (isDigit c).
    + destruct (digits s) as [d0 r0]. intros [= <- <-] H.
      rewrite (IH d0 eq_refl H). reflexivity.
    + intros [= <- <-] _. reflexivity.
Qed.

Lemma digits_rest (s ds r : string) : digits s = (ds, r) -> s = EmptyString -> r = EmptyString.
Proof. intros H ->. injection H as _ <-. reflexivity. Qed.

Lemma scan_int_app (s lit r t : string) :
  scan_int s = Some (lit, r) -> r <> EmptyString ->
  scan_int (s +:+ t) = Some (lit, r +:+ t).
Proof.
  destruct s as [|c s]; [discriminate|]. rewrite append_cons. cbn [scan_int].
  destruct (Ascii.eqb c "0"); [intros [= <- <-] _; reflexivity|].
  destruct (isDigit c); [|discriminate].
  destruct (digits s) as [ds r0] eqn:E. intros [= <- <-] H.
  rewrite (digits_app _ _ _ t E H). reflexivity.
Qed.

Lemma scan_frac_app (s lit r t : string) :
  scan_frac s = Some (lit, r) -> r <> EmptyString ->
  scan_frac (s +:+ t) = Some (lit, r +:+ t).
Proof.
  destruct s as [|c s]; [intros [= <- <-] H; contradiction|].
  rewrite append_cons. cbn [scan_frac].
  destruct (Ascii.eqb c "."); [|intros [= <- <-] _; reflexivity].
  destruct (digits s) as [ds r0] eqn:E. destruct ds as [|d ds]; [discriminate|].
  intros [= <- <-] H. rewrite (digits_app _ _ _ t E H). reflexivity.
Qed.

Lemma scan_exp_app (s lit r t : string) :
  scan_exp s = Some (lit, r) -> r <> EmptyString ->
  scan_exp (s +:+ t) = Some (lit, r +:+ t).
Proof.
  destruct s as [|c s]; [intros [= <- <-] H; contradiction|].
  rewrite append_cons. cbn [scan_exp].
  destruct (_ || _)%bool; [|intros [= <- <-] _; reflexivity].
  assert (K : forall sg r1,
             match digits r1 with
             | (EmptyString, _) => None
             | (ds, rest0) => Some (String c (sg +:+ ds), rest0)
             end = Some (lit, r) ->
             r <> EmptyString ->
             match digits (r1 +:+ t) with
             | (EmptyString, _) => None
             | (ds, rest0) => Some (String c (sg +:+ ds), rest0)
             end = Some (lit, r +:+ t)).
  { intros sg r1. destruct (digits r1) as [ds r0] eqn:E.
    destruct ds as [|d ds]; [discriminate|].
    intros [= <- <-] H. rewrite (digits_app _ _ _ t E H). reflexivity. }
  destruct s as [|c' s'].
  - cbn [digits]. discriminate.
  - rewrite append_cons. destruct (_ || _)%bool; [apply K|].
    rewrite <- append_cons. apply K.
Qed.

Lemma scan_number_app (s lit r t : string) :
  scan_number s = Some (lit, r) -> r <> EmptyString ->
  scan_number (s +:+ t) = Some (lit, r +:+ t).
Proof.
  unfold scan_number. intros H Hr.
  destruct (scan_sign s) as [sign s1] eqn:Es.
  destruct (scan_int s1) as [[ip s2]|] eqn:Ei; [|discriminate].
  destruct (scan_frac s2) as [[fp s3]|] eqn:Ef; [|discriminate].
  destruct (scan_exp s3) as [[ep s4]|] eqn:Ee; [|discriminate].
  injection H as <- <-.
  assert (H3 : s3 <> EmptyString).
  { intros ->. cbn in Ee. injection Ee as _ <-. contradiction. }
  assert (H2 : s2 <> EmptyString).
  { intros ->. cbn in Ef. injection Ef as _ <-. contradiction. }
  assert (Es' : scan_sign (s +:+ t) = (sign, s1 +:+ t)).
  { destruct s as [|c s]; cbn [scan_sign] in Es.
    - injection Es as <- <-. discriminate.
    - rewrite append_cons. cbn [scan_sign].
      destruct (Ascii.eqb c "-"); injection Es as <- <-; reflexivity. }
  rewrite Es', (scan_int_app _ _ _ t Ei H2), (scan_frac_app _ _ _ t Ef H3),
    (scan_exp_app _ _ _ t Ee Hr).
  reflexivity.
Qed.


Ltac bits c := destruct c as [[] [] [] [] [] [] [] []].

Section Readers.

Variable P : Z -> string -> result (value * string).
Variable M : Z -> string -> result (list (string * value) * string).
Variable E : Z -> string -> result (list value * string).

Hypothesis HP : forall d s v r t,
  P d s = Ok (v, r) -> is_number v = false \/ r <> EmptyString ->
  P d (s +:+ t) = Ok (v, r +:+ t).
Hypothesis HM : forall d s m r t, M d s = Ok (m, r) -> M d (s +:+ t) = Ok (m, r +:+ t).
Hypothesis HE : forall d s l r t, E d s = Ok (l, r) -> E d (s +:+ t) = Ok (l, r +:+ t).
Hypothesis HMh : forall d s x, M d s = Ok x -> skip_space s <> EmptyString.
Hypothesis HEh : forall d s x, E d s = Ok x -> skip_space s <> EmptyString.

Lemma parse_body_head d s x : parse_body M E d s = Ok x -> skip_space s <> EmptyString.
Proof using Type.
  unfold parse_body. destruct (skip_space s); [discriminate|]. intros _. discriminate.
Qed.

Lemma members_body_head d s x :
  members_body P M d s = Ok x -> skip_space s <> EmptyString.
Proof using Type.
  unfold members_body. destruct (skip_space s); [discriminate|]. intros _. discriminate.
Qed.

Lemma elements_body_head d s x :
  (forall d s x, P d s = Ok x -> skip_space s <> EmptyString) ->
  elements_body P E d s = Ok x -> skip_space s <> EmptyString.
Proof using Type.
  intros HPh. unfold elements_body.
  destruct (P d s) as [y|e] eqn:Ep; [|discriminate]. intros _. exact (HPh _ _ _ Ep).
Qed.

Lemma parse_body_app d s v r t :
  parse_body M E d s = Ok (v, r) ->
  is_number v = false \/ r <> EmptyString ->
  parse_body M E d (s +:+ t) = Ok (v, r +:+ t).
Proof using HM HE HMh HEh.
  unfold parse_body. destruct (skip_space s) as [|c s'] eqn:Es; [discriminate|].
  rewrite (skip_space_app s c s' t Es).
  destruct (Ascii.eqb c "{").
  { destruct (_ <? _)%Z; [discriminate|].
    destruct (skip_space s') as [|c1 s1] eqn:E1.
    - destruct (M (d + 1)%Z s') as [[m rest]|e] eqn:Em; [|discriminate].
      exfalso. exact (HMh _ _ _ Em E1).
    - rewrite (skip_space_app s' c1 s1 t E1).
      bits c1; try (intros [= <- <-] _; reflexivity).
      all: destruct (M (d + 1)%Z s') as [[m rest]|e] eqn:Em; [|discriminate].
      all: intros [= <- <-] _; rewrite (HM _ _ _ _ t Em); reflexivity. }
  destruct (Ascii.eqb c "[").
  { destruct (_ <? _)%Z; [discriminate|].
    destruct (skip_space s') as [|c1 s1] eqn:E1.
    - destruct (E (d + 1)%Z s') as [[l rest]|e] eqn:Ee; [|discriminate].
      exfalso. exact (HEh _ _ _ Ee E1).
    - rewrite (skip_space_app s' c1 s1 t E1).
      bits c1; try (intros [= <- <-] _; reflexivity).
      all: destruct (E (d + 1)%Z s') as [[l rest]|e] eqn:Ee; [|discriminate].
      all: intros [= <- <-] _; rewrite (HE _ _ _ _ t Ee); reflexivity. }
  destruct (Ascii.eqb c dq).
  { destruct (scan_string InString s') as [[lit rest]|] eqn:Esc; [|discriminate].
    intros [= <- <-] _. rewrite (scan_string_app _ _ _ _ t Esc). reflexivity. }
  destruct (_ || _)%bool.
  { destruct (scan_number (String c s')) as [[lit rest]|] eqn:Esc; [|discriminate].
    intros [= <- <-] [H|H]; [discriminate|].
    rewrite <- append_cons, (scan_number_app _ _ _ t Esc H). reflexivity. }
  destruct (Ascii.eqb c "t").
  { destruct (strip_prefix "rue" s') as [rest|] eqn:Esp; [|discriminate].
    intros [= <- <-] _. rewrite (strip_prefix_app _ _ _ t Esp). reflexivity. }
  destruct (Ascii.eqb c "f").
  { destruct (strip_prefix "alse" s') as [rest|] eqn:Esp; [|discriminate].
    intros [= <- <-] _. rewrite (strip_prefix_app _ _ _ t Esp). reflexivity. }
  destruct (Ascii.eqb c "n"); [|discriminate].
  destruct (strip_prefix "ull" s') as [rest|] eqn:Esp; [|discriminate].
  intros [= <- <-] _. rewrite (strip_prefix_app _ _ _ t Esp). reflexivity.
Qed.

Lemma members_body_app d s m r t :
  members_body P M d s = Ok (m, r) -> members_body P M d (s +:+ t) = Ok (m, r +:+ t).
Proof using HP HM.
  unfold members_body. destruct (skip_space s) as [|c s'] eqn:Es; [discriminate|].
  rewrite (skip_space_app s c s' t Es).
  destruct (Ascii.eqb c dq); [|discriminate].
  destruct (scan_string InString s') as [[lit r1]|] eqn:Esc; [|discriminate].
  rewrite (scan_string_app _ _ _ _ t Esc).
  destruct (skip_space r1) as [|c1 r2] eqn:E1; [discriminate|].
  rewrite (skip_space_app r1 c1 r2 t E1).
  bits c1; try discriminate.
  destruct (P d r2) as [[v r3]|e] eqn:Ep; [|discriminate].
  destruct (skip_space r3) as [|c3 r4] eqn:E3; [discriminate|].
  assert (H3 : r3 <> EmptyString) by (intros ->; discriminate).
  rewrite (HP _ _ _ _ t Ep (or_intror H3)).
  rewrite (skip_space_app r3 c3 r4 t E3).
  bits c3; try discriminate; try (intros [= <- <-]; reflexivity).
  destruct (M d r4) as [[m' rest]|e] eqn:Em; [|discriminate].
  intros [= <- <-]. rewrite (HM _ _ _ _ t Em). reflexivity.
Qed.

Lemma elements_body_app d s l r t :
  elements_body P E d s = Ok (l, r) -> elements_body P E d (s +:+ t) = Ok (l, r +:+ t).
Proof using HP HE.
  unfold elements_body.
  destruct (P d s) as [[v r1]|e] eqn:Ep; [|discriminate].
  destruct (skip_space r1) as [|c1 r2] eqn:E1; [discriminate|].
  assert (H1 : r1 <> EmptyString) by (intros ->; discriminate).
  rewrite (HP _ _ _ _ t Ep (or_intror H1)).
  rewrite (skip_space_app r1 c1 r2 t E1).
  bits c1; try discriminate; try (intros [= <- <-]; reflexivity).
  destruct (E d r2) as [[l' rest]|e] eqn:Ee; [|discriminate].
  intros [= <- <-]. rewrite (HE _ _ _ _ t Ee). reflexivity.
Qed.

End Readers.

Lemma heads (f : nat) :
  (forall d s x, parse f d s = Ok x -> skip_space s <> EmptyString)
  /\ (forall d s x, members f d s = Ok x -> skip_space s <> EmptyString)
  /\ (forall d s x, elements f d s = Ok x -> skip_space s <> EmptyString).
Proof.
  assert (Hp : forall f d s x, parse f d s = Ok x -> skip_space s <> EmptyString).
  { intros [|g] d s x; [discriminate|]. apply parse_body_head. }
  split; [apply Hp|]. split.
  - destruct f as [|g]; intros d s x; [discriminate|]. apply members_body_head.
  - destruct f as [|g]; intros d s x; [discriminate|].
    apply elements_body_head. apply Hp.
Qed.

(** Appending text to the input of a reader appends it to what the reader
    leaves. *)
Lemma readers_app (f : nat) :
  (forall d s v r t,
     parse f d s = Ok (v, r) -> is_number v = false \/ r <> EmptyString ->
     parse f d (s +:+ t) = Ok (v, r +:+ t))
  /\ (forall d s m r t,
        members f d s = Ok (m, r) -> members f d (s +:+ t) = Ok (m, r +:+ t))
  /\ (forall d s l r t,
        elements f d s = Ok (l, r) -> elements f d (s +:+ t) = Ok (l, r +:+ t)).
Proof.
  induction f as [|f (IHp & IHm & IHe)]; [repeat split; discriminate|].
  destruct (heads f) as (Hp & Hm & He).
  split; [|split].
  - intros d s v r t. apply (parse_body_app (members f) (elements f)); assumption.
  - intros d s m r t. apply (members_body_app (parse f) (members f)); assumption.
  - intros d s l r t. apply (elements_body_app (parse f) (elements f)); assumption.
Qed.

End trailing_facts.

Lemma readValue_app (body trailing : string) (v : json.value) :
  json.readValue body = json.Ok v -> is_number v = false ->
  json.readValue (body +:+ trailing) = json.Ok v.
Proof.
  unfold json.readValue. intros H Hv.
  destruct (json.parse (json.enough_fuel body) 0 body) as [[v' r]|e] eqn:E;
    [|discriminate].
  injection H as ->.
  pose proof (proj1 (trailing_facts.readers_app (json.enough_fuel body))
                0%Z body v r trailing E (or_introl Hv)) as E'.
  rewrite (fuel_facts.enough _ _ _ _ E'). reflexivity.
Qed.

(** A body that decodes to a request decodes to it with any text after
    it. *)
Lemma Decode_app (body trailing : string) (req : PuzzleRequest) :
  Decode_PuzzleRequest body = json.Ok req ->
  Decode_PuzzleRequest (body +:+ trailing) = json.Ok req.
Proof.
  unfold Decode_PuzzleRequest.
  destruct (json.readValue body) as [v|e] eqn:E; [|discriminate].
  intros H. rewrite (readValue_app body trailing v E); [exact H|].
  destruct v; try reflexivity. cbv in H. discriminate.
Qed.

Section Trailing.

Variable To_LowerCase : Z -> Z.

(** The run of the handler is settled by the request the body decodes
    to. *)
Lemma handler_same_request s env w r1 r2 req :
  Method r1 = MethodPost ->
  Method r2 = MethodPost ->
  Decode_PuzzleRequest (Body r1) = json.Ok req ->
  Decode_PuzzleRequest (Body r2) = json.Ok req ->
  generatePuzzleHandler To_LowerCase s env r1 w
  = generatePuzzleHandler To_LowerCase s env r2 w.
Proof.
  intros Hm1 Hm2 Hd1 Hd2.
  destruct (hit_dec env w req) as [[Hq [row Hrow]]|Hn].
  - rewrite (handler_hit To_LowerCase s env r1 w req row Hm1 Hd1 Hq Hrow).
    rewrite (handler_hit To_LowerCase s env r2 w req row Hm2 Hd2 Hq Hrow).
    reflexivity.
  - apply not_hit in Hn.
    rewrite (handler_regenerates To_LowerCase s env r1 w req Hm1 Hd1 Hn).
    rewrite (handler_regenerates To_LowerCase s env r2 w req Hm2 Hd2 Hn).
    reflexivity.
Qed.

(** X23 — the handler reads one JSON value off the body and nothing after
    it: a body that decodes to a request decodes to the same request with
    any bytes appended, well-formed or not, and the run of the handler is
    the same.  The handler never rejects a body for what follows its first
    value. *)
Theorem X23_bytes_after_the_first_value_are_not_read s env w r r' req trailing :
  Method r = MethodPost ->
  Method r' = MethodPost ->
  Decode_PuzzleRequest (Body r) = json.Ok req ->
  Body r' = Body r +:+ trailing ->
  Decode_PuzzleRequest (Body r') = json.Ok req
  /\ generatePuzzleHandler To_LowerCase s env r' w
     = generatePuzzleHandler To_LowerCase s env r w.
Proof.
  intros Hm Hm' Hd Hb.
  assert (Hd' : Decode_PuzzleRequest (Body r') = json.Ok req)
    by (rewrite Hb; apply Decode_app; exact Hd).
  split; [exact Hd'|]. apply (handler_same_request s env w r' r req); assumption.
Qed.

End Trailing.

Section Apart.

Variable To_LowerCase : Z -> Z.

(** X24 — the request to the provider depends on a request only through
    whether its game type is [crossword], its difficulty in lower case, its
    language and its topics clause.  Requests that agree on these four get
    the same prompt, send the same request and are given the same result by
    the generation client; but when they differ, they are cached apart:
    their canonical serializations differ.  So [Easy] and [easy], a missing
    and an empty topic list, or two game types other than [crossword], are
    generated and stored once each. *)
Theorem X24_requests_the_provider_cannot_tell_apart_are_cached_apart svc req1 req2 :
  String.eqb (GameType req1) "crossword" = String.eqb (GameType req2) "crossword" ->
  strings.ToLower To_LowerCase (Difficulty req1)
  = strings.ToLower To_LowerCase (Difficulty req2) ->
  Language req1 = Language req2 ->
  topics_clause (Topics req1) = topics_clause (Topics req2) ->
  prompt To_LowerCase req1 = prompt To_LowerCase req2
  /\ (forall env,
        generated To_LowerCase svc env req1 = generated To_LowerCase svc env req2
        /\ forall url body,
             In (Post url body) (generation_events To_LowerCase svc env req1)
             <-> In (Post url body) (generation_events To_LowerCase svc env req2))
  /\ (valid_request req1 -> valid_request req2 -> req1 <> req2 ->
      encode_PuzzleRequest req1 <> encode_PuzzleRequest req2).
Proof.
  intros Hg Hd Hl Ht.
  assert (Hp : prompt To_LowerCase req1 = prompt To_LowerCase req2).
  { unfold prompt, difficultyString, gameTypeString.
    rewrite !topicsString_clause, Hg, Hd, Hl, Ht. reflexivity. }
  assert (Hs : responseSchema req1 = responseSchema req2)
    by (unfold responseSchema; rewrite Hg; reflexivity).
  split; [exact Hp|]. split.
  - intros env.
    assert (Ha : answer_to To_LowerCase svc env req1 = answer_to To_LowerCase svc env req2)
      by (unfold answer_to; rewrite Hp, Hs; reflexivity).
    assert (Hc : calling_line To_LowerCase req1 = calling_line To_LowerCase req2)
      by (unfold calling_line; rewrite Hp; reflexivity).
    assert (Hq : provider_post To_LowerCase svc req1 = provider_post To_LowerCase svc req2)
      by (unfold provider_post; rewrite Hp, Hs; reflexivity).
    split; [rewrite !generated_outcome, Ha; reflexivity|].
    intros url body. rewrite !generation_events_outcome, Ha, Hc, Hq.
    destruct (unusable_key _); [cbn; split; intros [H|[]]; discriminate|].
    destruct (NewRequest_error env _);
      [cbn; split; intros [H|[H|[]]]; discriminate|].
    cbn [app In].
    split; intros [H|[H|[H|H]]]; try discriminate; auto.
  - intros H1 H2 Hne E. apply Hne.
    pose proof (Decode_encode req1 EmptyString) as D1.
    pose proof (Decode_encode req2 EmptyString) as D2.
    rewrite E, D2, (coerce_request_valid req1 H1), (coerce_request_valid req2 H2) in D1.
    injection D1 as ->. reflexivity.
Qed.

End Apart.

(** * The further properties at work *)

Lemma blank_misses (env : Env) (req : PuzzleRequest) : ~ hit env blank req.
Proof. intros [_ [row H]]. cbn in H. rewrite lookup_empty in H. discriminate. Qed.

Lemma X2_witness :
  StatusNotOK 503 "overloaded" = ApiKeyUnset
  \/ (exists cause, StatusNotOK 503 "overloaded" = NewRequestFailed cause)
  \/ (exists cause, StatusNotOK 503 "overloaded" = DoFailed cause)
  \/ (exists cause, StatusNotOK 503 "overloaded" = ReadBodyFailed cause)
  \/ (exists code body, StatusNotOK 503 "overloaded" = StatusNotOK code body
                        /\ code <> 200%Z)
  \/ (exists err body, StatusNotOK 503 "overloaded" = EnvelopeUnmarshalFailed err body)
  \/ (exists body, StatusNotOK 503 "overloaded" = EnvelopeEmpty body).
Proof.
  apply (X2_own_documents_never_fail no_case_ranges (geminiPuzzleService sample_server)
           overloaded_env scenario_request).
  vm_compute. reflexivity.
Defined.

Lemma X5_witness :
  fst (generatePuzzleHandler no_case_ranges sample_server (sample_env None None)
         {| Method := MethodPost; Body := "{" |} sample_cached)
  = HttpError (InvalidPayload json.SyntaxError) StatusBadRequest
  /\ snd (generatePuzzleHandler no_case_ranges sample_server (sample_env None None)
            {| Method := MethodPost; Body := "{" |} sample_cached)
     = sample_cached.
Proof.
  pose proof (X5_undecodable_body_is_400_without_effects no_case_ranges sample_server
                (sample_env None None) {| Method := MethodPost; Body := "{" |}
                sample_cached json.SyntaxError) as H.
  cbv zeta in H.
  destruct H as (H1 & _ & H3 & _).
  - reflexivity.
  - vm_compute. reflexivity.
  - split; [exact H1|exact H3].
Defined.

Lemma X6_witness :
  fst (generatePuzzleHandler no_case_ranges sample_server overloaded_env
         {| Method := MethodPost; Body := readme_body |} blank)
  = HttpError (GenerateFailed (StatusNotOK 503 "overloaded")) StatusInternalServerError
  /\ status (fst (generatePuzzleHandler no_case_ranges sample_server overloaded_env
                    {| Method := MethodPost; Body := readme_body |} blank)) = 500%Z
  /\ cached_puzzles
       (snd (generatePuzzleHandler no_case_ranges sample_server overloaded_env
               {| Method := MethodPost; Body := readme_body |} blank))
     = cached_puzzles blank.
Proof.
  pose proof (X6_failed_generation_is_500_and_not_cached no_case_ranges sample_server
                overloaded_env {| Method := MethodPost; Body := readme_body |} blank
                scenario_request (StatusNotOK 503 "overloaded")) as H.
  cbv zeta in H.
  destruct H as (H1 & H2 & H3 & _).
  - reflexivity.
  - vm_compute. reflexivity.
  - apply blank_misses.
  - vm_compute. reflexivity.
  - split; [exact H1|split; [exact H2|exact H3]].
Defined.

Lemma X9_witness :
  exists row,
    cached_puzzles
      (handle_all no_case_ranges
         [ (sample_server, sample_env (Some "connection reset") None,
            {| Method := MethodPost; Body := scenario_canonical |}) ]
         (snd (generatePuzzleHandler no_case_ranges sample_server (sample_env None None)
                 {| Method := MethodPost; Body := readme_body |} blank)))
      !! fingerprint scenario_request
    = Some row
    /\ fst (generatePuzzleHandler no_case_ranges
              {| geminiPuzzleService := NewGeminiPuzzleService EmptyString |}
              overloaded_env
              {| Method := MethodPost; Body := reordered_body |}
              (handle_all no_case_ranges
                 [ (sample_server, sample_env (Some "connection reset") None,
                    {| Method := MethodPost; Body := scenario_canonical |}) ]
                 (snd (generatePuzzleHandler no_case_ranges sample_server
                         (sample_env None None)
                         {| Method := MethodPost; Body := readme_body |} blank))))
       = Written "application/json" (response_data row).
Proof.
  destruct (X9_answered_request_is_served_from_cache no_case_ranges sample_server
              (sample_env None None) {| Method := MethodPost; Body := readme_body |} blank
              scenario_request "application/json" sample_text
              [ (sample_server, sample_env (Some "connection reset") None,
                 {| Method := MethodPost; Body := scenario_canonical |}) ]
              {| geminiPuzzleService := NewGeminiPuzzleService EmptyString |}
              overloaded_env
              {| Method := MethodPost; Body := reordered_body |})
    as (row & H1 & H2 & _).
  - vm_compute. reflexivity.
  - vm_compute. reflexivity.
  - reflexivity.
  - reflexivity.
  - vm_compute. reflexivity.
  - reflexivity.
  - exists row. split; [exact H1|exact H2].
Defined.

Lemma X11_witness :
  exists row,
    cached_puzzles
      (snd (generatePuzzleHandler no_case_ranges sample_server
              (sample_env (Some "connection reset") None)
              {| Method := MethodPost; Body := readme_body |} sample_cached))
    = <[fingerprint scenario_request := row]> (cached_puzzles sample_cached)
    /\ request_params row
       = jsonb (sample_env (Some "connection reset") None)
               (encode_PuzzleRequest scenario_request)
    /\ response_data row
       = jsonb (sample_env (Some "connection reset") None) sample_text.
Proof.
  pose proof (X11_saved_row_holds_what_was_served no_case_ranges sample_server
                (sample_env (Some "connection reset") None)
                {| Method := MethodPost; Body := readme_body |} sample_cached
                scenario_request sample_text) as H.
  cbv zeta in H.
  destruct H as (_ & _ & H3 & _).
  - reflexivity.
  - vm_compute. reflexivity.
  - intros [H _]. discriminate H.
  - vm_compute. reflexivity.
  - reflexivity.
  - exact H3.
Defined.

Lemma X12_witness :
  fst (GetCachedPuzzle (sample_env None None) "abc"
         (snd (SaveCachedPuzzle (sample_env None None) "abc" "{}" "[1,2]" sample_cached)))
  = (Some "[1, 2]"%string, None).
Proof.
  apply (X12_saved_puzzle_is_found (sample_env None None) (sample_env None None)
           "abc" "{}" "[1,2]" sample_cached); reflexivity.
Defined.

Lemma X14_witness : fst (main (sample_host EmptyString "9000")) = Exited 1.
Proof.
  apply (X14_startup_needs_both_variables (sample_host EmptyString "9000")).
  right. reflexivity.
Defined.

Lemma accented_request_valid : valid_request accented_request.
Proof. repeat split; repeat constructor. Qed.

Lemma X18_witness :
  Decode_PuzzleRequest (encode_PuzzleRequest accented_request) = json.Ok accented_request
  /\ Decode_PuzzleRequest (encode_PuzzleRequest accented_request +:+ "}] trailing")
     = json.Ok accented_request.
Proof.
  apply (X18_canonical_serialization_decodes_to_the_request accented_request
           "}] trailing").
  repeat split; repeat constructor.
Defined.

Lemma X19_witness :
  (encode_PuzzleRequest accented_request = encode_PuzzleRequest scenario_request ->
   accented_request = scenario_request)
  /\ (fingerprint accented_request = fingerprint scenario_request ->
      accented_request = scenario_request
      \/ (encode_PuzzleRequest accented_request <> encode_PuzzleRequest scenario_request
          /\ sha256.Sum (encode_PuzzleRequest accented_request)
             = sha256.Sum (encode_PuzzleRequest scenario_request))).
Proof.
  apply (X19_one_fingerprint_is_one_request_or_a_collision accented_request
           scenario_request).
  - repeat split; repeat constructor.
  - repeat split; repeat constructor.
Defined.

Lemma X20_witness :
  Decode_PuzzleRequest scenario_canonical = json.Ok scenario_request
  /\ exists rest,
       trace (snd (generatePuzzleHandler no_case_ranges sample_server
                     (sample_env None None)
                     {| Method := MethodPost; Body := scenario_canonical |} blank))
       = trace blank ++ Query (lowercase_hex (sha256.Sum scenario_canonical)) :: rest.
Proof.
  pose proof (X20_canonical_body_is_keyed_by_the_bytes_sent no_case_ranges sample_server
                (sample_env None None)
                {| Method := MethodPost; Body := scenario_canonical |} blank
                scenario_request) as H.
  cbv zeta in H. cbn [Body] in H.
  destruct H as (H1 & H2 & _).
  - repeat split; repeat constructor.
  - reflexivity.
  - vm_compute. reflexivity.
  - split; [exact H1|exact H2].
Defined.

Lemma X22_witness :
  generated no_case_ranges (geminiPuzzleService sample_server) verbose_env
            scenario_request
  = Value verbose_text.
Proof.
  assert (E : exists v, json.checkValid verbose_answer = json.Ok v
                        /\ envelope_of verbose_text v).
  { eexists. split; [vm_compute; reflexivity|].
    unfold envelope_of. eexists _, _, _, _, _, _.
    split; [reflexivity|].
    split.
    { exists []. eexists. split; [reflexivity|]. split; [intros ? ? []|].
      intros k x Hin. cbn in Hin.
      repeat (destruct Hin as [[= <- <-]|Hin]; [reflexivity|]). contradiction. }
    split.
    { eexists [_], _. split; [reflexivity|].
      split; intros k x Hin; cbn in Hin;
        repeat (destruct Hin as [[= <- <-]|Hin]; [reflexivity|]); contradiction. }
    split.
    { exists []. eexists. split; [reflexivity|]. split; [intros ? ? []|].
      intros k x Hin. cbn in Hin.
      repeat (destruct Hin as [[= <- <-]|Hin]; [reflexivity|]). contradiction. }
    split.
    { exists [], []. split; [vm_compute; reflexivity|]. split; intros ? ? []. }
    split; repeat constructor; intros old; reflexivity. }
  destruct E as (v & E & Hv).
  exact (proj1 (X22_text_of_the_answer_comes_back_unescaped no_case_ranges
                  (geminiPuzzleService sample_server) verbose_env scenario_request
                  verbose_answer v verbose_text eq_refl eq_refl eq_refl E Hv)).
Defined.

Lemma X23_witness :
  Decode_PuzzleRequest (readme_body +:+ "}{ not JSON") = json.Ok scenario_request
  /\ generatePuzzleHandler no_case_ranges sample_server (sample_env None None)
       {| Method := MethodPost; Body := readme_body +:+ "}{ not JSON" |} blank
     = generatePuzzleHandler no_case_ranges sample_server (sample_env None None)
         {| Method := MethodPost; Body := readme_body |} blank.
Proof.
  apply (X23_bytes_after_the_first_value_are_not_read no_case_ranges sample_server
           (sample_env None None) blank
           {| Method := MethodPost; Body := readme_body |}
           {| Method := MethodPost; Body := readme_body +:+ "}{ not JSON" |}
           scenario_request "}{ not JSON").
  - reflexivity.
  - reflexivity.
  - vm_compute. reflexivity.
  - reflexivity.
Defined.

Lemma X24_witness :
  prompt no_case_ranges easy_request = prompt no_case_ranges Easy_request
  /\ (forall env,
        generated no_case_ranges (geminiPuzzleService sample_server) env easy_request
        = generated no_case_ranges (geminiPuzzleService sample_server) env Easy_request
        /\ forall url body,
             In (Post url body)
                (generation_events no_case_ranges (geminiPuzzleService sample_server)
                   env easy_request)
             <-> In (Post url body)
                   (generation_events no_case_ranges (geminiPuzzleService sample_server)
                      env Easy_request))
  /\ (valid_request easy_request -> valid_request Easy_request ->
      easy_request <> Easy_request ->
      encode_PuzzleRequest easy_request <> encode_PuzzleRequest Easy_request).
Proof.
  apply (X24_requests_the_provider_cannot_tell_apart_are_cached_apart no_case_ranges
           (geminiPuzzleService sample_server) easy_request Easy_request);
    reflexivity.
Defined.
